(** * R_t inference engine (pyseir/inference/infer_rt.py)

    A shallow embedding of the parts of [RtInferenceEngine] and of
    [replace_outliers] that the specification talks about.

    Conventions of the embedding:
    - numpy/pandas float64 values are modelled as exact real numbers [R],
      NaN cells of a table are [None]; where the result of the code turns
      on rounding, in [highest_density_interval], the computation is also
      given on binary64 floats (module [Float64]);
    - a [pd.Series]/[np.array] of values is a [list R], positions are [nat];
    - Python slicing offsets, which may be negative, are [Z];
    - Python exceptions and the implicit [None] result are [option]; where
      the class of the exception decides what a handler does, in
      [replace_outliers], the result is a sum with the exception. *)

From Stdlib Require Import Floats.
From Stdlib Require Uint63.
From Stdlib Require Import Reals Lra Lia List ZArith Bool String Arith Sorted.
Import ListNotations.
Open Scope R_scope.

(** ** Enumerations *)

(** Modelled from the spec: [pyseir.utils.TimeseriesType] is declared outside
    the files at hand; its members are the ones [infer_rt.py] names. *)
Inductive TimeseriesType : Type :=
  | NEW_CASES
  | RAW_NEW_CASES
  | NEW_DEATHS
  | RAW_NEW_DEATHS
  | NEW_HOSPITALIZATIONS
  | CURRENT_HOSPITALIZATIONS.

(** Modelled from the spec: [load_data.HospitalizationDataType] is declared
    outside the files at hand; the two members are the ones the engine and
    the backtest compare against. *)
Inductive HospitalizationDataType : Type :=
  | HOSP_CUMULATIVE_HOSPITALIZATIONS
  | HOSP_CURRENT_HOSPITALIZATIONS.

Definition TimeseriesType_is (a b : TimeseriesType) : bool :=
  match a, b with
  | NEW_CASES, NEW_CASES
  | RAW_NEW_CASES, RAW_NEW_CASES
  | NEW_DEATHS, NEW_DEATHS
  | RAW_NEW_DEATHS, RAW_NEW_DEATHS
  | NEW_HOSPITALIZATIONS, NEW_HOSPITALIZATIONS
  | CURRENT_HOSPITALIZATIONS, CURRENT_HOSPITALIZATIONS => true
  | _, _ => false
  end.

Definition HospitalizationDataType_is (a : option HospitalizationDataType)
    (b : HospitalizationDataType) : bool :=
  match a, b with
  | Some HOSP_CUMULATIVE_HOSPITALIZATIONS, HOSP_CUMULATIVE_HOSPITALIZATIONS
  | Some HOSP_CURRENT_HOSPITALIZATIONS, HOSP_CURRENT_HOSPITALIZATIONS => true
  | _, _ => false
  end.

(** The [value] of a member, as used in column names. *)
Definition TimeseriesType_value (t : TimeseriesType) : string :=
  match t with
  | NEW_CASES => "new_cases"
  | RAW_NEW_CASES => "raw_new_cases"
  | NEW_DEATHS => "new_deaths"
  | RAW_NEW_DEATHS => "raw_new_deaths"
  | NEW_HOSPITALIZATIONS => "new_hospitalizations"
  | CURRENT_HOSPITALIZATIONS => "current_hospitalizations"
  end.

(** ** Python truthiness for the operands of [or] in [get_timeseries] *)

Inductive pyval : Type :=
  | PyBool (b : bool)
  | PyEnum (t : TimeseriesType).

(** An [Enum] member defines neither [__bool__] nor [__len__]: it is truthy. *)
Definition truthy (v : pyval) : bool :=
  match v with
  | PyBool b => b
  | PyEnum _ => true
  end.

(** [a or b] evaluates to [a] when [a] is truthy and to [b] otherwise. *)
Definition py_or (a b : pyval) : pyval := if truthy a then a else b.

(** ** Comparisons of reals as booleans *)

Definition Rgtb (a b : R) : bool := if Rgt_dec a b then true else false.
Definition Rltb (a b : R) : bool := if Rlt_dec a b then true else false.
Definition Reqb (a b : R) : bool := if Req_dec_T a b then true else false.

Definition Rsum (l : list R) : R := fold_right Rplus 0 l.

(** ** The engine instance *)

Record RtInferenceEngine : Type := {
  r_list : list R;
  process_sigma : R;
  serial_period : R;
  confidence_intervals : list R;
  min_cases : R;
  min_deaths : R;
  case_dates : list Z;
  times : list Z;
  observed_new_cases : list R;
  observed_new_deaths : list R;
  raw_new_case_dates : list Z;
  times_raw_new_cases : list Z;
  raw_new_cases : list R;
  hospital_dates : list Z;
  hospital_times : list Z;
  hospitalizations : list R;
  hospitalization_data_type : option HospitalizationDataType
}.

(** ** [RtInferenceEngine.get_timeseries] *)

Inductive timeseries_branch : Type :=
  | BranchCases
  | BranchRawCases
  | BranchDeaths
  | BranchHospitalizations.

(** The guard of the third branch:
    [timeseries_type is TimeseriesType.NEW_DEATHS or TimeseriesType.RAW_NEW_DEATHS]. *)
Definition deaths_guard (timeseries_type : TimeseriesType) : bool :=
  truthy (py_or (PyBool (TimeseriesType_is timeseries_type NEW_DEATHS))
                (PyEnum RAW_NEW_DEATHS)).

Definition hospitalizations_guard (timeseries_type : TimeseriesType) : bool :=
  existsb (TimeseriesType_is timeseries_type)
          [NEW_HOSPITALIZATIONS; CURRENT_HOSPITALIZATIONS].

(** Which [return] of the [if]/[elif] chain is taken; [None] is the implicit
    result of falling off the end of the chain. *)
Definition get_timeseries_branch (timeseries_type : TimeseriesType)
    : option timeseries_branch :=
  if TimeseriesType_is timeseries_type NEW_CASES then Some BranchCases
  else if TimeseriesType_is timeseries_type RAW_NEW_CASES then Some BranchRawCases
  else if deaths_guard timeseries_type then Some BranchDeaths
  else if hospitalizations_guard timeseries_type then Some BranchHospitalizations
  else None.

Definition get_timeseries (self : RtInferenceEngine)
    (timeseries_type : TimeseriesType) : option (list Z * list Z * list R) :=
  match get_timeseries_branch timeseries_type with
  | Some BranchCases =>
      Some (case_dates self, times self, observed_new_cases self)
  | Some BranchRawCases =>
      Some (raw_new_case_dates self, times_raw_new_cases self, raw_new_cases self)
  | Some BranchDeaths =>
      Some (case_dates self, times self, observed_new_deaths self)
  | Some BranchHospitalizations =>
      Some (hospital_dates self, hospital_times self, hospitalizations self)
  | None => None
  end.

(** ** [RtInferenceEngine.get_available_timeseries] *)

(** [hosps > 3] on a numpy array compares element by element. *)
Definition np_gt (a : list R) (c : R) : list bool := map (fun v => Rgtb v c) a.

(** Truthiness of an [int]. *)
Definition truthy_len {A : Type} (l : list A) : bool :=
  negb (Nat.eqb (List.length l) 0).

Definition IDX_OF_COUNTS {A B C : Type} (r : A * B * C) : C := snd r.

Definition get_available_timeseries (self : RtInferenceEngine)
    : option (list TimeseriesType) :=
  match get_timeseries self NEW_CASES, get_timeseries self NEW_DEATHS with
  | Some rc, Some rd =>
      let cases := IDX_OF_COUNTS rc in
      let deaths := IDX_OF_COUNTS rd in
      (* [hosps] is bound only when the data type is truthy *)
      let hosps :=
        match hospitalization_data_type self with
        | Some _ => option_map IDX_OF_COUNTS (get_timeseries self NEW_HOSPITALIZATIONS)
        | None => None
        end in
      let a1 :=
        if Rgtb (Rsum cases) (min_cases self)
        then [NEW_CASES; RAW_NEW_CASES] else [] in
      let a2 :=
        if Rgtb (Rsum deaths) (min_deaths self)
        then [NEW_DEATHS; RAW_NEW_DEATHS] else [] in
      let hosp_ok :=
        match hosps with
        | Some h => truthy_len (np_gt h 3)
        | None => false
        end in
      let a3 :=
        if HospitalizationDataType_is (hospitalization_data_type self)
             HOSP_CURRENT_HOSPITALIZATIONS && hosp_ok
        then [NEW_HOSPITALIZATIONS]
        else if HospitalizationDataType_is (hospitalization_data_type self)
                  HOSP_CUMULATIVE_HOSPITALIZATIONS && hosp_ok
        then [NEW_HOSPITALIZATIONS]
        else [] in
      Some (a1 ++ a2 ++ a3)
  | _, _ => None
  end.

(** ** [replace_outliers] *)

Module InferRtConstants.
Definition RNG_SEED : Z := 42%Z.
Definition LOCAL_LOOKBACK_WINDOW : nat := 14.
Definition Z_THRESHOLD : R := 10.
Definition MIN_MEAN_TO_CONSIDER : R := 5.
End InferRtConstants.

(** Small epsilon to prevent divide by 0 errors: [1e-8]. *)
Definition EPSILON : R := / 100000000.

Definition np_mean (l : list R) : R := Rsum l / INR (List.length l).

(** [std(ddof=0)]: the population standard deviation. *)
Definition np_var0 (l : list R) : R :=
  Rsum (map (fun v => (v - np_mean l) * (v - np_mean l)) l) / INR (List.length l).

Definition np_std0 (l : list R) : R := sqrt (np_var0 l).

(** [x.rolling(window=W, min_periods=W, center=False)]: the window that ends
    at position [i], present only once [W] values are available.  A window of
    size 0 never holds a value. *)
Definition rolling_window (W : nat) (x : list R) (i : nat) : option (list R) :=
  if (1 <=? W)%nat && (W <=? S i)%nat && (i <? List.length x)%nat
  then Some (firstn W (skipn (S i - W) x))
  else None.

Definition rolling (f : list R -> R) (W : nat) (x : list R) : list (option R) :=
  map (fun i => option_map f (rolling_window W x i)) (seq 0 (List.length x)).

(** [.shift(1)]: every value moves one position down, the first becomes NaN. *)
Definition shift1 (l : list (option R)) : list (option R) :=
  match l with
  | [] => []
  | _ :: _ => None :: removelast l
  end.

(** [(x - m) / (s + EPSILON)], NaN wherever [m] or [s] is. *)
Definition z_score_of (x : list R) (m s : list (option R)) : list (option R) :=
  map (fun i =>
         match nth i m None, nth i s None with
         | Some mi, Some si => Some ((nth i x 0 - mi) / (si + EPSILON))
         | _, _ => None
         end)
      (seq 0 (List.length x)).

(** [np.where(z_score > z_threshold)[0]]; a comparison with NaN is false. *)
Definition np_where_gt (z : list (option R)) (c : R) : list nat :=
  filter (fun i => match nth i z None with
                   | Some zi => Rgtb zi c
                   | None => false
                   end)
         (seq 0 (List.length z)).

Fixpoint list_set {A : Type} (l : list A) (i : nat) (v : A) : list A :=
  match l, i with
  | [], _ => []
  | _ :: t, O => v :: t
  | h :: t, S i' => h :: list_set t i' v
  end.

(** The exceptions that reading the series can raise. *)
Inductive exception : Type := KeyError | IndexError.

(** [x[label]] with an integer key.  [apply_gaussian_smoothing] hands the
    filter [pd.Series(timeseries)], whose index is the default range
    [0 .. len - 1]; an integer key is looked up as a label of that index,
    and a label the index does not hold raises [KeyError]. *)
Definition series_getitem (x : list R) (label : nat) : R + exception :=
  match nth_error x label with
  | Some v => inl v
  | None => inr KeyError
  end.

(** One iteration of the [for idx in possible_changes_idx] loop.  The state
    is the series [x], which the loop overwrites in place, [changed_idx],
    and the exception that has left the loop, if any.  The handler of the
    [try] names [IndexError] only: the [KeyError] of [x[idx + 1]] passes it,
    after [changed_idx.append(idx)] and before anything is assigned.
    [x[idx - 1]] and [x[idx]] are always there: [m[0]] is NaN, so the body
    is entered with [1 <= idx] only. *)
Definition replace_outliers_step (m : list (option R)) (min_mean_to_consider : R)
    (st : list R * list nat * option exception) (idx : nat)
    : list R * list nat * option exception :=
  let '(x, changed_idx, raised) := st in
  match raised with
  | Some _ => st
  | None =>
      match nth idx m None with
      | Some mi =>
          if Rgtb mi min_mean_to_consider then
            match series_getitem x (idx + 1) with
            | inl nxt =>
                (list_set x idx (np_mean [nth (idx - 1) x 0; nxt]),
                 changed_idx ++ [idx], None)
            | inr IndexError =>
                (list_set x idx (nth (idx - 1) x 0), changed_idx ++ [idx], None)
            | inr e => (x, changed_idx ++ [idx], Some e)
            end
          else st
      | None => st
      end
  end.

Definition replace_outliers_run (x : list R) (local_lookback_window : nat)
    (z_threshold min_mean_to_consider : R) : list R * list nat * option exception :=
  let m := shift1 (rolling np_mean local_lookback_window x) in
  let s := shift1 (rolling np_std0 local_lookback_window x) in
  let z_score := z_score_of x m s in
  let possible_changes_idx := np_where_gt z_score z_threshold in
  fold_left (replace_outliers_step m min_mean_to_consider)
            possible_changes_idx (x, [], None).

(** The values the series object holds when the call ends, whether by
    [return x] or by an exception. *)
Definition replace_outliers_final (x : list R) (local_lookback_window : nat)
    (z_threshold min_mean_to_consider : R) : list R :=
  fst (fst (replace_outliers_run x local_lookback_window z_threshold
                                 min_mean_to_consider)).

(** The call: [return x], or the exception that left the loop. *)
Definition replace_outliers (x : list R) (local_lookback_window : nat)
    (z_threshold min_mean_to_consider : R) : list R + exception :=
  match snd (replace_outliers_run x local_lookback_window z_threshold
                                  min_mean_to_consider) with
  | None => inl (replace_outliers_final x local_lookback_window z_threshold
                                        min_mean_to_consider)
  | Some e => inr e
  end.

Definition replace_outliers_changed_idx (x : list R) (local_lookback_window : nat)
    (z_threshold min_mean_to_consider : R) : list nat :=
  snd (fst (replace_outliers_run x local_lookback_window z_threshold
                                 min_mean_to_consider)).

(** Whether [m[idx] > min_mean_to_consider], false where [m] is NaN. *)
Definition mean_flag (m : list (option R)) (min_mean_to_consider : R)
    (idx : nat) : bool :=
  match nth idx m None with
  | Some mi => Rgtb mi min_mean_to_consider
  | None => false
  end.

(** Whether [z_score[idx] > z_threshold], false where the score is NaN. *)
Definition z_flag (x : list R) (W : nat) (z_threshold : R) (i : nat) : bool :=
  match nth i (z_score_of x (shift1 (rolling np_mean W x))
                            (shift1 (rolling np_std0 W x))) None with
  | Some zi => Rgtb zi z_threshold
  | None => false
  end.

(** The values of the window of [W] points that precede position [idx]. *)
Definition trailing (W : nat) (x : list R) (idx : nat) : list R :=
  firstn W (skipn (idx - W) x).

(** The condition under which the filter is said to replace position [idx]. *)
Definition outlier_at (W : nat) (z_threshold min_mean : R) (x : list R)
    (idx : nat) : Prop :=
  (W <= idx)%nat /\
  (nth idx x 0 - np_mean (trailing W x idx))
    / (np_std0 (trailing W x idx) + EPSILON) > z_threshold /\
  np_mean (trailing W x idx) > min_mean.

(** *** The series as a mutable object

    [replace_outliers] receives a reference to a [pd.Series], assigns
    [x[idx] = ...] on that object and ends in [return x].  The store maps
    references to the values the objects hold; what the loop has assigned
    stays in the object when an exception leaves the call. *)
Definition store : Type := list (list R).

Definition series_at (h : store) (ref : nat) : list R := nth ref h [].

Definition replace_outliers_obj (h : store) (x : nat) (local_lookback_window : nat)
    (z_threshold min_mean_to_consider : R) : store * (nat + exception) :=
  (list_set h x (replace_outliers_final (series_at h x) local_lookback_window
                                        z_threshold min_mean_to_consider),
   match replace_outliers (series_at h x) local_lookback_window
                          z_threshold min_mean_to_consider with
   | inl _ => inl x
   | inr e => inr e
   end).

(** ** [RtInferenceEngine.get_posteriors] *)

(** *** The scipy distributions the engine evaluates *)

(** [sps.poisson.pmf(k, mu)] at a count [k]; at [mu = 0] it is 1 for [k = 0]
    and 0 otherwise, which is what [0 ^ 0 = 1] gives here. *)
Definition poisson_pmf (k : nat) (mu : R) : R :=
  exp (- mu) * mu ^ k / INR (fact k).

(** [sps.norm(loc, scale).pdf(x)]. *)
Definition norm_pdf (loc scale x : R) : R :=
  exp (- (((x - loc) / scale) * ((x - loc) / scale)) / 2)
  / (sqrt (2 * PI) * scale).

(** Gamma(5/2) = 3/4 * sqrt(pi). *)
Definition Gamma_5_2 : R := 3 / 4 * sqrt PI.

(** [sps.gamma(a=2.5).pdf(x)] = x^1.5 e^-x / Gamma(2.5), zero left of 0. *)
Definition gamma_pdf_a2_5 (x : R) : R :=
  if Rlt_dec x 0 then 0 else x * sqrt x * exp (- x) / Gamma_5_2.

(** [sps.gamma(a=2).pdf(x)] = x e^-x / Gamma(2), zero left of 0. *)
Definition gamma_pdf_a2 (x : R) : R :=
  if Rlt_dec x 0 then 0 else x * exp (- x).

(** *** Vectors and matrices over the R grid *)

Fixpoint zip_with {A B C : Type} (f : A -> B -> C) (a : list A) (b : list B)
    : list C :=
  match a, b with
  | x :: a', y :: b' => f x y :: zip_with f a' b'
  | _, _ => []
  end.

(** [v /= v.sum()]. *)
Definition normalize (v : list R) : list R := map (fun e => e / Rsum v) v.

(** [M.sum(axis=0)]: one sum per column. *)
Definition col_sums (ncols : nat) (M : list (list R)) : list R :=
  map (fun j => Rsum (map (fun row => nth j row 0) M)) (seq 0 ncols).

(** [M /= M.sum(axis=0)]. *)
Definition normalize_columns (ncols : nat) (M : list (list R)) : list (list R) :=
  map (fun row => zip_with Rdiv row (col_sums ncols M)) M.

(** [M @ v]. *)
Definition matvec (M : list (list R)) (v : list R) : list R :=
  map (fun row => Rsum (zip_with Rmult row v)) M.

(** *** The running log-likelihood

    A float that can be finite, [-inf] ([np.log(0.0)]) or NaN
    ([np.log] of a negative number). *)
Inductive logval : Type :=
  | LogFinite (v : R)
  | LogNegInf
  | LogNaN.

Definition np_log (d : R) : logval :=
  if Req_dec_T d 0 then LogNegInf
  else if Rlt_dec d 0 then LogNaN
  else LogFinite (ln d).

Definition logval_add (a b : logval) : logval :=
  match a, b with
  | LogNaN, _ | _, LogNaN => LogNaN
  | LogNegInf, _ | _, LogNegInf => LogNegInf
  | LogFinite u, LogFinite v => LogFinite (u + v)
  end.

Section Posteriors.

Variable self : RtInferenceEngine.

(** (1)-(2) One likelihood column per day after the first:
    [poisson.pmf(timeseries[1:], timeseries[:-1] * exp((r_list - 1) / serial_period))]. *)
Fixpoint likelihoods (timeseries : list nat) : list (list R) :=
  match timeseries with
  | k_prev :: ((k_cur :: _) as rest) =>
      map (fun r => poisson_pmf k_cur
                      (INR k_prev * exp ((r - 1) / serial_period self)))
          (r_list self)
      :: likelihoods rest
  | _ => []
  end.

(** (3) [process_matrix[i][j] = norm(loc=r_list[j], scale=process_sigma).pdf(r_list[i])],
    (3a) then every column is divided by its sum. *)
Definition process_matrix : list (list R) :=
  normalize_columns (List.length (r_list self))
    (map (fun ri => map (fun rj => norm_pdf rj (process_sigma self) ri) (r_list self))
         (r_list self)).

(** (4) *)
Definition prior0 : list R := normalize (map gamma_pdf_a2_5 (r_list self)).

Definition reinit_prior : list R := normalize (map gamma_pdf_a2 (r_list self)).

(** (5a)-(5c) *)
Definition bayes_numerator (previous_posterior likelihood : list R) : list R :=
  zip_with Rmult likelihood (matvec process_matrix previous_posterior).

Definition bayes_update (previous_posterior likelihood : list R) : list R :=
  let numerator := bayes_numerator previous_posterior likelihood in
  let denominator := Rsum numerator in
  if Req_dec_T denominator 0 then reinit_prior
  else map (fun e => e / denominator) numerator.

(** (5) The loop over [zip(index[:-1], index[1:])]: the state is the
    posterior of the previous day and the running [log_likelihood]. *)
Fixpoint bayes_loop (likelihood_columns : list (list R))
    (previous_posterior : list R) (log_likelihood : logval)
    : list (list R) * logval :=
  match likelihood_columns with
  | [] => ([], log_likelihood)
  | likelihood :: rest =>
      let denominator := Rsum (bayes_numerator previous_posterior likelihood) in
      let posterior := bayes_update previous_posterior likelihood in
      let log_likelihood' := logval_add log_likelihood (np_log denominator) in
      let '(posteriors, total) := bayes_loop rest posterior log_likelihood' in
      (posterior :: posteriors, total)
  end.

(** [get_posteriors] from the smoothed series on, for a series that holds
    no NaN ([get_posteriors_cells] below is the computation with NaN
    cells).  The smoothed values are rounded Gaussian means of non-negative
    counts, hence naturals.  The result holds the posterior columns, first
    day included, and the value left in [self.log_likelihood]; [None] is
    [(None, None, None, None)]. *)
Definition get_posteriors (timeseries : list nat) : option (list (list R) * logval) :=
  match timeseries with
  | [] => None
  | _ :: _ =>
      let '(posteriors, log_likelihood) :=
        bayes_loop (likelihoods timeseries) prior0 (LogFinite 0) in
      Some (prior0 :: posteriors, log_likelihood)
  end.

(** The normalizing constants [Z] of the successive days. *)
Fixpoint denominators (likelihood_columns : list (list R))
    (previous_posterior : list R) : list R :=
  match likelihood_columns with
  | [] => []
  | likelihood :: rest =>
      Rsum (bayes_numerator previous_posterior likelihood)
      :: denominators rest (bayes_update previous_posterior likelihood)
  end.

Definition get_denominators (timeseries : list nat) : list R :=
  denominators (likelihoods timeseries) prior0.

(** *** The same computation on cells that can be NaN

    The smoothed series can hold NaN: the Gaussian window asks for
    [min_periods] values, so a series of fewer points than that is smoothed
    to NaN throughout, and such a series passes the cut of the leading
    zeros.  A cell is [None] where the float is NaN. *)

(** (1)-(2) [lam] is NaN where [timeseries[:-1]] is, and [poisson.pmf] is
    NaN where its count or its rate is: the column of a day is NaN
    throughout as soon as that day or the day before is. *)
Fixpoint likelihoods_cells (timeseries : list (option nat))
    : list (list (option R)) :=
  match timeseries with
  | k_prev :: ((k_cur :: _) as rest) =>
      map (fun r => match k_prev, k_cur with
                    | Some a, Some b =>
                        Some (poisson_pmf b
                                (INR a * exp ((r - 1) / serial_period self)))
                    | _, _ => None
                    end)
          (r_list self)
      :: likelihoods_cells rest
  | _ => []
  end.

Definition cell_mul (a b : option R) : option R :=
  match a, b with
  | Some u, Some v => Some (u * v)
  | _, _ => None
  end.

Definition cell_add (a b : option R) : option R :=
  match a, b with
  | Some u, Some v => Some (u + v)
  | _, _ => None
  end.

(** [M @ v] where [v] can hold NaN: a sum of products is NaN as soon as one
    of its terms is. *)
Definition matvec_cells (M : list (list R)) (v : list (option R))
    : list (option R) :=
  map (fun row =>
         fold_right cell_add (Some 0)
                    (zip_with (fun a c => cell_mul (Some a) c) row v))
      M.

(** [np.sum(numerator)]: [numerator] is a [pd.Series], the product of a
    column of the [likelihoods] frame with [current_prior].  [np.sum] of an
    object that is not an [ndarray] calls the object's own [sum], here
    [Series.sum] with its default [skipna=True], which leaves the NaN cells
    out; the sum of a Series that is NaN throughout is [0.0]. *)
Definition series_sum (s : list (option R)) : R :=
  Rsum (flat_map (fun c => match c with Some v => [v] | None => [] end) s).

Definition bayes_numerator_cells (previous_posterior likelihood : list (option R))
    : list (option R) :=
  zip_with cell_mul likelihood (matvec_cells process_matrix previous_posterior).

Definition bayes_update_cells (previous_posterior likelihood : list (option R))
    : list (option R) :=
  let numerator := bayes_numerator_cells previous_posterior likelihood in
  let denominator := series_sum numerator in
  if Req_dec_T denominator 0 then map Some reinit_prior
  else map (option_map (fun e => e / denominator)) numerator.

Fixpoint bayes_loop_cells (likelihood_columns : list (list (option R)))
    (previous_posterior : list (option R)) (log_likelihood : logval)
    : list (list (option R)) * logval :=
  match likelihood_columns with
  | [] => ([], log_likelihood)
  | likelihood :: rest =>
      let denominator :=
        series_sum (bayes_numerator_cells previous_posterior likelihood) in
      let posterior := bayes_update_cells previous_posterior likelihood in
      let log_likelihood' := logval_add log_likelihood (np_log denominator) in
      let '(posteriors, total) := bayes_loop_cells rest posterior log_likelihood' in
      (posterior :: posteriors, total)
  end.

(** [get_posteriors] from a smoothed series whose points are counts or NaN.
    On a series without NaN it is [get_posteriors] above, cell by cell. *)
Definition get_posteriors_cells (timeseries : list (option nat))
    : option (list (list (option R)) * logval) :=
  match timeseries with
  | [] => None
  | _ :: _ =>
      let '(posteriors, log_likelihood) :=
        bayes_loop_cells (likelihoods_cells timeseries) (map Some prior0)
                         (LogFinite 0) in
      Some (map Some prior0 :: posteriors, log_likelihood)
  end.

(** The likelihood columns as the update weighs them: a column that is NaN
    throughout adds nothing to the sum, as a column of zeros does. *)
Fixpoint effective_likelihoods (timeseries : list (option nat)) : list (list R) :=
  match timeseries with
  | k_prev :: ((k_cur :: _) as rest) =>
      map (fun r => match k_prev, k_cur with
                    | Some a, Some b =>
                        poisson_pmf b (INR a * exp ((r - 1) / serial_period self))
                    | _, _ => 0
                    end)
          (r_list self)
      :: effective_likelihoods rest
  | _ => []
  end.

(** ** [RtInferenceEngine.highest_density_interval] *)

Fixpoint cumsum_from (acc : R) (l : list R) : list R :=
  match l with
  | [] => []
  | v :: t => (acc + v) :: cumsum_from (acc + v) t
  end.

(** [values.cumsum(axis=0)] on one column. *)
Definition cumsum (l : list R) : list R := cumsum_from 0 l.

Fixpoint argmin_from (best_i : nat) (best : R) (i : nat) (l : list R) : nat :=
  match l with
  | [] => best_i
  | v :: t =>
      if Rlt_dec v best then argmin_from i v (S i) t
      else argmin_from best_i best (S i) t
  end.

(** [np.argmin]: the first position of the minimum; an empty axis raises. *)
Definition np_argmin (l : list R) : option nat :=
  match l with
  | [] => None
  | v :: t => Some (argmin_from 0 v 1 t)
  end.

(** The grid value at the position whose cumulative mass is closest to
    [target], the distances compared as exact reals ([Float64] below has
    the comparison of the rounded distances). *)
Definition closest_grid_value (column : list R) (target : R) : option R :=
  match np_argmin (map (fun c => Rabs (c - target)) (cumsum column)) with
  | Some i => nth_error (r_list self) i
  | None => None
  end.

Fixpoint traverse {A B : Type} (f : A -> option B) (l : list A) : option (list B) :=
  match l with
  | [] => Some []
  | a :: t =>
      match f a, traverse f t with
      | Some b, Some bs => Some (b :: bs)
      | _, _ => None
      end
  end.

Definition highest_density_interval (posteriors : list (list R)) (ci : R)
    : option (list R * list R) :=
  match traverse (fun column => closest_grid_value column (1 - ci)) posteriors,
        traverse (fun column => closest_grid_value column ci) posteriors with
  | Some ci_low, Some ci_high => Some (ci_low, ci_high)
  | _, _ => None
  end.

(** A posterior column: one non-negative entry per grid value. *)
Definition well_formed_column (col : list R) : Prop :=
  col <> [] /\ List.length col = List.length (r_list self)
  /\ Forall (fun p => 0 <= p) col.

(** [g] is the grid value at a position of [col] whose cumulative mass is
    nearest to [target]. *)
Definition closest_at (target : R) (col : list R) (g : R) : Prop :=
  exists i, (i < List.length col)%nat
    /\ nth_error (r_list self) i = Some g
    /\ forall j, (j < List.length col)%nat ->
         Rabs (nth i (cumsum col) 0 - target) <= Rabs (nth j (cumsum col) 0 - target).

End Posteriors.

(** ** [RtInferenceEngine.highest_density_interval] on binary64 floats

    The positions the interval computation picks depend on comparisons of
    rounded differences, so here the computation is carried out on the
    floats themselves: the sums, the differences and the comparisons are
    those of IEEE 754 binary64. *)
Module Float64.

(** [values.cumsum(axis=0)] on one column: the running sum, rounded at
    every step. *)
Fixpoint cumsum_from (acc : float) (l : list float) : list float :=
  match l with
  | [] => []
  | v :: t => PrimFloat.add acc v :: cumsum_from (PrimFloat.add acc v) t
  end.

Definition cumsum (l : list float) : list float :=
  match l with
  | [] => []
  | v :: t => v :: cumsum_from v t
  end.

(** [np.argmin] along a column: the running minimum is replaced when
    [!(mp <= *ip)], and the scan stops at the first NaN. *)
Fixpoint argmin_from (best_i : nat) (best : float) (i : nat) (l : list float)
    : nat :=
  match l with
  | [] => best_i
  | v :: t =>
      if PrimFloat.is_nan best then best_i
      else if negb (PrimFloat.leb best v) then argmin_from i v (S i) t
      else argmin_from best_i best (S i) t
  end.

Definition np_argmin (l : list float) : option nat :=
  match l with
  | [] => None
  | v :: t => Some (argmin_from 0 v 1 t)
  end.

(** [np.abs(posterior_cdfs - target)] on one column. *)
Definition distances (column : list float) (target : float) : list float :=
  map (fun c => PrimFloat.abs (PrimFloat.sub c target)) (cumsum column).

Definition closest_grid_value (r_list column : list float) (target : float)
    : option float :=
  match np_argmin (distances column target) with
  | Some i => nth_error r_list i
  | None => None
  end.

Definition highest_density_interval (r_list : list float)
    (posteriors : list (list float)) (ci : float)
    : option (list float * list float) :=
  match traverse (fun column =>
                    closest_grid_value r_list column (PrimFloat.sub 1 ci))
                 posteriors,
        traverse (fun column => closest_grid_value r_list column ci)
                 posteriors with
  | Some ci_low, Some ci_high => Some (ci_low, ci_high)
  | _, _ => None
  end.

(** No value of the list is NaN. *)
Definition no_nan (l : list float) : bool :=
  forallb (fun d => negb (PrimFloat.is_nan d)) l.

(** [g] is the grid value at the first position of [column] whose rounded
    distance to [target] is smallest. *)
Definition closest_at (r_list : list float) (target : float)
    (column : list float) (g : float) : Prop :=
  exists i, (i < List.length column)%nat
    /\ nth_error r_list i = Some g
    /\ (forall j, (j < List.length column)%nat ->
          PrimFloat.leb (nth i (distances column target) PrimFloat.nan)
                        (nth j (distances column target) PrimFloat.nan) = true)
    /\ (forall j, (j < i)%nat ->
          PrimFloat.ltb (nth i (distances column target) PrimFloat.nan)
                        (nth j (distances column target) PrimFloat.nan) = true).

Definition of_nat (n : nat) : float :=
  PrimFloat.of_uint63 (Uint63.of_Z (Z.of_nat n)).

(** [np.linspace(start, stop, num)] for [num > 1]:
    [arange(0, num) * step + start] with [step = (stop - start) / (num - 1)],
    the last point set to [stop]. *)
Definition linspace (start stop : float) (num : nat) : list float :=
  let step := PrimFloat.div (PrimFloat.sub stop start) (of_nat (num - 1)) in
  map (fun i => PrimFloat.add (PrimFloat.mul (of_nat i) step) start)
      (seq 0 (num - 1))
  ++ [stop].

End Float64.

Definition nondecreasing (l : list R) : Prop :=
  forall i j, (i <= j < List.length l)%nat -> nth i l 0 <= nth j l 0.

(** The total the text describes: [log Z] summed over the days with [Z <> 0]. *)
Definition guarded_log_likelihood (zs : list R) : logval :=
  LogFinite (Rsum (map ln (filter (fun z => negb (Reqb z 0)) zs))).

(** The total with no day left out. *)
Definition unguarded_log_likelihood (zs : list R) : logval :=
  fold_left (fun acc z => logval_add acc (np_log z)) zs (LogFinite 0).

(** ** [RtInferenceEngine.infer_all] *)

(** *** The window handed to [align_time_series] *)

(** [column.iloc[start:]] with Python's treatment of negative and
    out-of-range offsets. *)
Definition iloc_from {A : Type} (start : Z) (column : list A) : list A :=
  let n := Z.of_nat (List.length column) in
  let first := if (start <? 0)%Z then Z.max 0 (n + start) else Z.min start n in
  skipn (Z.to_nat first) column.

(** [last_idx = max(-21, -len(df))] followed by [.iloc[-last_idx:]]. *)
Definition lag_window {A : Type} (len_df : nat) (column : list A) : list A :=
  let last_idx := Z.max (-21) (- Z.of_nat len_df) in
  iloc_from (- last_idx) column.

(** The last [n] entries of a column, or all of it when it is shorter. *)
Definition trailing_days {A : Type} (n : nat) (column : list A) : list A :=
  skipn (List.length column - n) column.

(** *** The merged table and the composite columns *)

(** A column holds one cell per date; NaN is [None]. *)
Definition column : Type := list (option R).

(** Columns in insertion order. *)
Definition DataFrame : Type := list (string * column).

Fixpoint df_get (df : DataFrame) (name : string) : option column :=
  match df with
  | [] => None
  | (n, c) :: rest => if String.eqb n name then Some c else df_get rest name
  end.

(** [df[name] = c]: replaces the column or appends it. *)
Fixpoint df_set (df : DataFrame) (name : string) (c : column) : DataFrame :=
  match df with
  | [] => [(name, c)]
  | (n, c') :: rest =>
      if String.eqb n name then (n, c) :: rest
      else (n, c') :: df_set rest name c
  end.

(** [np.nanmean] of one row: NaN cells are left out; all-NaN gives NaN. *)
Definition nanmean (cells : list (option R)) : option R :=
  match flat_map (fun o => match o with Some v => [v] | None => [] end) cells with
  | [] => None
  | v :: vs => Some (np_mean (v :: vs))
  end.

(** [np.nanmean(df[[a, b]], axis=1)]. *)
Definition nanmean_axis1 (a b : column) : column :=
  zip_with (fun u v => nanmean [u; v]) a b.

(** Lines 604-617: the composite columns.  The outer [None] is the
    [KeyError] of reading a column that is not there. *)
Definition add_composite (df_all : option DataFrame) : option (option DataFrame) :=
  match df_all with
  | None => Some None
  | Some df =>
      match df_get df "Rt_MAP__new_deaths", df_get df "Rt_MAP__new_cases" with
      | Some deaths, Some cases =>
          let df1 := df_set df "Rt_MAP_composite" (nanmean_axis1 cases deaths) in
          match df_get df1 "Rt_ci95__new_cases" with
          | Some band => Some (Some (df_set df1 "Rt_ci95_composite" band))
          | None => None
          end
      | None, Some cases =>
          let df1 := df_set df "Rt_MAP_composite" cases in
          match df_get df1 "Rt_ci95__new_cases" with
          | Some band => Some (Some (df_set df1 "Rt_ci95_composite" band))
          | None => None
          end
      | _, None => Some (Some df)
      end
  end.

(** The composite column of the table [add_composite] leaves, if any. *)
Definition composite_of (df_all : option DataFrame) : option column :=
  match add_composite df_all with
  | Some (Some df) => df_get df "Rt_MAP_composite"
  | _ => None
  end.

Definition composite_band_of (df_all : option DataFrame) : option column :=
  match add_composite df_all with
  | Some (Some df) => df_get df "Rt_ci95_composite"
  | _ => None
  end.

(** ** [RtInferenceEngine.align_time_series] *)

(** [series.shift(i)]: the values move [i] positions down (up when [i] is
    negative), NaN fills the freed positions, the length stays. *)
Definition series_shift (i : Z) (l : column) : column :=
  if (0 <=? i)%Z
  then firstn (List.length l) (repeat None (Z.to_nat i) ++ l)
  else skipn (Z.to_nat (- i)) l
       ++ repeat None (Nat.min (Z.to_nat (- i)) (List.length l)).

(** [np.diff]: NaN wherever one of the two neighbours is NaN. *)
Fixpoint np_diff (l : column) : column :=
  match l with
  | a :: ((b :: _) as t) =>
      match a, b with
      | Some u, Some v => Some (v - u)
      | _, _ => None
      end :: np_diff t
  | _ => []
  end.

(** The pairs selected by [valid = ~isnan(a) & ~isnan(b)]. *)
Definition valid_pairs (a b : column) : list (R * R) :=
  flat_map (fun p => match p with
                     | (Some u, Some v) => [(u, v)]
                     | _ => []
                     end)
           (combine a b).

(** [y[m]], zero outside the range of [y]. *)
Definition at_or_zero (y : list R) (m : Z) : R :=
  if (0 <=? m)%Z && (m <? Z.of_nat (List.length y))%Z
  then nth (Z.to_nat m) y 0 else 0.

(** [scipy.signal.correlate(x, y)], mode [full], on two arrays of one
    length [N]: [z[k] = sum_l x[l] * y[l - k + N - 1]] for
    [k = 0 .. 2N - 2]. *)
Definition signal_correlate (x y : list R) : list R :=
  map (fun k =>
         Rsum (map (fun l =>
                      nth l x 0
                      * at_or_zero y (Z.of_nat l - Z.of_nat k
                                      + Z.of_nat (List.length x) - 1))
                   (seq 0 (List.length x))))
      (seq 0 (List.length x + List.length y - 1)).

Fixpoint argmax_from (best_i : nat) (best : R) (i : nat) (l : list R) : nat :=
  match l with
  | [] => best_i
  | v :: t =>
      if Rgt_dec v best then argmax_from i v (S i) t
      else argmax_from best_i best (S i) t
  end.

(** [np.argmax]: the first position of the maximum; an empty array raises. *)
Definition np_argmax (l : list R) : option nat :=
  match l with
  | [] => None
  | v :: t => Some (argmax_from 0 v 1 t)
  end.

(** [range(-21, 5)]. *)
Definition shifts : list Z := map (fun k => (Z.of_nat k - 21)%Z) (seq 0 26).

(** The body of the loop for one shift [i]: the mean cross-correlation of
    the valid differences, or nothing when no position is valid. *)
Definition xcor_at (_series_a : column) (series_b : column) (i : Z) : option R :=
  let series_b_shifted := np_diff (series_shift i series_b) in
  match valid_pairs _series_a series_b_shifted with
  | [] => None
  | p :: ps =>
      Some (np_mean (signal_correlate (map fst (p :: ps)) (map snd (p :: ps))))
  end.

(** [valid_shifts] and [xcor], kept side by side. *)
Definition scored_shifts (series_a series_b : column) : list (Z * R) :=
  flat_map (fun i => match xcor_at (np_diff series_a) series_b i with
                     | Some c => [(i, c)]
                     | None => []
                     end)
           shifts.

(** The two series are columns of one table; arrays of different lengths
    make numpy raise, which is [None] here. *)
Definition align_time_series (series_a series_b : column) : option Z :=
  if Nat.eqb (List.length series_a) (List.length series_b) then
    match np_argmax (map snd (scored_shifts series_a series_b)) with
    | Some k => Some (nth k (map fst (scored_shifts series_a series_b)) 0%Z)
    | None => Some 0%Z
    end
  else None.

(** *** Shifting a lagging indicator and filling the gaps *)

(** The number of NaN cells in front of the next value, and that value. *)
Fixpoint next_valid (l : column) : option (nat * R) :=
  match l with
  | [] => None
  | Some v :: _ => Some (O, v)
  | None :: t =>
      match next_valid t with
      | Some (d, v) => Some (S d, v)
      | None => None
      end
  end.

(** [interpolate(limit_direction="forward", method="linear")], with the
    last value seen and the number of cells since then: a gap between two
    values is filled on the straight line between them, cells after the
    last value repeat it, cells before the first value stay NaN. *)
Fixpoint interpolate_from (last : option (R * nat)) (l : column) : column :=
  match l with
  | [] => []
  | Some v :: t => Some v :: interpolate_from (Some (v, O)) t
  | None :: t =>
      match last with
      | None => None :: interpolate_from None t
      | Some (a, p) =>
          match next_valid t with
          | Some (d, b) =>
              Some (a + (b - a) * INR (S p) / INR (S p + d + 1))
          | None => Some a
          end :: interpolate_from (Some (a, S p)) t
      end
  end.

Definition interpolate_forward (l : column) : column := interpolate_from None l.

(** Lines 591-602 on one column. *)
Definition shift_and_fill (shift_in_days : Z) (c : column) : column :=
  interpolate_forward (series_shift shift_in_days c).

(** ** [RtInferenceEngine.__init__]: admissions from current occupancy *)

(** [np.diff] on an array without NaN. *)
Fixpoint np_diff_values (l : list R) : list R :=
  match l with
  | a :: ((b :: _) as t) => (b - a) :: np_diff_values t
  | _ => []
  end.

(** Lines 175-186, taken when the data type is CURRENT_HOSPITALIZATIONS:
    the new series and the dates and times that go with it. *)
Definition reconstruct_new_hospitalizations
    (los_general los_icu hosp_rate_general hosp_rate_icu : R)
    (hospitalizations : list R) (hospital_dates hospital_times : list Z)
    : list R * list Z * list Z :=
  let icu_rate := hosp_rate_icu / hosp_rate_general in
  let flow_out_of_hosp :=
    map (fun h => h * ((1 - icu_rate) / los_general + icu_rate / los_icu))
        (removelast hospitalizations) in
  (zip_with Rplus (np_diff_values hospitalizations) flow_out_of_hosp,
   tl hospital_dates, tl hospital_times).

(** ** [RtInferenceEngine.apply_gaussian_smoothing] *)

(** Lines 258-268: the series handed to the filter and the smoother. *)
Definition smoothing_inputs (self : RtInferenceEngine)
    (timeseries_type : TimeseriesType) : option (list Z * list Z * list R) :=
  match get_timeseries self timeseries_type with
  | Some (dates, times, timeseries) =>
      if existsb (TimeseriesType_is timeseries_type)
                 [CURRENT_HOSPITALIZATIONS; NEW_HOSPITALIZATIONS]
      then Some (skipn 2 dates, firstn 2 times, skipn 2 timeseries)
      else Some (dates, times, timeseries)
  | None => None
  end.

(** Python's [max] on a series of counts that is not empty. *)
Definition py_max (l : list nat) : nat := fold_right Nat.max O l.

(** Lines 300-310: where the smoothed series is cut.  The values are the
    rounded means; [None] is the [IndexError] of [nonzeros[0]]. *)
Definition truncate_smoothed (smoothed_max_threshold : nat)
    (smoothed : list nat) : option (list nat) :=
  let nonzeros :=
    filter (fun idx => negb (Nat.eqb (nth idx smoothed O) O))
           (seq 0 (List.length smoothed)) in
  match smoothed with
  | [] => Some (skipn 0 smoothed)
  | _ :: _ =>
      if (py_max smoothed <? smoothed_max_threshold)%nat
      then Some (skipn (List.length smoothed) smoothed)
      else match nonzeros with
           | [] => None
           | idx_start :: _ => Some (skipn idx_start smoothed)
           end
  end.

(** ** [RtInferenceEngine.get_posteriors]: what is returned *)

(** Lines 375-377 and 455-457: the dates and times cut to the posterior
    columns, the columns and [start_idx]. *)
Definition get_posteriors_result (self : RtInferenceEngine)
    (dates times : list Z) (timeseries : list nat)
    : option (list Z * list Z * list (list R) * Z) :=
  match get_posteriors self timeseries with
  | None => None
  | Some (posteriors, _) =>
      let start_idx := (- Z.of_nat (List.length posteriors))%Z in
      Some (iloc_from start_idx dates, iloc_from start_idx times,
            posteriors, start_idx)
  end.

(** [posteriors.idxmax()]: per day, the grid value of the first maximum. *)
Definition idxmax (self : RtInferenceEngine) (posteriors : list (list R))
    : option (list R) :=
  traverse (fun col => match np_argmax col with
                       | Some i => nth_error (r_list self) i
                       | None => None
                       end)
           posteriors.

(** ** [RtInferenceEngine.create_df_list] *)

(** A table is the list of its rows; [df[0:i]] is its first [i] rows. *)
Definition create_df_list {A : Type} (df : list A) (min_days predict_days : nat)
    : list (list A) :=
  flat_map (fun i => if (i <? predict_days + min_days)%nat then []
                     else [firstn i df])
           (seq 0 (List.length df)).

(** ** The slices of the backtest (pyseir/backtest/backtest.py) *)

(** [l[:stop]]. *)
Definition slice_to {A : Type} (stop : Z) (l : list A) : list A :=
  let n := Z.of_nat (List.length l) in
  firstn (Z.to_nat (if (stop <? 0)%Z then Z.max 0 (n + stop) else Z.min stop n)) l.

(** [l[i]]; [None] is the [IndexError]. *)
Definition py_index {A : Type} (i : Z) (l : list A) : option A :=
  let n := Z.of_nat (List.length l) in
  if (i <? 0)%Z
  then (if (n + i <? 0)%Z then None else nth_error l (Z.to_nat (n + i)))
  else nth_error l (Z.to_nat i).

(** [run_model_fitter_for_backtest]: what the fitter is given,
    [observations[...][:-observation_days_blinded]]. *)
Definition blinded_observations {A : Type} (observation_days_blinded : nat)
    (observations : list A) : list A :=
  slice_to (- Z.of_nat observation_days_blinded) observations.

(** [run_backtest]: what the errors are computed on,
    [series[-d:][:projection_window_size]]. *)
Definition evaluation_window {A : Type} (d projection_window_size : nat)
    (series : list A) : list A :=
  slice_to (Z.of_nat projection_window_size) (iloc_from (- Z.of_nat d) series).

(** [g] is the grid value at the first position where [col] is largest. *)
Definition mode_at (self : RtInferenceEngine) (col : list R) (g : R) : Prop :=
  exists i, (i < List.length col)%nat
    /\ nth_error (r_list self) i = Some g
    /\ (forall j, (j < List.length col)%nat -> nth j col 0 <= nth i col 0)
    /\ (forall j, (j < i)%nat -> nth j col 0 < nth i col 0).

(** ** [build_combined_dataset_from_sources] (libs/datasets/combined_datasets.py) *)

Section CombinedDatasets.

(** The data source classes, the fields and the pandas objects come from
    modules that are not at hand; the function is modelled over them. *)
Context {Cls Field Source Dataset Filter Frame : Type}.
Variable cls_eqb : Cls -> Cls -> bool.
Variable local : Cls -> Source.
Variable build_from_data_source : Source -> Dataset.
Variable apply_filter : Filter -> Dataset -> Dataset.
Variable empty_frame : Field -> Frame.
Variable fill_fields_with_data_source : Frame -> Dataset -> Field -> Frame.

(** The set of classes, each class once. *)
Fixpoint class_set (l : list Cls) : list Cls :=
  match l with
  | [] => []
  | c :: t => if existsb (cls_eqb c) t then class_set t else c :: class_set t
  end.

Definition all_data_source_classes (config : list (Field * list Cls)) : list Cls :=
  class_set (List.concat (map snd config)).

Definition load_data_sources (classes : list Cls) : list (Cls * Source) :=
  map (fun c => (c, local c)) classes.

(** A dataset after [for data_filter in filters or []]. *)
Definition filtered (filters : list Filter) (dataset : Dataset) : Dataset :=
  fold_left (fun d f => apply_filter f d) filters dataset.

Definition intermediate_datasets (filters : list Filter)
    (config : list (Field * list Cls)) : list (Cls * Dataset) :=
  map (fun cs => (fst cs, filtered filters (build_from_data_source (snd cs))))
      (load_data_sources (all_data_source_classes config)).

(** [d[key]]; [None] is the [KeyError]. *)
Fixpoint dict_get (d : list (Cls * Dataset)) (key : Cls) : option Dataset :=
  match d with
  | [] => None
  | (k, v) :: rest => if cls_eqb k key then Some v else dict_get rest key
  end.

(** The inner loop over the data source classes of one field. *)
Definition build_field (datasets : list (Cls * Dataset)) (field : Field)
    (classes : list Cls) : option Frame :=
  fold_left (fun acc c =>
               match acc, dict_get datasets c with
               | Some field_df, Some dataset =>
                   Some (fill_fields_with_data_source field_df dataset field)
               | _, _ => None
               end)
            classes (Some (empty_frame field)).

(** The loop that fills [field_series]; a field without classes is skipped. *)
Fixpoint build_field_series (datasets : list (Cls * Dataset))
    (config : list (Field * list Cls)) : option (list (Field * Frame)) :=
  match config with
  | [] => Some []
  | (field, classes) :: rest =>
      match classes with
      | [] => build_field_series datasets rest
      | _ :: _ =>
          match build_field datasets field classes,
                build_field_series datasets rest with
          | Some field_df, Some series => Some ((field, field_df) :: series)
          | _, _ => None
          end
      end
  end.

(** Lines 154-189. *)
Definition field_series_from_sources (filters : list Filter)
    (config : list (Field * list Cls)) : option (list (Field * Frame)) :=
  build_field_series (intermediate_datasets filters config) config.

End CombinedDatasets.

(** *** Shifting the columns of a lagging indicator (lines 582-602) *)

(** [pat in s] on strings. *)
Definition str_in (pat s : string) : bool :=
  match String.index 0 pat s with
  | Some _ => true
  | None => false
  end.

(** The number of rows of a table. *)
Definition df_rows (df : DataFrame) : nat :=
  match df with
  | [] => O
  | (_, c) :: _ => List.length c
  end.

(** One pass of [for col in df_all.columns]. *)
Definition shift_column_step (value : string) (shift_in_days : Z)
    (df : DataFrame) (col : string) : DataFrame :=
  if str_in value col then
    match df_get df col with
    | Some c => df_set df col (shift_and_fill shift_in_days c)
    | None => df
    end
  else df.

(** The lag column is written first, every row holding the lag; then every
    column whose name contains the value of the type is shifted and filled. *)
Definition shift_indicator_columns (timeseries_type : TimeseriesType)
    (shift_in_days : Z) (df_all : DataFrame) : DataFrame :=
  let value := TimeseriesType_value timeseries_type in
  let df1 := df_set df_all (String.append "lag_days__" value)
                    (repeat (Some (IZR shift_in_days)) (df_rows df_all)) in
  fold_left (shift_column_step value shift_in_days) (map fst df1) df1.

(** A probability distribution over the grid: non-negative entries of sum 1. *)
Definition is_distribution (p : list R) : Prop :=
  Forall (fun e => 0 <= e) p /\ Rsum p = 1.

(** * Sample inputs *)

Definition sample_engine : RtInferenceEngine := {|
  r_list := [0; 1; 2];
  process_sigma := 5 / 100;
  serial_period := 5;
  confidence_intervals := [68 / 100; 95 / 100];
  min_cases := 5;
  min_deaths := 5;
  case_dates := [0; 1; 2]%Z;
  times := [0; 1; 2]%Z;
  observed_new_cases := [10; 12; 15];
  observed_new_deaths := [1; 2; 4];
  raw_new_case_dates := [0; 1; 2]%Z;
  times_raw_new_cases := [0; 1; 2]%Z;
  raw_new_cases := [10; 12; 15];
  hospital_dates := [2]%Z;
  hospital_times := [2]%Z;
  hospitalizations := [3];
  hospitalization_data_type := Some HOSP_CUMULATIVE_HOSPITALIZATIONS
|}.

Definition sample_table : DataFrame :=
  [("Rt_MAP__new_cases"%string, [Some 1; Some 2]);
   ("Rt_ci95__new_cases"%string, [Some 3; Some 3]);
   ("Rt_MAP__new_deaths"%string, [Some 3; None])].

(** The table of a region whose deaths were inferred and whose cases were
    not: the deaths columns alone. *)
Definition deaths_only_table : DataFrame :=
  [("Rt_MAP__new_deaths"%string, [Some 3; None]);
   ("Rt_ci95__new_deaths"%string, [Some 1; Some 1])].

(** Fourteen days at 6, a spike of 1000, then 6, 50, 6. *)
Definition spike_series : list R :=
  [6; 6; 6; 6; 6; 6; 6; 6; 6; 6; 6; 6; 6; 6; 1000; 6; 50; 6].

(** Fourteen days at 6 and a spike of 1000 on the last day. *)
Definition spike_last : list R :=
  [6; 6; 6; 6; 6; 6; 6; 6; 6; 6; 6; 6; 6; 6; 1000].

(** The spike series after one pass of the filter. *)
Definition spike_once : list R :=
  [6; 6; 6; 6; 6; 6; 6; 6; 6; 6; 6; 6; 6; 6; 6; 6; 50; 6].

(** A smoothed series with NaN points: two NaN days, then counts. *)
Definition nan_series : list (option nat) :=
  [None; None; Some 5%nat; Some 3%nat].

(** A series shorter than the look-back window. *)
Definition short_series : list R := [1; 2; 3].

(** A store with two series objects. *)
Definition sample_store : store := [spike_series; short_series].

(** Three values without NaN. *)
Definition sample_values : list R := [1; 2; 4].

(** The grid of the engine's default, [np.linspace(0, 10, 501)], in
    binary64. *)
Definition default_r_list : list float := Float64.linspace 0 10 501.

(** The levels of the engine's default, [confidence_intervals=(0.68, 0.95)]. *)
#[warnings="-inexact-float"]
Definition ci_68 : float := 0.68%float.

#[warnings="-inexact-float"]
Definition ci_95 : float := 0.95%float.

(** A distribution over that grid with nearly all its mass on the third
    grid value and a mass below the rounding unit on the second. *)
#[warnings="-inexact-float"]
Definition tiny_mass_column : list float :=
  [0; 1.4e-17; 1]%float ++ repeat 0%float 498.

(** * Properties *)

(** ** [get_timeseries] *)

Lemma deaths_guard_always (t : TimeseriesType) : deaths_guard t = true.
Proof. destruct t; reflexivity. Qed.

Lemma get_timeseries_branch_never_hospitalizations (t : TimeseriesType) :
  get_timeseries_branch t <> Some BranchHospitalizations.
Proof. destruct t; discriminate. Qed.

(** C3: any type other than NEW_CASES and RAW_NEW_CASES, the two
    hospitalization types included, gets the dates, times and counts of new
    deaths; the guard of that branch holds for every type, so the branch
    that returns the hospitalization series is never taken. *)
Theorem get_timeseries_returns_deaths (self : RtInferenceEngine)
    (t : TimeseriesType) :
  t <> NEW_CASES -> t <> RAW_NEW_CASES ->
  get_timeseries self t
    = Some (case_dates self, times self, observed_new_deaths self)
  /\ get_timeseries_branch t = Some BranchDeaths
  /\ (forall t', deaths_guard t' = true)
  /\ (forall t', get_timeseries_branch t' <> Some BranchHospitalizations).
Proof.
  intros Hc Hr. repeat split.
  - destruct t; try reflexivity; contradiction.
  - destruct t; try reflexivity; contradiction.
  - apply deaths_guard_always.
  - apply get_timeseries_branch_never_hospitalizations.
Qed.

Lemma get_timeseries_returns_deaths_witness :
  NEW_HOSPITALIZATIONS <> NEW_CASES /\ NEW_HOSPITALIZATIONS <> RAW_NEW_CASES /\
  get_timeseries sample_engine NEW_HOSPITALIZATIONS
    = Some ([0; 1; 2]%Z, [0; 1; 2]%Z, [1; 2; 4]).
Proof.
  split; [discriminate | split; [discriminate |]].
  apply (get_timeseries_returns_deaths sample_engine NEW_HOSPITALIZATIONS);
    discriminate.
Defined.

(** ** [get_available_timeseries] *)

Lemma Rgtb_true (a b : R) : a > b -> Rgtb a b = true.
Proof. intros H. unfold Rgtb. destruct (Rgt_dec a b); [reflexivity | contradiction]. Qed.

Lemma Rgtb_false (a b : R) : ~ a > b -> Rgtb a b = false.
Proof. intros H. unfold Rgtb. destruct (Rgt_dec a b); [contradiction | reflexivity]. Qed.

Lemma Rgtb_spec (a b : R) : Rgtb a b = true <-> a > b.
Proof.
  unfold Rgtb. destruct (Rgt_dec a b); split; intros; try assumption;
    try reflexivity; try discriminate; contradiction.
Qed.

Lemma truthy_len_np_gt (h : list R) (c : R) :
  truthy_len (np_gt h c) = negb (Nat.eqb (List.length h) 0).
Proof. unfold truthy_len, np_gt. rewrite length_map. reflexivity. Qed.

(** What [len(hosps > 3)] amounts to: with a hospitalization data type set,
    the entry is added as soon as the series [get_timeseries] hands back,
    which is the deaths series, is not empty. *)
Lemma get_available_timeseries_hospitalizations (self : RtInferenceEngine)
    (avail : list TimeseriesType) :
  get_available_timeseries self = Some avail ->
  (In NEW_HOSPITALIZATIONS avail <->
   hospitalization_data_type self <> None /\ observed_new_deaths self <> []).
Proof.
  unfold get_available_timeseries. cbn -[truthy_len np_gt Rgtb Rsum].
  intros H. injection H as <-.
  destruct (hospitalization_data_type self) as [[|]|];
    cbn -[truthy_len np_gt Rgtb Rsum]; rewrite ?truthy_len_np_gt;
    destruct (Rgtb (Rsum (observed_new_cases self)) (min_cases self));
    destruct (Rgtb (Rsum (observed_new_deaths self)) (min_deaths self));
    destruct (observed_new_deaths self); cbn; split; intros G;
    repeat match goal with
           | H : _ \/ _ |- _ => destruct H
           | H : _ /\ _ |- _ => destruct H
           | H : False |- _ => destruct H
           end;
    try discriminate; try congruence; try (split; congruence); auto 10.
Qed.

(** C6 at an engine whose cumulative hospitalization series has a single
    point: NEW_HOSPITALIZATIONS is listed all the same. *)
Theorem get_available_timeseries_one_point_hospitalizations :
  List.length (hospitalizations sample_engine) = 1%nat /\
  get_available_timeseries sample_engine
    = Some [NEW_CASES; RAW_NEW_CASES; NEW_DEATHS; RAW_NEW_DEATHS;
            NEW_HOSPITALIZATIONS].
Proof.
  split; [reflexivity |].
  unfold get_available_timeseries. simpl.
  rewrite !Rgtb_true by lra. reflexivity.
Qed.

(** ** The window handed to [align_time_series] *)

Lemma lag_window_skipn {A : Type} (len_df : nat) (col : list A) :
  lag_window len_df col = skipn (Nat.min 21 len_df) col.
Proof.
  unfold lag_window, iloc_from.
  assert (E : (- Z.max (-21) (- Z.of_nat len_df))%Z = Z.of_nat (Nat.min 21 len_df)) by lia.
  rewrite E.
  destruct (Z.ltb_spec (Z.of_nat (Nat.min 21 len_df)) 0); [lia |].
  destruct (Nat.le_ge_cases (Nat.min 21 len_df) (List.length col)) as [Hle | Hge].
  - f_equal. lia.
  - rewrite (skipn_all2 col Hge).
    apply skipn_all2. lia.
Qed.

(** C5 on a table of 30 dates: the window starts at row 21 and holds the
    last 9 rows, where the last 21 days are rows 9 to 29. *)
Theorem lag_window_thirty_days :
  lag_window 30 (seq 0 30) = seq 21 9 /\
  trailing_days 21 (seq 0 30) = seq 9 21 /\
  lag_window 21 (seq 0 21) = [].
Proof. repeat split; reflexivity. Qed.

(** ** The composite columns *)

Lemma df_get_set_same (df : DataFrame) (name : string) (c : column) :
  df_get (df_set df name c) name = Some c.
Proof.
  induction df as [| [n c'] rest IH]; simpl.
  - rewrite String.eqb_refl. reflexivity.
  - destruct (String.eqb n name) eqn:E; simpl; rewrite E; [reflexivity | exact IH].
Qed.

Lemma df_get_set_other (df : DataFrame) (name name' : string) (c : column) :
  name <> name' ->
  df_get (df_set df name c) name' = df_get df name'.
Proof.
  intros Hne. induction df as [| [n c'] rest IH]; simpl.
  - destruct (String.eqb_spec name name'); [contradiction | reflexivity].
  - destruct (String.eqb_spec n name) as [-> | Hn]; simpl.
    + destruct (String.eqb_spec name name'); [contradiction | reflexivity].
    + destruct (String.eqb_spec n name'); [reflexivity | exact IH].
Qed.

Lemma nanmean_axis1_row (a b : column) (d : nat) (u v : option R) :
  nth_error a d = Some u -> nth_error b d = Some v ->
  nth_error (nanmean_axis1 a b) d = Some (nanmean [u; v]).
Proof.
  unfold nanmean_axis1. revert b d.
  induction a as [| x a IH]; intros [| y b] [| d] Ha Hb; simpl in *;
    try discriminate.
  - injection Ha as <-. injection Hb as <-. reflexivity.
  - apply IH; assumption.
Qed.

(** The mean of the cells that are there. *)
Lemma nanmean_pair (u v : option R) :
  nanmean [u; v] =
  match u, v with
  | Some a, Some b => Some ((a + b) / 2)
  | Some a, None => Some a
  | None, Some b => Some b
  | None, None => None
  end.
Proof.
  destruct u, v; unfold nanmean, np_mean, Rsum; simpl; try reflexivity;
    f_equal; field.
Qed.

(** C4, the part that fails: a table with the deaths MAP column alone gets
    no composite column at all. *)
Lemma composite_deaths_only_absent :
  ~ (forall (df : DataFrame) (deaths : column),
       df_get df "Rt_MAP__new_deaths" = Some deaths ->
       df_get df "Rt_MAP__new_cases" = None ->
       composite_of (Some df) = Some deaths).
Proof.
  intros H.
  specialize (H [("Rt_MAP__new_deaths"%string, [Some 1])] [Some 1] eq_refl eq_refl).
  discriminate H.
Qed.

(** C4 as the code has it: with both MAP columns the composite is, date by
    date, the mean of the cells that are not NaN; with the cases column
    alone it is the cases column; in both cases the band is the cases 95%
    column, which [infer_all] writes together with the cases MAP column;
    without the cases column, whatever else the table holds, the table is
    left as it is and no composite column is written. *)
Theorem add_composite_columns (df : DataFrame) :
  (forall cases deaths band,
      df_get df "Rt_MAP__new_cases" = Some cases ->
      df_get df "Rt_MAP__new_deaths" = Some deaths ->
      df_get df "Rt_ci95__new_cases" = Some band ->
      composite_of (Some df) = Some (nanmean_axis1 cases deaths)
      /\ composite_band_of (Some df) = Some band
      /\ forall d u v,
           nth_error cases d = Some u -> nth_error deaths d = Some v ->
           nth_error (nanmean_axis1 cases deaths) d =
           Some match u, v with
                | Some a, Some b => Some ((a + b) / 2)
                | Some a, None => Some a
                | None, Some b => Some b
                | None, None => None
                end)
  /\ (forall cases band,
      df_get df "Rt_MAP__new_cases" = Some cases ->
      df_get df "Rt_MAP__new_deaths" = None ->
      df_get df "Rt_ci95__new_cases" = Some band ->
      composite_of (Some df) = Some cases
      /\ composite_band_of (Some df) = Some band)
  /\ (df_get df "Rt_MAP__new_cases" = None ->
      add_composite (Some df) = Some (Some df)
      /\ composite_of (Some df) = df_get df "Rt_MAP_composite"
      /\ composite_band_of (Some df) = df_get df "Rt_ci95_composite").
Proof.
  split; [| split].
  - intros cases deaths band Hc Hd Hband. split; [| split].
    + unfold composite_of, add_composite. rewrite Hc, Hd.
      rewrite df_get_set_other by discriminate. rewrite Hband.
      rewrite df_get_set_other by discriminate. apply df_get_set_same.
    + unfold composite_band_of, add_composite. rewrite Hc, Hd.
      rewrite df_get_set_other by discriminate. rewrite Hband.
      apply df_get_set_same.
    + intros d u v Hu Hv. rewrite <- nanmean_pair.
      apply nanmean_axis1_row; assumption.
  - intros cases band Hc Hd Hband. split.
    + unfold composite_of, add_composite. rewrite Hc, Hd.
      rewrite df_get_set_other by discriminate. rewrite Hband.
      rewrite df_get_set_other by discriminate. apply df_get_set_same.
    + unfold composite_band_of, add_composite. rewrite Hc, Hd.
      rewrite df_get_set_other by discriminate. rewrite Hband.
      apply df_get_set_same.
  - intros Hnone.
    assert (E : add_composite (Some df) = Some (Some df)).
    { unfold add_composite. rewrite Hnone.
      destruct (df_get df "Rt_MAP__new_deaths"); reflexivity. }
    unfold composite_of, composite_band_of. rewrite E.
    split; [reflexivity | split; reflexivity].
Qed.

Lemma add_composite_columns_witness :
  (df_get sample_table "Rt_MAP__new_cases" = Some [Some 1; Some 2]
   /\ df_get sample_table "Rt_MAP__new_deaths" = Some [Some 3; None]
   /\ df_get sample_table "Rt_ci95__new_cases" = Some [Some 3; Some 3]
   /\ composite_of (Some sample_table)
      = Some (nanmean_axis1 [Some 1; Some 2] [Some 3; None])
   /\ composite_band_of (Some sample_table) = Some [Some 3; Some 3])
  /\ (df_get deaths_only_table "Rt_MAP__new_cases" = None
      /\ df_get deaths_only_table "Rt_MAP__new_deaths" = Some [Some 3; None]
      /\ add_composite (Some deaths_only_table) = Some (Some deaths_only_table)
      /\ composite_of (Some deaths_only_table) = None).
Proof.
  split.
  - split; [reflexivity | split; [reflexivity | split; [reflexivity |]]].
    destruct (proj1 (add_composite_columns sample_table)
                [Some 1; Some 2] [Some 3; None] [Some 3; Some 3]
                eq_refl eq_refl eq_refl) as (Hc & Hb & _).
    split; [exact Hc | exact Hb].
  - split; [reflexivity | split; [reflexivity |]].
    destruct (proj2 (proj2 (add_composite_columns deaths_only_table)) eq_refl)
      as (Ht & Hc & _).
    split; [exact Ht | exact Hc].
Defined.

(** ** [highest_density_interval] *)

Section Intervals.

Variable self : RtInferenceEngine.

Lemma argmin_from_spec (l pre : list R) (bi : nat) (b : R) :
  (bi < List.length pre)%nat ->
  nth bi pre 0 = b ->
  (forall j, (j < List.length pre)%nat -> b <= nth j pre 0) ->
  (forall j, (j < bi)%nat -> b < nth j pre 0) ->
  let r := argmin_from bi b (List.length pre) l in
  (r < List.length (pre ++ l))%nat
  /\ (forall j, (j < List.length (pre ++ l))%nat ->
        nth r (pre ++ l) 0 <= nth j (pre ++ l) 0)
  /\ (forall j, (j < r)%nat -> nth r (pre ++ l) 0 < nth j (pre ++ l) 0).
Proof.
  revert pre bi b. induction l as [| v t IH]; intros pre bi b Hbi Hb Hmin Hfirst; simpl.
  - rewrite app_nil_r. repeat split.
    + exact Hbi.
    + intros j Hj. rewrite Hb. apply Hmin, Hj.
    + intros j Hj. rewrite Hb. apply Hfirst, Hj.
  - assert (Hlen : List.length (pre ++ [v]) = S (List.length pre))
      by (rewrite length_app; simpl; lia).
    assert (Hpre : forall j, (j < List.length pre)%nat ->
                             nth j (pre ++ [v]) 0 = nth j pre 0)
      by (intros j Hj; apply app_nth1, Hj).
    assert (Hv : nth (List.length pre) (pre ++ [v]) 0 = v)
      by (rewrite app_nth2 by lia; rewrite Nat.sub_diag; reflexivity).
    replace (pre ++ v :: t) with ((pre ++ [v]) ++ t)
      by (rewrite <- app_assoc; reflexivity).
    rewrite <- Hlen.
    destruct (Rlt_dec v b) as [Hlt | Hge].
    + apply IH.
      * lia.
      * exact Hv.
      * intros j Hj. rewrite Hlen in Hj.
        destruct (Nat.eq_dec j (List.length pre)) as [-> | Hne].
        -- rewrite Hv. lra.
        -- rewrite Hpre by lia. specialize (Hmin j ltac:(lia)). lra.
      * intros j Hj. rewrite Hpre by lia.
        specialize (Hmin j Hj). lra.
    + apply IH.
      * lia.
      * rewrite Hpre by lia. exact Hb.
      * intros j Hj. rewrite Hlen in Hj.
        destruct (Nat.eq_dec j (List.length pre)) as [-> | Hne].
        -- rewrite Hv. lra.
        -- rewrite Hpre by lia. apply Hmin. lia.
      * intros j Hj. rewrite Hpre by lia. apply Hfirst, Hj.
Qed.

Lemma np_argmin_spec (l : list R) :
  l <> [] ->
  exists r, np_argmin l = Some r
    /\ (r < List.length l)%nat
    /\ (forall j, (j < List.length l)%nat -> nth r l 0 <= nth j l 0)
    /\ (forall j, (j < r)%nat -> nth r l 0 < nth j l 0).
Proof.
  destruct l as [| v t]; [congruence | intros _].
  exists (argmin_from 0 v 1 t). split; [reflexivity |].
  apply (argmin_from_spec t [v] 0 v).
  - simpl. lia.
  - reflexivity.
  - intros [| j] Hj; simpl in *; [lra | lia].
  - intros j Hj. lia.
Qed.

Lemma StronglySorted_nondecreasing (l : list R) :
  StronglySorted Rle l -> nondecreasing l.
Proof.
  induction 1 as [| a l Hs IH Hall]; intros i j [Hij Hj]; simpl in *.
  - lia.
  - destruct i as [| i], j as [| j]; try lia.
    + lra.
    + rewrite Forall_forall in Hall. apply Hall, nth_In. lia.
    + apply IH. lia.
Qed.

Lemma length_cumsum_from (acc : R) (l : list R) :
  List.length (cumsum_from acc l) = List.length l.
Proof. revert acc. induction l; intros; simpl; [| rewrite IHl]; reflexivity. Qed.

Lemma cumsum_from_lower (l : list R) (acc : R) (j : nat) :
  Forall (fun p => 0 <= p) l -> (j < List.length l)%nat ->
  acc <= nth j (cumsum_from acc l) 0.
Proof.
  revert acc j. induction l as [| v t IH]; intros acc j Hnn Hj; simpl in *; [lia |].
  inversion Hnn as [| ? ? Hv Ht]; subst.
  destruct j as [| j]; [lra |].
  specialize (IH (acc + v) j Ht ltac:(lia)). lra.
Qed.

Lemma cumsum_from_nondecreasing (l : list R) (acc : R) :
  Forall (fun p => 0 <= p) l -> nondecreasing (cumsum_from acc l).
Proof.
  revert acc. induction l as [| v t IH]; intros acc Hnn i j [Hij Hj]; simpl in *; [lia |].
  inversion Hnn as [| ? ? Hv Ht]; subst.
  destruct i as [| i], j as [| j]; try lia.
  - lra.
  - apply cumsum_from_lower; [exact Ht | ].
    rewrite length_cumsum_from in Hj. lia.
  - apply IH; [exact Ht | lia].
Qed.

(** The position closest to a target moves right when the target grows. *)
Lemma argmin_distance_monotone (c : list R) (t1 t2 : R) (r1 r2 : nat) :
  nondecreasing c -> t1 < t2 ->
  np_argmin (map (fun v => Rabs (v - t1)) c) = Some r1 ->
  np_argmin (map (fun v => Rabs (v - t2)) c) = Some r2 ->
  (r1 <= r2)%nat.
Proof.
  intros Hc Ht H1 H2.
  assert (Hne : c <> []) by (destruct c; [discriminate | congruence]).
  destruct (np_argmin_spec (map (fun v => Rabs (v - t1)) c)) as (q1 & E1 & L1 & _ & F1).
  { destruct c; [congruence | discriminate]. }
  destruct (np_argmin_spec (map (fun v => Rabs (v - t2)) c)) as (q2 & E2 & L2 & M2 & _).
  { destruct c; [congruence | discriminate]. }
  rewrite H1 in E1. injection E1 as <-. rewrite H2 in E2. injection E2 as <-.
  rewrite length_map in *.
  destruct (Nat.le_gt_cases r1 r2) as [Hle | Hgt]; [exact Hle | exfalso].
  specialize (F1 r2 Hgt). specialize (M2 r1 L1).
  assert (D : forall t k, (k < List.length c)%nat ->
              nth k (map (fun v => Rabs (v - t)) c) 0 = Rabs (nth k c 0 - t)).
  { intros t k Hk.
    rewrite (nth_indep _ 0 (Rabs (0 - t))) by (rewrite length_map; exact Hk).
    apply (map_nth (fun v => Rabs (v - t))). }
  rewrite !D in F1, M2 by lia.
  assert (Hab : nth r2 c 0 <= nth r1 c 0) by (apply Hc; lia).
  revert F1 M2. unfold Rabs.
  repeat destruct (Rcase_abs _); lra.
Qed.

Lemma closest_grid_value_some (col : list R) (target : R) :
  col <> [] -> List.length col = List.length (r_list self) ->
  exists i g,
    np_argmin (map (fun c => Rabs (c - target)) (cumsum col)) = Some i
    /\ closest_grid_value self col target = Some g
    /\ g = nth i (r_list self) 0
    /\ (i < List.length col)%nat.
Proof.
  intros Hne Hlen.
  destruct (np_argmin_spec (map (fun c => Rabs (c - target)) (cumsum col)))
    as (i & Ei & Li & _).
  { destruct col; [congruence | discriminate]. }
  unfold cumsum in Li. rewrite length_map, length_cumsum_from in Li.
  exists i, (nth i (r_list self) 0). unfold closest_grid_value. rewrite Ei.
  repeat split; try assumption.
  apply nth_error_nth'. lia.
Qed.

Lemma traverse_Forall2 {A B : Type} (f : A -> option B) (l : list A) (r : list B) :
  traverse f l = Some r -> Forall2 (fun a b => f a = Some b) l r.
Proof.
  revert r. induction l as [| a t IH]; intros r H; simpl in H.
  - injection H as <-. constructor.
  - destruct (f a) eqn:Ea; [| discriminate].
    destruct (traverse f t) eqn:Et; [| discriminate].
    injection H as <-. constructor; [exact Ea | apply IH; reflexivity].
Qed.

Lemma traverse_some {A B : Type} (f : A -> option B) (l : list A) :
  Forall (fun a => exists b, f a = Some b) l -> exists r, traverse f l = Some r.
Proof.
  induction 1 as [| a t [b Hb] _ [r Hr]]; simpl.
  - eexists; reflexivity.
  - rewrite Hb, Hr. eexists; reflexivity.
Qed.

Lemma Forall2_pointwise {A : Type} (f g : A -> option R) (P : A -> Prop)
    (rel : R -> R -> Prop) (l : list A) (u v : list R) :
  (forall a x y, P a -> f a = Some x -> g a = Some y -> rel x y) ->
  Forall P l ->
  Forall2 (fun a b => f a = Some b) l u ->
  Forall2 (fun a b => g a = Some b) l v ->
  Forall2 rel u v.
Proof.
  intros Hrel HP Hu. revert v. induction Hu as [| a x t u' Hx Hu' IH]; intros v Hv.
  - inversion Hv. constructor.
  - inversion Hv as [| ? y ? v' Hy Hv']; subst.
    inversion HP as [| ? ? Pa Pt]; subst.
    constructor; [eapply Hrel; eassumption | apply IH; assumption].
Qed.

Lemma closest_grid_value_monotone (col : list R) (t1 t2 g1 g2 : R) :
  StronglySorted Rle (r_list self) -> well_formed_column self col -> t1 < t2 ->
  closest_grid_value self col t1 = Some g1 ->
  closest_grid_value self col t2 = Some g2 ->
  g1 <= g2.
Proof.
  intros Hs (Hne & Hlen & Hnn) Ht H1 H2.
  destruct (closest_grid_value_some col t1 Hne Hlen) as (i1 & x1 & A1 & B1 & -> & L1).
  destruct (closest_grid_value_some col t2 Hne Hlen) as (i2 & x2 & A2 & B2 & -> & L2).
  rewrite H1 in B1. injection B1 as ->. rewrite H2 in B2. injection B2 as ->.
  apply StronglySorted_nondecreasing; [exact Hs |].
  split; [| lia].
  eapply argmin_distance_monotone; [| exact Ht | exact A1 | exact A2].
  apply cumsum_from_nondecreasing, Hnn.
Qed.

Lemma closest_grid_value_closest (col : list R) (target g : R) :
  well_formed_column self col ->
  closest_grid_value self col target = Some g ->
  closest_at self target col g.
Proof.
  intros (Hne & Hlen & _) Hg.
  destruct (np_argmin_spec (map (fun c => Rabs (c - target)) (cumsum col)))
    as (i & Ei & Li & Mi & _).
  { destruct col; [congruence | discriminate]. }
  assert (Hl : List.length (cumsum col) = List.length col)
    by apply length_cumsum_from.
  rewrite length_map, Hl in Li, Mi.
  unfold closest_grid_value in Hg. rewrite Ei in Hg.
  exists i. repeat split; try assumption.
  intros j Hj. specialize (Mi j Hj).
  assert (D : forall k, (k < List.length col)%nat ->
              nth k (map (fun v => Rabs (v - target)) (cumsum col)) 0
              = Rabs (nth k (cumsum col) 0 - target)).
  { intros k Hk.
    rewrite (nth_indep _ 0 (Rabs (0 - target))) by (rewrite length_map; lia).
    apply (map_nth (fun v => Rabs (v - target))). }
  rewrite !D in Mi by assumption. exact Mi.
Qed.

Lemma highest_density_interval_some (posteriors : list (list R)) (ci : R) :
  Forall (well_formed_column self) posteriors ->
  exists lo hi,
    highest_density_interval self posteriors ci = Some (lo, hi)
    /\ Forall2 (fun col g => closest_grid_value self col (1 - ci) = Some g) posteriors lo
    /\ Forall2 (fun col g => closest_grid_value self col ci = Some g) posteriors hi.
Proof.
  intros Hwf. unfold highest_density_interval.
  assert (S : forall t, exists r,
             traverse (fun column => closest_grid_value self column t) posteriors = Some r).
  { intros t. apply traverse_some.
    eapply Forall_impl; [| exact Hwf].
    intros col (Hne & Hlen & _).
    destruct (closest_grid_value_some col t Hne Hlen) as (i & g & _ & Hg & _).
    exists g. exact Hg. }
  destruct (S (1 - ci)) as [lo Hlo], (S ci) as [hi Hhi].
  exists lo, hi. rewrite Hlo, Hhi.
  split; [reflexivity |]. split; apply traverse_Forall2; assumption.
Qed.

Lemma Forall2_closest (posteriors : list (list R)) (t : R) (gs : list R) :
  Forall (well_formed_column self) posteriors ->
  Forall2 (fun col g => closest_grid_value self col t = Some g) posteriors gs ->
  Forall2 (closest_at self t) posteriors gs.
Proof.
  intros Hwf H. induction H as [| col g l gs' Hg H IH]; constructor.
  - inversion Hwf; subst. apply closest_grid_value_closest; assumption.
  - apply IH. inversion Hwf; assumption.
Qed.

End Intervals.

(** In exact arithmetic the intervals are nested: for posterior columns
    with non-negative entries over an increasing grid and levels
    [ci1 < ci2], the interval of [ci2] contains the interval of [ci1] on
    every day, each bound being the grid value at a position whose
    cumulative mass is nearest to [1 - ci], respectively [ci].  The
    argument compares exact distances; the rounded distances of the code
    need not compare the same way (see [Float64] below). *)
Lemma highest_density_interval_nested_exact (self : RtInferenceEngine)
    (posteriors : list (list R)) (ci1 ci2 : R) :
  StronglySorted Rle (r_list self) ->
  Forall (well_formed_column self) posteriors ->
  ci1 < ci2 ->
  exists lo1 hi1 lo2 hi2,
    highest_density_interval self posteriors ci1 = Some (lo1, hi1)
    /\ highest_density_interval self posteriors ci2 = Some (lo2, hi2)
    /\ Forall2 Rle lo2 lo1
    /\ Forall2 Rle hi1 hi2
    /\ Forall2 (closest_at self (1 - ci1)) posteriors lo1
    /\ Forall2 (closest_at self ci1) posteriors hi1
    /\ Forall2 (closest_at self (1 - ci2)) posteriors lo2
    /\ Forall2 (closest_at self ci2) posteriors hi2.
Proof.
  intros Hs Hwf Hci.
  destruct (highest_density_interval_some self posteriors ci1 Hwf)
    as (lo1 & hi1 & E1 & L1 & H1).
  destruct (highest_density_interval_some self posteriors ci2 Hwf)
    as (lo2 & hi2 & E2 & L2 & H2).
  exists lo1, hi1, lo2, hi2.
  split; [exact E1 |]. split; [exact E2 |].
  split; [| split].
  - eapply (Forall2_pointwise _ _ (well_formed_column self) Rle);
      [| exact Hwf | exact L2 | exact L1].
    intros col x y Hc Hx Hy.
    eapply (closest_grid_value_monotone self col (1 - ci2) (1 - ci1));
      try eassumption. lra.
  - eapply (Forall2_pointwise _ _ (well_formed_column self) Rle);
      [| exact Hwf | exact H1 | exact H2].
    intros col x y Hc Hx Hy.
    eapply (closest_grid_value_monotone self col ci1 ci2); eassumption.
  - repeat split; apply Forall2_closest; assumption.
Qed.

(** ** [highest_density_interval] on binary64 floats *)

Lemma SFcompare_lt_le_trans (x y z : spec_float) :
  SFcompare x y = Some Lt ->
  SFcompare y z = Some Lt \/ SFcompare y z = Some Eq ->
  SFcompare x z = Some Lt.
Proof.
  destruct x as [sx | sx | | sx mx ex], y as [sy | sy | | sy my ey],
           z as [sz | sz | | sz mz ez]; cbn [SFcompare];
    intros H1 [H2 | H2]; try discriminate;
    try (destruct sx); try (destruct sy); try (destruct sz);
    try discriminate; try reflexivity;
    injection H1 as H1; injection H2 as H2; f_equal;
    change (PosDef.Pos.compare_cont Eq ?a ?b) with (Pos.compare a b) in *;
    destruct (Z.compare_spec ex ey), (Z.compare_spec ey ez),
             (Z.compare_spec ex ez); subst; try lia; try discriminate;
    try reflexivity;
    destruct (Pos.compare_spec mx my), (Pos.compare_spec my mz),
             (Pos.compare_spec mx mz); subst; simpl in *;
    try lia; try discriminate; try reflexivity.
Qed.

Lemma SFcompare_gt_swap (x y : spec_float) :
  SFcompare x y = Some Gt -> SFcompare y x = Some Lt.
Proof.
  destruct x as [sx | sx | | sx mx ex], y as [sy | sy | | sy my ey];
    cbn [SFcompare]; intros H; try discriminate;
    try (destruct sx); try (destruct sy);
    try discriminate; try reflexivity;
    injection H as H; f_equal;
    change (PosDef.Pos.compare_cont Eq ?a ?b) with (Pos.compare a b) in *;
    destruct (Z.compare_spec ex ey), (Z.compare_spec ey ex);
    subst; try lia; try discriminate; try reflexivity;
    destruct (Pos.compare_spec mx my), (Pos.compare_spec my mx);
    subst; simpl in *; try lia; try discriminate; try reflexivity.
Qed.

Lemma SFcompare_none (x y : spec_float) :
  SFcompare x y = None -> x = S754_nan \/ y = S754_nan.
Proof.
  destruct x, y; cbn [SFcompare]; intros H; try discriminate;
    auto.
Qed.

Lemma f64_not_nan (v : float) :
  PrimFloat.is_nan v = false -> Prim2SF v <> S754_nan.
Proof.
  unfold PrimFloat.is_nan. rewrite FloatAxioms.eqb_spec. intros H E.
  rewrite E in H. discriminate H.
Qed.

Lemma f64_le_refl (a : float) :
  PrimFloat.is_nan a = false -> PrimFloat.leb a a = true.
Proof.
  unfold PrimFloat.is_nan.
  rewrite FloatAxioms.eqb_spec, FloatAxioms.leb_spec. unfold SFeqb, SFleb.
  destruct (SFcompare (Prim2SF a) (Prim2SF a)) as [[| |] |];
    intros H; try discriminate H; reflexivity.
Qed.

Lemma f64_total (b v : float) :
  PrimFloat.is_nan b = false -> PrimFloat.is_nan v = false ->
  PrimFloat.leb b v = false -> PrimFloat.ltb v b = true.
Proof.
  intros Hb Hv. rewrite FloatAxioms.leb_spec, FloatAxioms.ltb_spec.
  unfold SFleb, SFltb.
  destruct (SFcompare (Prim2SF b) (Prim2SF v)) as [[| |] |] eqn:E;
    intros H; try discriminate H.
  - rewrite (SFcompare_gt_swap _ _ E). reflexivity.
  - destruct (SFcompare_none _ _ E) as [N | N];
      [exact (False_ind _ (f64_not_nan b Hb N))
      | exact (False_ind _ (f64_not_nan v Hv N))].
Qed.

Lemma f64_lt_le_trans (a b c : float) :
  PrimFloat.ltb a b = true -> PrimFloat.leb b c = true ->
  PrimFloat.ltb a c = true.
Proof.
  rewrite !FloatAxioms.ltb_spec, FloatAxioms.leb_spec. unfold SFltb, SFleb.
  destruct (SFcompare (Prim2SF a) (Prim2SF b)) as [[| |] |] eqn:E1;
    intros H1; try discriminate H1.
  destruct (SFcompare (Prim2SF b) (Prim2SF c)) as [[| |] |] eqn:E2;
    intros H2; try discriminate H2.
  - rewrite (SFcompare_lt_le_trans _ _ _ E1 (or_intror E2)). reflexivity.
  - rewrite (SFcompare_lt_le_trans _ _ _ E1 (or_introl E2)). reflexivity.
Qed.

Lemma f64_lt_le (a b : float) :
  PrimFloat.ltb a b = true -> PrimFloat.leb a b = true.
Proof.
  rewrite FloatAxioms.ltb_spec, FloatAxioms.leb_spec. unfold SFltb, SFleb.
  destruct (SFcompare (Prim2SF a) (Prim2SF b)) as [[| |] |];
    intros H; try discriminate H; reflexivity.
Qed.

Lemma f64_argmin_from_spec (l pre : list float) (bi : nat) (b : float) :
  Forall (fun d => PrimFloat.is_nan d = false) (pre ++ l) ->
  (bi < List.length pre)%nat ->
  nth bi pre PrimFloat.nan = b ->
  (forall j, (j < List.length pre)%nat ->
     PrimFloat.leb b (nth j pre PrimFloat.nan) = true) ->
  (forall j, (j < bi)%nat ->
     PrimFloat.ltb b (nth j pre PrimFloat.nan) = true) ->
  let r := Float64.argmin_from bi b (List.length pre) l in
  (r < List.length (pre ++ l))%nat
  /\ (forall j, (j < List.length (pre ++ l))%nat ->
        PrimFloat.leb (nth r (pre ++ l) PrimFloat.nan)
                      (nth j (pre ++ l) PrimFloat.nan) = true)
  /\ (forall j, (j < r)%nat ->
        PrimFloat.ltb (nth r (pre ++ l) PrimFloat.nan)
                      (nth j (pre ++ l) PrimFloat.nan) = true).
Proof.
  revert pre bi b.
  induction l as [| v t IH]; intros pre bi b Hnn Hbi Hb Hmin Hfirst;
    cbn [Float64.argmin_from]; cbv zeta.
  - rewrite app_nil_r. repeat split.
    + exact Hbi.
    + intros j Hj. rewrite Hb. apply Hmin, Hj.
    + intros j Hj. rewrite Hb. apply Hfirst, Hj.
  - assert (Hlen : List.length (pre ++ [v]) = S (List.length pre))
      by (rewrite length_app; simpl; lia).
    assert (Hpre : forall j, (j < List.length pre)%nat ->
                             nth j (pre ++ [v]) PrimFloat.nan
                             = nth j pre PrimFloat.nan)
      by (intros j Hj; apply app_nth1, Hj).
    assert (Hv : nth (List.length pre) (pre ++ [v]) PrimFloat.nan = v)
      by (rewrite app_nth2 by lia; rewrite Nat.sub_diag; reflexivity).
    assert (Hall : forall d, In d (pre ++ v :: t) -> PrimFloat.is_nan d = false)
      by (apply Forall_forall; exact Hnn).
    assert (Nb : PrimFloat.is_nan b = false).
    { apply Hall. rewrite <- Hb. apply in_or_app. left. apply nth_In, Hbi. }
    assert (Nv : PrimFloat.is_nan v = false).
    { apply Hall. apply in_or_app. right. left. reflexivity. }
    replace (pre ++ v :: t) with ((pre ++ [v]) ++ t) in *
      by (rewrite <- app_assoc; reflexivity).
    rewrite Nb. rewrite <- Hlen.
    destruct (PrimFloat.leb b v) eqn:Hle; cbn [negb].
    + apply IH.
      * exact Hnn.
      * lia.
      * rewrite Hpre by lia. exact Hb.
      * intros j Hj. rewrite Hlen in Hj.
        destruct (Nat.eq_dec j (List.length pre)) as [-> | Hne].
        -- rewrite Hv. exact Hle.
        -- rewrite Hpre by lia. apply Hmin. lia.
      * intros j Hj. rewrite Hpre by lia. apply Hfirst, Hj.
    + pose proof (f64_total b v Nb Nv Hle) as Hlt.
      apply IH.
      * exact Hnn.
      * lia.
      * exact Hv.
      * intros j Hj. rewrite Hlen in Hj.
        destruct (Nat.eq_dec j (List.length pre)) as [-> | Hne].
        -- rewrite Hv. apply f64_le_refl, Nv.
        -- rewrite Hpre by lia.
           apply f64_lt_le, (f64_lt_le_trans v b); [exact Hlt |].
           apply Hmin. lia.
      * intros j Hj. rewrite Hpre by lia.
        apply (f64_lt_le_trans v b); [exact Hlt | apply Hmin, Hj].
Qed.

Lemma f64_np_argmin_spec (l : list float) :
  l <> [] -> Float64.no_nan l = true ->
  exists r, Float64.np_argmin l = Some r
    /\ (r < List.length l)%nat
    /\ (forall j, (j < List.length l)%nat ->
          PrimFloat.leb (nth r l PrimFloat.nan) (nth j l PrimFloat.nan) = true)
    /\ (forall j, (j < r)%nat ->
          PrimFloat.ltb (nth r l PrimFloat.nan) (nth j l PrimFloat.nan) = true).
Proof.
  destruct l as [| v t]; [congruence | intros _ Hnn].
  assert (Hall : Forall (fun d => PrimFloat.is_nan d = false) (v :: t)).
  { apply Forall_forall. intros d Hd. unfold Float64.no_nan in Hnn.
    rewrite forallb_forall in Hnn. specialize (Hnn d Hd).
    apply negb_true_iff, Hnn. }
  exists (Float64.argmin_from 0 v 1 t). split; [reflexivity |].
  apply (f64_argmin_from_spec t [v] 0 v).
  - exact Hall.
  - simpl. lia.
  - reflexivity.
  - intros [| j] Hj; simpl in *; [| lia].
    apply f64_le_refl. inversion Hall; assumption.
  - intros j Hj. lia.
Qed.

Lemma length_f64_cumsum_from (acc : float) (l : list float) :
  List.length (Float64.cumsum_from acc l) = List.length l.
Proof. revert acc. induction l; intros acc; simpl; [| rewrite IHl]; reflexivity. Qed.

Lemma length_f64_distances (column : list float) (target : float) :
  List.length (Float64.distances column target) = List.length column.
Proof.
  unfold Float64.distances. rewrite length_map.
  destruct column as [| v t]; [reflexivity |].
  simpl. rewrite length_f64_cumsum_from. reflexivity.
Qed.

Lemma f64_closest_grid_value_closest (r_list column : list float) (target : float) :
  column <> [] -> (List.length column <= List.length r_list)%nat ->
  Float64.no_nan (Float64.distances column target) = true ->
  exists g, Float64.closest_grid_value r_list column target = Some g
            /\ Float64.closest_at r_list target column g.
Proof.
  intros Hne Hlen Hnn.
  destruct (f64_np_argmin_spec (Float64.distances column target))
    as (i & Ei & Li & Mi & Fi); [| exact Hnn |].
  { intros E. apply Hne. apply length_zero_iff_nil.
    rewrite <- (length_f64_distances column target), E. reflexivity. }
  rewrite length_f64_distances in Li, Mi.
  destruct (nth_error r_list i) as [g |] eqn:Eg.
  - exists g. unfold Float64.closest_grid_value. rewrite Ei. split; [exact Eg |].
    exists i. repeat split; assumption.
  - apply nth_error_None in Eg. lia.
Qed.

Lemma f64_traverse_closest (r_list : list float) (target : float)
    (posteriors : list (list float)) :
  Forall (fun column =>
            column <> [] /\ (List.length column <= List.length r_list)%nat
            /\ Float64.no_nan (Float64.distances column target) = true)
         posteriors ->
  exists gs,
    traverse (fun column => Float64.closest_grid_value r_list column target)
             posteriors = Some gs
    /\ Forall2 (Float64.closest_at r_list target) posteriors gs.
Proof.
  induction 1 as [| column t (Hne & Hlen & Hnn) _ (gs & Egs & Hgs)].
  - exists []. split; [reflexivity | constructor].
  - destruct (f64_closest_grid_value_closest r_list column target Hne Hlen Hnn)
      as (g & Eg & Hg).
    exists (g :: gs). cbn [traverse]. rewrite Eg, Egs.
    split; [reflexivity | constructor; assumption].
Qed.

(** C8, as stated, fails in binary64.  On the default grid, for the
    distribution with a mass of 1.4e-17 on the second grid value and the
    rest on the third, the distances of the first two cumulative sums to
    the 68% target [1 - 0.68] round to the same float, so the first position
    is taken and the low bound is 0.0, while the distances to the 95% target
    [1 - 0.95] still differ and the low bound is 0.02: the 95% interval does
    not contain the 68% interval. *)
#[warnings="-inexact-float"]
Lemma highest_density_interval_not_nested :
  forallb (PrimFloat.leb 0) tiny_mass_column = true
  /\ last (Float64.cumsum tiny_mass_column) PrimFloat.nan = 1%float
  /\ PrimFloat.ltb ci_68 ci_95 = true
  /\ Float64.highest_density_interval default_r_list [tiny_mass_column] ci_68
     = Some ([0%float], [0.04%float])
  /\ Float64.highest_density_interval default_r_list [tiny_mass_column] ci_95
     = Some ([0.02%float], [0.04%float])
  /\ PrimFloat.leb 0.02 0 = false.
Proof. vm_compute. repeat split. Qed.

(** C8 as the code has it: for every table whose columns are not empty and
    no longer than the grid, and every level for which no distance is NaN,
    the computation returns one low and one high bound per day, each the
    grid value at the first position whose rounded distance between the
    cumulative sum and the target, [1 - ci] for the low bound and [ci] for
    the high bound, is smallest. *)
Theorem highest_density_interval_closest (r_list : list float)
    (posteriors : list (list float)) (ci : float) :
  Forall (fun column =>
            column <> [] /\ (List.length column <= List.length r_list)%nat
            /\ Float64.no_nan (Float64.distances column (PrimFloat.sub 1 ci)) = true
            /\ Float64.no_nan (Float64.distances column ci) = true)
         posteriors ->
  exists ci_low ci_high,
    Float64.highest_density_interval r_list posteriors ci = Some (ci_low, ci_high)
    /\ Forall2 (Float64.closest_at r_list (PrimFloat.sub 1 ci)) posteriors ci_low
    /\ Forall2 (Float64.closest_at r_list ci) posteriors ci_high.
Proof.
  intros H.
  destruct (f64_traverse_closest r_list (PrimFloat.sub 1 ci) posteriors)
    as (lows & El & Hl).
  { eapply Forall_impl; [| exact H]. intros c (A & B & C & _). auto. }
  destruct (f64_traverse_closest r_list ci posteriors) as (highs & Eh & Hh).
  { eapply Forall_impl; [| exact H]. intros c (A & B & _ & D). auto. }
  exists lows, highs. unfold Float64.highest_density_interval.
  rewrite El, Eh. auto.
Qed.

Lemma highest_density_interval_closest_witness :
  Forall (fun column =>
            column <> [] /\ (List.length column <= List.length default_r_list)%nat
            /\ Float64.no_nan (Float64.distances column (PrimFloat.sub 1 ci_95)) = true
            /\ Float64.no_nan (Float64.distances column ci_95) = true)
         [tiny_mass_column]
  /\ exists ci_low ci_high,
      Float64.highest_density_interval default_r_list [tiny_mass_column] ci_95
      = Some (ci_low, ci_high)
      /\ Forall2 (Float64.closest_at default_r_list (PrimFloat.sub 1 ci_95))
                 [tiny_mass_column] ci_low
      /\ Forall2 (Float64.closest_at default_r_list ci_95)
                 [tiny_mass_column] ci_high.
Proof.
  assert (H : Forall (fun column =>
            column <> [] /\ (List.length column <= List.length default_r_list)%nat
            /\ Float64.no_nan (Float64.distances column (PrimFloat.sub 1 ci_95)) = true
            /\ Float64.no_nan (Float64.distances column ci_95) = true)
         [tiny_mass_column]).
  { constructor; [| constructor].
    split; [discriminate |].
    split; [vm_compute; lia |].
    split; vm_compute; reflexivity. }
  split; [exact H |].
  exact (highest_density_interval_closest default_r_list [tiny_mass_column] ci_95 H).
Defined.

(** ** [get_posteriors] *)

Lemma Rsum_nonneg (l : list R) : Forall (fun e => 0 <= e) l -> 0 <= Rsum l.
Proof. induction 1; simpl; lra. Qed.

Lemma Rsum_pos (l : list R) :
  Forall (fun e => 0 <= e) l -> Exists (fun e => 0 < e) l -> 0 < Rsum l.
Proof.
  intros Hnn Hex. induction Hex as [e l He | e l Hex IH]; simpl;
    inversion Hnn as [| ? ? H0 Hl]; subst.
  - pose proof (Rsum_nonneg l Hl). lra.
  - specialize (IH Hl). lra.
Qed.

Lemma Rsum_map_div (l : list R) (d : R) :
  Rsum (map (fun e => e / d) l) = Rsum l / d.
Proof. induction l as [| e l IH]; simpl; [| rewrite IH]; unfold Rdiv; ring. Qed.

Lemma Rdiv_nonneg (x y : R) : 0 <= x -> 0 <= y -> 0 <= x / y.
Proof.
  intros Hx Hy. destruct (Req_dec_T y 0) as [-> | Hne].
  - unfold Rdiv. rewrite Rinv_0. lra.
  - apply Rmult_le_pos; [exact Hx |]. left. apply Rinv_0_lt_compat. lra.
Qed.

Lemma scaled_distribution (l : list R) (d : R) :
  Forall (fun e => 0 <= e) l -> d = Rsum l -> d <> 0 ->
  is_distribution (map (fun e => e / d) l).
Proof.
  intros Hnn Hd Hne. split.
  - pose proof (Rsum_nonneg l Hnn) as Hs. rewrite <- Hd in Hs.
    rewrite Forall_map. eapply Forall_impl; [| exact Hnn].
    intros e He. apply Rdiv_nonneg; assumption.
  - rewrite Rsum_map_div, <- Hd. field. exact Hne.
Qed.

Lemma normalize_distribution (v : list R) :
  Forall (fun e => 0 <= e) v -> Exists (fun e => 0 < e) v ->
  is_distribution (normalize v).
Proof.
  intros Hnn Hex. apply scaled_distribution; [exact Hnn | reflexivity |].
  pose proof (Rsum_pos v Hnn Hex). lra.
Qed.

Lemma Gamma_5_2_pos : 0 < Gamma_5_2.
Proof.
  unfold Gamma_5_2. apply Rmult_lt_0_compat; [lra |].
  apply sqrt_lt_R0, PI_RGT_0.
Qed.

Lemma gamma_pdf_a2_5_nonneg (x : R) : 0 <= gamma_pdf_a2_5 x.
Proof.
  unfold gamma_pdf_a2_5. destruct (Rlt_dec x 0) as [Hlt | Hge]; [lra |].
  apply Rdiv_nonneg; [| left; exact Gamma_5_2_pos].
  apply Rmult_le_pos; [apply Rmult_le_pos |].
  - lra.
  - apply sqrt_pos.
  - left. apply exp_pos.
Qed.

Lemma gamma_pdf_a2_5_pos (x : R) : 0 < x -> 0 < gamma_pdf_a2_5 x.
Proof.
  intros Hx. unfold gamma_pdf_a2_5. destruct (Rlt_dec x 0) as [Hlt | Hge]; [lra |].
  apply Rdiv_lt_0_compat; [| exact Gamma_5_2_pos].
  apply Rmult_lt_0_compat; [apply Rmult_lt_0_compat |].
  - exact Hx.
  - apply sqrt_lt_R0, Hx.
  - apply exp_pos.
Qed.

Lemma gamma_pdf_a2_nonneg (x : R) : 0 <= gamma_pdf_a2 x.
Proof.
  unfold gamma_pdf_a2. destruct (Rlt_dec x 0) as [Hlt | Hge]; [lra |].
  apply Rmult_le_pos; [lra | left; apply exp_pos].
Qed.

Lemma gamma_pdf_a2_pos (x : R) : 0 < x -> 0 < gamma_pdf_a2 x.
Proof.
  intros Hx. unfold gamma_pdf_a2. destruct (Rlt_dec x 0) as [Hlt | Hge]; [lra |].
  apply Rmult_lt_0_compat; [exact Hx | apply exp_pos].
Qed.

Lemma norm_pdf_nonneg (loc scale x : R) : 0 < scale -> 0 <= norm_pdf loc scale x.
Proof.
  intros Hs. unfold norm_pdf. apply Rdiv_nonneg; [left; apply exp_pos |].
  apply Rmult_le_pos; [apply sqrt_pos | lra].
Qed.

Lemma poisson_pmf_nonneg (k : nat) (mu : R) : 0 <= mu -> 0 <= poisson_pmf k mu.
Proof.
  intros Hmu. unfold poisson_pmf. apply Rdiv_nonneg.
  - apply Rmult_le_pos; [left; apply exp_pos | apply pow_le, Hmu].
  - apply pos_INR.
Qed.

(** With yesterday's count at zero no positive count has any likelihood. *)
Lemma poisson_pmf_zero_rate (k : nat) : (0 < k)%nat -> poisson_pmf k 0 = 0.
Proof.
  intros Hk. unfold poisson_pmf. destruct k as [| k]; [lia |].
  simpl pow. unfold Rdiv. ring.
Qed.

Lemma Forall_map_nonneg {A : Type} (f : A -> R) (l : list A) :
  (forall a, 0 <= f a) -> Forall (fun e => 0 <= e) (map f l).
Proof. intros H. rewrite Forall_map. apply Forall_forall. intros a _. apply H. Qed.

Lemma Exists_map_pos (f : R -> R) (l : list R) :
  (forall a, 0 < a -> 0 < f a) ->
  Exists (fun r => 0 < r) l -> Exists (fun e => 0 < e) (map f l).
Proof.
  intros H Hex. rewrite Exists_map. eapply Exists_impl; [| exact Hex].
  intros a Ha. apply H, Ha.
Qed.

Lemma zip_with_nonneg (f : R -> R -> R) (a b : list R) :
  (forall x y, 0 <= x -> 0 <= y -> 0 <= f x y) ->
  Forall (fun e => 0 <= e) a -> Forall (fun e => 0 <= e) b ->
  Forall (fun e => 0 <= e) (zip_with f a b).
Proof.
  intros Hf Ha. revert b. induction Ha as [| x a Hx Ha IH]; intros b Hb; simpl.
  - constructor.
  - destruct b as [| y b]; [constructor |].
    inversion Hb; subst. constructor; [apply Hf; assumption | apply IH; assumption].
Qed.

Lemma matvec_nonneg (M : list (list R)) (v : list R) :
  Forall (Forall (fun e => 0 <= e)) M -> Forall (fun e => 0 <= e) v ->
  Forall (fun e => 0 <= e) (matvec M v).
Proof.
  intros HM Hv. unfold matvec. rewrite Forall_map.
  eapply Forall_impl; [| exact HM].
  intros row Hrow. apply Rsum_nonneg, zip_with_nonneg; try assumption.
  intros x y Hx Hy. apply Rmult_le_pos; assumption.
Qed.

Lemma nth_nonneg (l : list R) (j : nat) :
  Forall (fun e => 0 <= e) l -> 0 <= nth j l 0.
Proof.
  intros H. revert j. induction H as [| e l He Hl IH]; intros [| j]; simpl;
    try lra; try assumption. apply IH.
Qed.

Lemma normalize_columns_nonneg (n : nat) (M : list (list R)) :
  Forall (Forall (fun e => 0 <= e)) M ->
  Forall (Forall (fun e => 0 <= e)) (normalize_columns n M).
Proof.
  intros HM. unfold normalize_columns. rewrite Forall_map.
  eapply Forall_impl; [| exact HM].
  intros row Hrow. apply zip_with_nonneg; [apply Rdiv_nonneg | exact Hrow |].
  unfold col_sums. apply Forall_map_nonneg. intros j.
  apply Rsum_nonneg. rewrite Forall_map.
  eapply Forall_impl; [| exact HM]. intros r Hr. apply nth_nonneg, Hr.
Qed.

Section PosteriorFacts.

Variable self : RtInferenceEngine.
Hypothesis sigma_pos : 0 < process_sigma self.
Hypothesis grid_pos : Exists (fun r => 0 < r) (r_list self).

Lemma process_matrix_nonneg :
  Forall (Forall (fun e => 0 <= e)) (process_matrix self).
Proof.
  unfold process_matrix. apply normalize_columns_nonneg.
  rewrite Forall_map. apply Forall_forall. intros ri _.
  apply Forall_map_nonneg. intros rj. apply norm_pdf_nonneg, sigma_pos.
Qed.

Lemma prior0_distribution : is_distribution (prior0 self).
Proof.
  apply normalize_distribution.
  - apply Forall_map_nonneg, gamma_pdf_a2_5_nonneg.
  - apply Exists_map_pos; [apply gamma_pdf_a2_5_pos | exact grid_pos].
Qed.

Lemma reinit_prior_distribution : is_distribution (reinit_prior self).
Proof.
  apply normalize_distribution.
  - apply Forall_map_nonneg, gamma_pdf_a2_nonneg.
  - apply Exists_map_pos; [apply gamma_pdf_a2_pos | exact grid_pos].
Qed.

Lemma likelihoods_nonneg (timeseries : list nat) :
  Forall (Forall (fun e => 0 <= e)) (likelihoods self timeseries).
Proof.
  induction timeseries as [| k_prev rest IH]; [constructor |].
  destruct rest as [| k_cur rest']; [constructor |].
  change (likelihoods self (k_prev :: k_cur :: rest')) with
    (map (fun r => poisson_pmf k_cur
                     (INR k_prev * exp ((r - 1) / serial_period self)))
         (r_list self)
     :: likelihoods self (k_cur :: rest')).
  constructor; [| exact IH].
  apply Forall_map_nonneg. intros r. apply poisson_pmf_nonneg.
  apply Rmult_le_pos; [apply pos_INR | left; apply exp_pos].
Qed.

Lemma length_likelihoods (timeseries : list nat) :
  List.length (likelihoods self timeseries) = (List.length timeseries - 1)%nat.
Proof.
  induction timeseries as [| k_prev rest IH]; [reflexivity |].
  destruct rest as [| k_cur rest']; [reflexivity |].
  change (likelihoods self (k_prev :: k_cur :: rest')) with
    (map (fun r => poisson_pmf k_cur
                     (INR k_prev * exp ((r - 1) / serial_period self)))
         (r_list self)
     :: likelihoods self (k_cur :: rest')).
  simpl List.length in *. rewrite IH. lia.
Qed.

Lemma bayes_numerator_nonneg (prev lik : list R) :
  Forall (fun e => 0 <= e) prev -> Forall (fun e => 0 <= e) lik ->
  Forall (fun e => 0 <= e) (bayes_numerator self prev lik).
Proof.
  intros Hp Hl. unfold bayes_numerator. apply zip_with_nonneg.
  - intros x y Hx Hy. apply Rmult_le_pos; assumption.
  - exact Hl.
  - apply matvec_nonneg; [apply process_matrix_nonneg | exact Hp].
Qed.

Lemma bayes_update_distribution (prev lik : list R) :
  Forall (fun e => 0 <= e) prev -> Forall (fun e => 0 <= e) lik ->
  is_distribution (bayes_update self prev lik).
Proof.
  intros Hp Hl. unfold bayes_update.
  destruct (Req_dec_T (Rsum (bayes_numerator self prev lik)) 0) as [Hz | Hnz].
  - apply reinit_prior_distribution.
  - apply scaled_distribution;
      [apply bayes_numerator_nonneg; assumption | reflexivity | exact Hnz].
Qed.

Lemma bayes_loop_distributions (liks : list (list R)) (prev : list R) (ll : logval) :
  Forall (Forall (fun e => 0 <= e)) liks -> Forall (fun e => 0 <= e) prev ->
  Forall is_distribution (fst (bayes_loop self liks prev ll)).
Proof.
  revert prev ll. induction liks as [| lik rest IH]; intros prev ll Hl Hp; simpl.
  - constructor.
  - inversion Hl as [| ? ? Hlik Hrest]; subst.
    pose proof (bayes_update_distribution prev lik Hp Hlik) as Hd.
    specialize (IH (bayes_update self prev lik)
                   (logval_add ll (np_log (Rsum (bayes_numerator self prev lik))))
                   Hrest (proj1 Hd)).
    destruct (bayes_loop self rest (bayes_update self prev lik)
                (logval_add ll (np_log (Rsum (bayes_numerator self prev lik)))))
      as [posts total].
    simpl in *. constructor; assumption.
Qed.

Lemma length_bayes_loop (liks : list (list R)) (prev : list R) (ll : logval) :
  List.length (fst (bayes_loop self liks prev ll)) = List.length liks.
Proof.
  revert prev ll. induction liks as [| lik rest IH]; intros prev ll; simpl.
  - reflexivity.
  - specialize (IH (bayes_update self prev lik)
                   (logval_add ll (np_log (Rsum (bayes_numerator self prev lik))))).
    destruct (bayes_loop self rest (bayes_update self prev lik)
                (logval_add ll (np_log (Rsum (bayes_numerator self prev lik)))))
      as [posts total].
    simpl in *. rewrite IH. reflexivity.
Qed.

End PosteriorFacts.

(** *** NaN cells *)

Lemma Rsum_zip_zero {A : Type} (f : A -> R) (l : list A) (v : list R) :
  (forall a, f a = 0) -> Rsum (zip_with Rmult (map f l) v) = 0.
Proof.
  intros Hf. revert v. induction l as [| a l IH]; intros [| y v]; simpl;
    try reflexivity.
  rewrite Hf, IH. ring.
Qed.

Lemma series_sum_some (v : list R) : series_sum (map Some v) = Rsum v.
Proof.
  unfold series_sum. induction v as [| a v IH]; [reflexivity |].
  cbn [map flat_map app]. change (Rsum (a :: ?l)) with (a + Rsum l).
  simpl. rewrite IH. reflexivity.
Qed.

(** A product with a column that is NaN throughout sums to zero. *)
Lemma series_sum_nan_column {A : Type} (rl : list A) (v : list (option R)) :
  series_sum (zip_with cell_mul (map (fun _ => None) rl) v) = 0.
Proof.
  unfold series_sum. revert v.
  induction rl as [| a rl IH]; intros [| y v]; simpl; try reflexivity.
  apply IH.
Qed.

Lemma matvec_cells_some (M : list (list R)) (p : list R) :
  matvec_cells M (map Some p) = map Some (matvec M p).
Proof.
  unfold matvec_cells, matvec. rewrite map_map. apply map_ext. intros row.
  revert p. induction row as [| a row IH]; intros [| y p]; simpl;
    try reflexivity.
  rewrite IH. reflexivity.
Qed.

Lemma zip_with_cell_mul_some (l v : list R) :
  zip_with cell_mul (map Some l) (map Some v) = map Some (zip_with Rmult l v).
Proof.
  revert v. induction l as [| a l IH]; intros [| y v]; simpl; try reflexivity.
  rewrite IH. reflexivity.
Qed.

Section PosteriorCells.

Variable self : RtInferenceEngine.

Lemma bayes_numerator_cells_some (p l : list R) :
  bayes_numerator_cells self (map Some p) (map Some l)
  = map Some (bayes_numerator self p l).
Proof.
  unfold bayes_numerator_cells, bayes_numerator.
  rewrite matvec_cells_some. apply zip_with_cell_mul_some.
Qed.

(** One day of the loop: on a day whose column holds no NaN the update on
    cells is the update on reals; on a day whose column is NaN the
    normalizing constant is [0.0] and the prior is reinitialized, as on a
    day whose likelihood vanishes. *)
Lemma bayes_day_cells (p : list R) (k_prev k_cur : option nat) :
  let cells :=
    map (fun r => match k_prev, k_cur with
                  | Some a, Some b =>
                      Some (poisson_pmf b
                              (INR a * exp ((r - 1) / serial_period self)))
                  | _, _ => None
                  end) (r_list self) in
  let reals :=
    map (fun r => match k_prev, k_cur with
                  | Some a, Some b =>
                      poisson_pmf b (INR a * exp ((r - 1) / serial_period self))
                  | _, _ => 0
                  end) (r_list self) in
  series_sum (bayes_numerator_cells self (map Some p) cells)
  = Rsum (bayes_numerator self p reals)
  /\ bayes_update_cells self (map Some p) cells
     = map Some (bayes_update self p reals).
Proof.
  intros cells reals.
  assert (Hnan :
    cells = map (fun _ => None) (r_list self) ->
    reals = map (fun _ => 0) (r_list self) ->
    series_sum (bayes_numerator_cells self (map Some p) cells)
    = Rsum (bayes_numerator self p reals)
    /\ bayes_update_cells self (map Some p) cells
       = map Some (bayes_update self p reals)).
  { intros -> ->.
    assert (E1 : series_sum (bayes_numerator_cells self (map Some p)
                               (map (fun _ => None) (r_list self))) = 0)
      by (unfold bayes_numerator_cells; apply series_sum_nan_column).
    assert (E2 : Rsum (bayes_numerator self p (map (fun _ => 0) (r_list self))) = 0)
      by (unfold bayes_numerator; apply Rsum_zip_zero; reflexivity).
    split; [rewrite E1, E2; reflexivity |].
    unfold bayes_update_cells, bayes_update. rewrite E1, E2.
    destruct (Req_dec_T 0 0) as [_ | Hne]; [reflexivity | congruence]. }
  destruct k_prev as [a |], k_cur as [b |];
    try (apply Hnan; reflexivity).
  subst cells reals.
  rewrite <- (map_map (fun r => poisson_pmf b
                                  (INR a * exp ((r - 1) / serial_period self)))
                      Some).
  set (l := map (fun r => poisson_pmf b
                            (INR a * exp ((r - 1) / serial_period self)))
                (r_list self)).
  split.
  - rewrite bayes_numerator_cells_some. apply series_sum_some.
  - unfold bayes_update_cells, bayes_update.
    rewrite bayes_numerator_cells_some, series_sum_some.
    destruct (Req_dec_T (Rsum (bayes_numerator self p l)) 0); [reflexivity |].
    rewrite !map_map. reflexivity.
Qed.

Lemma likelihoods_cells_cons (k_prev k_cur : option nat)
    (rest : list (option nat)) :
  likelihoods_cells self (k_prev :: k_cur :: rest)
  = map (fun r => match k_prev, k_cur with
                  | Some a, Some b =>
                      Some (poisson_pmf b
                              (INR a * exp ((r - 1) / serial_period self)))
                  | _, _ => None
                  end) (r_list self)
    :: likelihoods_cells self (k_cur :: rest).
Proof. reflexivity. Qed.

Lemma effective_likelihoods_cons (k_prev k_cur : option nat)
    (rest : list (option nat)) :
  effective_likelihoods self (k_prev :: k_cur :: rest)
  = map (fun r => match k_prev, k_cur with
                  | Some a, Some b =>
                      poisson_pmf b (INR a * exp ((r - 1) / serial_period self))
                  | _, _ => 0
                  end) (r_list self)
    :: effective_likelihoods self (k_cur :: rest).
Proof. reflexivity. Qed.

(** The loop on cells yields the posteriors of the loop on reals: no cell
    of the posterior table is NaN. *)
Lemma bayes_loop_cells_eq (timeseries : list (option nat)) (p : list R)
    (ll : logval) :
  bayes_loop_cells self (likelihoods_cells self timeseries) (map Some p) ll
  = (map (map Some)
         (fst (bayes_loop self (effective_likelihoods self timeseries) p ll)),
     snd (bayes_loop self (effective_likelihoods self timeseries) p ll)).
Proof.
  revert p ll. induction timeseries as [| k_prev rest IH]; intros p ll;
    [reflexivity |].
  destruct rest as [| k_cur rest']; [reflexivity |].
  rewrite likelihoods_cells_cons, effective_likelihoods_cons.
  cbn [bayes_loop_cells bayes_loop].
  destruct (bayes_day_cells p k_prev k_cur) as [Ed Eu].
  cbv zeta in Ed, Eu. rewrite Ed, Eu.
  rewrite (IH _ _).
  destruct (bayes_loop self (effective_likelihoods self (k_cur :: rest')) _ _)
    as [posts total].
  reflexivity.
Qed.

Lemma effective_likelihoods_nonneg (timeseries : list (option nat)) :
  Forall (Forall (fun e => 0 <= e)) (effective_likelihoods self timeseries).
Proof.
  induction timeseries as [| k_prev rest IH]; [constructor |].
  destruct rest as [| k_cur rest']; [constructor |].
  rewrite effective_likelihoods_cons. constructor; [| exact IH].
  apply Forall_map_nonneg. intros r.
  destruct k_prev as [a |], k_cur as [b |]; try apply Rle_refl.
  apply poisson_pmf_nonneg.
  apply Rmult_le_pos; [apply pos_INR | left; apply exp_pos].
Qed.

Lemma length_effective_likelihoods (timeseries : list (option nat)) :
  List.length (effective_likelihoods self timeseries)
  = (List.length timeseries - 1)%nat.
Proof.
  induction timeseries as [| k_prev rest IH]; [reflexivity |].
  destruct rest as [| k_cur rest']; [reflexivity |].
  rewrite effective_likelihoods_cons. simpl List.length in *. rewrite IH. lia.
Qed.

Lemma effective_likelihoods_some (timeseries : list nat) :
  effective_likelihoods self (map Some timeseries) = likelihoods self timeseries.
Proof.
  induction timeseries as [| k_prev rest IH]; [reflexivity |].
  destruct rest as [| k_cur rest']; [reflexivity |].
  change (map Some (k_prev :: k_cur :: rest'))
    with (Some k_prev :: Some k_cur :: map Some rest').
  rewrite effective_likelihoods_cons.
  change (Some k_cur :: map Some rest') with (map Some (k_cur :: rest')).
  rewrite IH. reflexivity.
Qed.

(** On a series without NaN the computation on cells is [get_posteriors],
    cell by cell. *)
Lemma get_posteriors_cells_some (timeseries : list nat) :
  get_posteriors_cells self (map Some timeseries)
  = option_map (fun r => (map (map Some) (fst r), snd r))
               (get_posteriors self timeseries).
Proof.
  destruct timeseries as [| k0 rest]; [reflexivity |].
  unfold get_posteriors_cells, get_posteriors.
  change (map Some (k0 :: rest)) with (Some k0 :: map Some rest).
  change (Some k0 :: map Some rest) with (map Some (k0 :: rest)).
  rewrite bayes_loop_cells_eq, effective_likelihoods_some.
  destruct (bayes_loop self (likelihoods self (k0 :: rest)) (prior0 self)
              (LogFinite 0)) as [posts total].
  reflexivity.
Qed.

(** A series of two NaN, as a series of two to four points is smoothed to:
    the table holds the seeded prior and the reinitialization prior, and
    the running log-likelihood is [-inf]. *)
Lemma get_posteriors_cells_all_nan :
  get_posteriors_cells self [None; None]
  = Some ([map Some (prior0 self); map Some (reinit_prior self)], LogNegInf).
Proof.
  unfold get_posteriors_cells.
  cbn [likelihoods_cells bayes_loop_cells].
  unfold bayes_update_cells.
  assert (E : series_sum (bayes_numerator_cells self (map Some (prior0 self))
                            (map (fun _ => None) (r_list self))) = 0)
    by (unfold bayes_numerator_cells; apply series_sum_nan_column).
  rewrite E. unfold np_log.
  destruct (Req_dec_T 0 0) as [_ | Hne]; [reflexivity | congruence].
Qed.

End PosteriorCells.

(** C1: on a smoothed series of at least two points, whose points are
    counts or NaN, every column of the posterior table, the seeded first
    day, the normalized updates and the reinitialized days alike, holds no
    NaN and has non-negative entries that sum to 1, hence to 1 within 1e-9.
    The engine is one whose grid has a positive value and whose process
    sigma is positive, as scipy requires. *)
Theorem get_posteriors_distributions (self : RtInferenceEngine)
    (timeseries : list (option nat)) :
  0 < process_sigma self ->
  Exists (fun r => 0 < r) (r_list self) ->
  (2 <= List.length timeseries)%nat ->
  exists posteriors log_likelihood,
    get_posteriors_cells self timeseries = Some (posteriors, log_likelihood)
    /\ List.length posteriors = List.length timeseries
    /\ Forall (fun column =>
                 exists p, column = map Some p
                           /\ Forall (fun e => 0 <= e) p
                           /\ Rsum p = 1
                           /\ Rabs (Rsum p - 1) <= / 1000000000)
              posteriors.
Proof.
  intros Hsigma Hgrid Hlen.
  destruct timeseries as [| k0 rest]; [simpl in Hlen; lia |].
  unfold get_posteriors_cells. rewrite bayes_loop_cells_eq.
  pose proof (bayes_loop_distributions self Hsigma Hgrid
                (effective_likelihoods self (k0 :: rest)) (prior0 self)
                (LogFinite 0)
                (effective_likelihoods_nonneg self (k0 :: rest))
                (proj1 (prior0_distribution self Hgrid))) as Hd.
  pose proof (length_bayes_loop self (effective_likelihoods self (k0 :: rest))
                (prior0 self) (LogFinite 0)) as Hl.
  rewrite length_effective_likelihoods in Hl.
  destruct (bayes_loop self (effective_likelihoods self (k0 :: rest))
              (prior0 self) (LogFinite 0)) as [posteriors total].
  simpl fst in *. simpl snd.
  exists (map Some (prior0 self) :: map (map Some) posteriors), total.
  split; [reflexivity |].
  split; [simpl List.length in *; rewrite length_map; lia |].
  assert (Hall : Forall is_distribution (prior0 self :: posteriors))
    by (constructor; [apply prior0_distribution, Hgrid | exact Hd]).
  change (map Some (prior0 self) :: map (map Some) posteriors)
    with (map (map Some) (prior0 self :: posteriors)).
  rewrite Forall_map. eapply Forall_impl; [| exact Hall].
  intros p [Hnn Hsum]. exists p. repeat split; try assumption.
  rewrite Hsum. replace (1 - 1) with 0 by ring. rewrite Rabs_R0.
  left. apply Rinv_0_lt_compat. lra.
Qed.

Lemma get_posteriors_distributions_witness :
  0 < process_sigma sample_engine
  /\ Exists (fun r => 0 < r) (r_list sample_engine)
  /\ (2 <= List.length nan_series)%nat
  /\ exists posteriors log_likelihood,
      get_posteriors_cells sample_engine nan_series
        = Some (posteriors, log_likelihood)
      /\ List.length posteriors = List.length nan_series
      /\ Forall (fun column =>
                   exists p, column = map Some p
                             /\ Forall (fun e => 0 <= e) p
                             /\ Rsum p = 1
                             /\ Rabs (Rsum p - 1) <= / 1000000000)
                posteriors.
Proof.
  assert (Hs : 0 < process_sigma sample_engine) by (simpl; lra).
  assert (Hg : Exists (fun r => 0 < r) (r_list sample_engine))
    by (simpl; apply Exists_cons_tl, Exists_cons_hd; lra).
  assert (Hl : (2 <= List.length nan_series)%nat) by (simpl; lia).
  split; [exact Hs | split; [exact Hg | split; [exact Hl |]]].
  exact (get_posteriors_distributions sample_engine nan_series Hs Hg Hl).
Defined.

(** ** The running log-likelihood *)

Lemma likelihoods_cons (self : RtInferenceEngine) (k_prev k_cur : nat)
    (rest : list nat) :
  likelihoods self (k_prev :: k_cur :: rest)
  = map (fun r => poisson_pmf k_cur
                    (INR k_prev * exp ((r - 1) / serial_period self)))
        (r_list self)
    :: likelihoods self (k_cur :: rest).
Proof. reflexivity. Qed.

(** A positive count after a zero count has normalizing constant zero. *)
Lemma degenerate_day_denominator (self : RtInferenceEngine) (prev : list R)
    (k_cur : nat) :
  (0 < k_cur)%nat ->
  Rsum (bayes_numerator self prev
          (map (fun r => poisson_pmf k_cur
                           (INR 0 * exp ((r - 1) / serial_period self)))
               (r_list self))) = 0.
Proof.
  intros Hk. unfold bayes_numerator. apply Rsum_zip_zero.
  intros r. simpl INR. rewrite Rmult_0_l. apply poisson_pmf_zero_rate, Hk.
Qed.

Lemma bayes_loop_log_likelihood (self : RtInferenceEngine)
    (liks : list (list R)) (prev : list R) (ll : logval) :
  snd (bayes_loop self liks prev ll)
  = fold_left (fun acc z => logval_add acc (np_log z))
              (denominators self liks prev) ll.
Proof.
  revert prev ll. induction liks as [| lik rest IH]; intros prev ll; simpl.
  - reflexivity.
  - specialize (IH (bayes_update self prev lik)
                   (logval_add ll (np_log (Rsum (bayes_numerator self prev lik))))).
    destruct (bayes_loop self rest (bayes_update self prev lik)
                (logval_add ll (np_log (Rsum (bayes_numerator self prev lik)))))
      as [posts total].
    simpl in *. exact IH.
Qed.

Lemma np_log_zero : np_log 0 = LogNegInf.
Proof. unfold np_log. destruct (Req_dec_T 0 0); [reflexivity | congruence]. Qed.

Lemma np_log_pos (z : R) : 0 <= z -> z <> 0 -> np_log z = LogFinite (ln z).
Proof.
  intros Hz Hne. unfold np_log.
  destruct (Req_dec_T z 0); [contradiction |].
  destruct (Rlt_dec z 0); [lra | reflexivity].
Qed.

Lemma fold_log_neg_inf (zs : list R) :
  Forall (fun z => 0 <= z) zs ->
  fold_left (fun acc z => logval_add acc (np_log z)) zs LogNegInf = LogNegInf.
Proof.
  induction 1 as [| z zs Hz _ IH]; simpl; [reflexivity |].
  destruct (Req_dec_T z 0) as [-> | Hne].
  - rewrite np_log_zero. exact IH.
  - rewrite np_log_pos by assumption. exact IH.
Qed.

Lemma fold_log_finite (zs : list R) (a : R) :
  Forall (fun z => 0 <= z) zs -> Forall (fun z => z <> 0) zs ->
  fold_left (fun acc z => logval_add acc (np_log z)) zs (LogFinite a)
  = LogFinite (a + Rsum (map ln zs)).
Proof.
  intros Hnn. revert a. induction Hnn as [| z zs Hz _ IH]; intros a Hne; simpl.
  - f_equal. ring.
  - inversion Hne; subst. rewrite np_log_pos by assumption. simpl.
    rewrite IH by assumption. f_equal. ring.
Qed.

Lemma fold_log_degenerate (zs : list R) (a : R) :
  Forall (fun z => 0 <= z) zs -> Exists (fun z => z = 0) zs ->
  fold_left (fun acc z => logval_add acc (np_log z)) zs (LogFinite a)
  = LogNegInf.
Proof.
  intros Hnn Hex. revert a.
  induction Hex as [z zs Hz | z zs Hex IH]; intros a; simpl;
    inversion Hnn as [| ? ? H0 Hrest]; subst.
  - rewrite np_log_zero. simpl. apply fold_log_neg_inf, Hrest.
  - destruct (Req_dec_T z 0) as [-> | Hne].
    + rewrite np_log_zero. simpl. apply fold_log_neg_inf, Hrest.
    + rewrite np_log_pos by assumption. simpl. apply IH, Hrest.
Qed.

Lemma denominators_nonneg (self : RtInferenceEngine) (liks : list (list R))
    (prev : list R) :
  0 < process_sigma self -> Exists (fun r => 0 < r) (r_list self) ->
  Forall (Forall (fun e => 0 <= e)) liks -> Forall (fun e => 0 <= e) prev ->
  Forall (fun z => 0 <= z) (denominators self liks prev).
Proof.
  intros Hs Hg Hl. revert prev. induction Hl as [| lik rest Hlik _ IH];
    intros prev Hp; simpl; constructor.
  - apply Rsum_nonneg, bayes_numerator_nonneg; assumption.
  - apply IH. apply (bayes_update_distribution self Hs Hg); assumption.
Qed.

(** C2 as the code has it: [log Z] is added on every day, the degenerate
    ones included.  The total is the sum of [log Z] when no [Z] is zero and
    it is [-inf] as soon as one day has [Z = 0]. *)
Theorem get_posteriors_log_likelihood (self : RtInferenceEngine)
    (timeseries : list nat) (posteriors : list (list R)) (log_likelihood : logval) :
  0 < process_sigma self ->
  Exists (fun r => 0 < r) (r_list self) ->
  get_posteriors self timeseries = Some (posteriors, log_likelihood) ->
  log_likelihood = unguarded_log_likelihood (get_denominators self timeseries)
  /\ (Forall (fun z => z <> 0) (get_denominators self timeseries) ->
      log_likelihood
      = LogFinite (Rsum (map ln (get_denominators self timeseries))))
  /\ (Exists (fun z => z = 0) (get_denominators self timeseries) ->
      log_likelihood = LogNegInf).
Proof.
  intros Hs Hg Hget.
  assert (Hll : log_likelihood
                = unguarded_log_likelihood (get_denominators self timeseries)).
  { destruct timeseries as [| k0 rest]; [discriminate |].
    unfold get_posteriors in Hget.
    pose proof (bayes_loop_log_likelihood self (likelihoods self (k0 :: rest))
                  (prior0 self) (LogFinite 0)) as Hsnd.
    destruct (bayes_loop self (likelihoods self (k0 :: rest)) (prior0 self)
                (LogFinite 0)) as [posts total].
    injection Hget as _ <-. exact Hsnd. }
  assert (Hnn : Forall (fun z => 0 <= z) (get_denominators self timeseries)).
  { unfold get_denominators.
    apply (denominators_nonneg self (likelihoods self timeseries) (prior0 self) Hs Hg).
    - apply likelihoods_nonneg.
    - exact (proj1 (prior0_distribution self Hg)). }
  split; [exact Hll |]. split; intros H; rewrite Hll; unfold unguarded_log_likelihood.
  - rewrite fold_log_finite by assumption. f_equal. ring.
  - apply fold_log_degenerate; assumption.
Qed.

Lemma get_posteriors_log_likelihood_witness :
  0 < process_sigma sample_engine
  /\ Exists (fun r => 0 < r) (r_list sample_engine)
  /\ Exists (fun z => z = 0) (get_denominators sample_engine [5; 0; 3]%nat)
  /\ snd (bayes_loop sample_engine (likelihoods sample_engine [5; 0; 3]%nat)
            (prior0 sample_engine) (LogFinite 0)) = LogNegInf.
Proof.
  assert (Hs : 0 < process_sigma sample_engine) by (simpl; lra).
  assert (Hg : Exists (fun r => 0 < r) (r_list sample_engine))
    by (simpl; apply Exists_cons_tl, Exists_cons_hd; lra).
  assert (Hz : Exists (fun z => z = 0)
                 (get_denominators sample_engine [5; 0; 3]%nat)).
  { unfold get_denominators. rewrite !likelihoods_cons. cbn [denominators].
    apply Exists_cons_tl, Exists_cons_hd.
    apply degenerate_day_denominator. lia. }
  split; [exact Hs | split; [exact Hg | split; [exact Hz |]]].
  destruct (bayes_loop sample_engine (likelihoods sample_engine [5; 0; 3]%nat)
              (prior0 sample_engine) (LogFinite 0)) as [posts total] eqn:E.
  simpl snd.
  apply (get_posteriors_log_likelihood sample_engine [5; 0; 3]%nat
           (prior0 sample_engine :: posts) total Hs Hg).
  - unfold get_posteriors. rewrite E. reflexivity.
  - exact Hz.
Defined.

(** C2, as stated, fails on the smoothed series 5, 0, 3: the last day has
    [Z = 0], the code adds [log 0] and leaves [-inf], where the sum over the
    days with [Z <> 0] is finite. *)
Lemma log_likelihood_counts_degenerate_day :
  ~ (forall timeseries posteriors log_likelihood,
       get_posteriors sample_engine timeseries = Some (posteriors, log_likelihood) ->
       log_likelihood
       = guarded_log_likelihood (get_denominators sample_engine timeseries)).
Proof.
  intros H.
  assert (Hs : 0 < process_sigma sample_engine) by (simpl; lra).
  assert (Hg : Exists (fun r => 0 < r) (r_list sample_engine))
    by (simpl; apply Exists_cons_tl, Exists_cons_hd; lra).
  assert (Hz : Exists (fun z => z = 0)
                 (get_denominators sample_engine [5; 0; 3]%nat)).
  { unfold get_denominators. rewrite !likelihoods_cons. cbn [denominators].
    apply Exists_cons_tl, Exists_cons_hd.
    apply degenerate_day_denominator. lia. }
  assert (Hnn : Forall (fun z => 0 <= z)
                  (get_denominators sample_engine [5; 0; 3]%nat)).
  { unfold get_denominators.
    apply (denominators_nonneg sample_engine _ _ Hs Hg).
    - apply likelihoods_nonneg.
    - exact (proj1 (prior0_distribution sample_engine Hg)). }
  pose proof (bayes_loop_log_likelihood sample_engine
                (likelihoods sample_engine [5; 0; 3]%nat)
                (prior0 sample_engine) (LogFinite 0)) as Hsnd.
  fold (get_denominators sample_engine [5; 0; 3]%nat) in Hsnd.
  rewrite (fold_log_degenerate _ 0 Hnn Hz) in Hsnd.
  destruct (bayes_loop sample_engine (likelihoods sample_engine [5; 0; 3]%nat)
              (prior0 sample_engine) (LogFinite 0)) as [posts total] eqn:E.
  simpl snd in Hsnd. subst total.
  specialize (H [5; 0; 3]%nat (prior0 sample_engine :: posts) LogNegInf).
  assert (Hget : get_posteriors sample_engine [5; 0; 3]%nat
                 = Some (prior0 sample_engine :: posts, LogNegInf))
    by (unfold get_posteriors; rewrite E; reflexivity).
  specialize (H Hget). discriminate H.
Qed.

(** ** [replace_outliers] *)

Lemma length_list_set {A : Type} (l : list A) (i : nat) (v : A) :
  List.length (list_set l i v) = List.length l.
Proof.
  revert i. induction l as [| h t IH]; intros [| i]; simpl; try reflexivity.
  rewrite IH. reflexivity.
Qed.

Lemma nth_error_list_set_same {A : Type} (l : list A) (i : nat) (v : A) :
  (i < List.length l)%nat -> nth_error (list_set l i v) i = Some v.
Proof.
  revert i. induction l as [| h t IH]; intros [| i] Hi; simpl in *; try lia.
  - reflexivity.
  - apply IH. lia.
Qed.

Lemma nth_error_list_set_other {A : Type} (l : list A) (i j : nat) (v : A) :
  i <> j -> nth_error (list_set l i v) j = nth_error l j.
Proof.
  revert i j. induction l as [| h t IH]; intros [| i] [| j] Hne; simpl;
    try reflexivity; try congruence.
  apply IH. congruence.
Qed.

Lemma nth_as_nth_error {A : Type} (l : list A) (i : nat) (d : A) :
  nth i l d = match nth_error l i with Some v => v | None => d end.
Proof.
  revert i. induction l as [| h t IH]; intros [| i]; simpl; try reflexivity.
  apply IH.
Qed.

Lemma nth_list_set_same {A : Type} (l : list A) (i : nat) (v d : A) :
  (i < List.length l)%nat -> nth i (list_set l i v) d = v.
Proof.
  intros Hi. rewrite nth_as_nth_error, nth_error_list_set_same by exact Hi.
  reflexivity.
Qed.

Lemma nth_list_set_other {A : Type} (l : list A) (i j : nat) (v d : A) :
  i <> j -> nth j (list_set l i v) d = nth j l d.
Proof.
  intros Hne. rewrite !nth_as_nth_error, nth_error_list_set_other by exact Hne.
  reflexivity.
Qed.

Lemma replace_outliers_step_eq (m : list (option R)) (mm : R) (x : list R)
    (changed : list nat) (idx : nat) :
  replace_outliers_step m mm (x, changed, None) idx
  = if mean_flag m mm idx
    then match nth_error x (idx + 1) with
         | Some nxt =>
             (list_set x idx (np_mean [nth (idx - 1) x 0; nxt]),
              changed ++ [idx], None)
         | None => (x, changed ++ [idx], Some KeyError)
         end
    else (x, changed, None).
Proof.
  unfold replace_outliers_step, mean_flag, series_getitem.
  destruct (nth idx m None) as [mi |]; [| reflexivity].
  destruct (Rgtb mi mm); [| reflexivity].
  destruct (nth_error x (idx + 1)); reflexivity.
Qed.

(** The state of the loop after the candidates below [n] have been visited:
    the loop is left by [KeyError] exactly at a flagged last point, which
    then keeps its value. *)
Lemma replace_outliers_loop_invariant (m : list (option R)) (mm : R)
    (zf : nat -> bool) (x0 : list R) (n : nat) :
  (forall i, zf i = true -> mean_flag m mm i = true -> (1 <= i)%nat) ->
  (n <= List.length x0)%nat ->
  let st := fold_left (replace_outliers_step m mm) (filter zf (seq 0 n))
                      (x0, [], None) in
  List.length (fst (fst st)) = List.length x0
  /\ snd (fst st) = filter (fun i => zf i && mean_flag m mm i) (seq 0 n)
  /\ snd st = (if (n =? List.length x0)%nat && (1 <=? n)%nat
                  && (zf (n - 1)%nat && mean_flag m mm (n - 1))
               then Some KeyError else None)
  /\ (forall i, (n <= i)%nat -> nth_error (fst (fst st)) i = nth_error x0 i)
  /\ (forall i, (i < n)%nat ->
        nth i (fst (fst st)) 0 =
        if zf i && mean_flag m mm i
        then match nth_error x0 (S i) with
             | Some nxt => np_mean [nth (i - 1) (fst (fst st)) 0; nxt]
             | None => nth i x0 0
             end
        else nth i x0 0).
Proof.
  intros Hpos. induction n as [| n IH]; intros Hn; cbn zeta.
  - cbn [seq filter fold_left fst snd].
    split; [reflexivity |]. split; [reflexivity |].
    split; [destruct (0 =? List.length x0)%nat; reflexivity |].
    split; [reflexivity |]. intros i Hi. lia.
  - specialize (IH ltac:(lia)). cbn zeta in IH.
    rewrite seq_S, !filter_app, fold_left_app. simpl Nat.add.
    destruct (fold_left (replace_outliers_step m mm) (filter zf (seq 0 n))
                        (x0, [], None))
      as [[out ch] rs] eqn:E.
    cbn [fst snd] in IH. destruct IH as (Hlen & Hch & Hrs & Hrest & Hdone).
    assert (Hnl : (n =? List.length x0)%nat = false) by (apply Nat.eqb_neq; lia).
    rewrite Hnl in Hrs. cbn [andb] in Hrs. subst rs.
    replace (S n - 1)%nat with n by lia.
    change (1 <=? S n)%nat with true. rewrite andb_true_r.
    assert (Hkeep :
      zf n && mean_flag m mm n = false ->
      List.length out = List.length x0
      /\ ch = filter (fun i => zf i && mean_flag m mm i) (seq 0 n) ++ []
      /\ @None exception = (if (S n =? List.length x0)%nat && false
                            then Some KeyError else None)
      /\ (forall i, (S n <= i)%nat -> nth_error out i = nth_error x0 i)
      /\ (forall i, (i < S n)%nat ->
            nth i out 0 =
            if zf i && mean_flag m mm i
            then match nth_error x0 (S i) with
                 | Some nxt => np_mean [nth (i - 1) out 0; nxt]
                 | None => nth i x0 0
                 end
            else nth i x0 0)).
    { intros Hf. split; [exact Hlen |].
      split; [rewrite app_nil_r; exact Hch |].
      split; [rewrite andb_false_r; reflexivity |].
      split; [intros i Hi; apply Hrest; lia |].
      intros i Hi. destruct (Nat.eq_dec i n) as [-> | Hne].
      - rewrite Hf. rewrite !nth_as_nth_error, Hrest by lia. reflexivity.
      - apply Hdone. lia. }
    cbn [filter]. destruct (zf n) eqn:Hz; cbn [andb] in *.
    + cbn [fold_left]. rewrite replace_outliers_step_eq.
      destruct (mean_flag m mm n) eqn:Hm.
      * pose proof (Hpos n Hz Hm) as Hn1.
        replace (n + 1)%nat with (S n) by lia.
        rewrite (Hrest (S n)) by lia.
        destruct (nth_error x0 (S n)) as [nxt |] eqn:Hnx.
        -- assert (Hlt : (S n < List.length x0)%nat)
             by (apply nth_error_Some; congruence).
           assert (Hsl : (S n =? List.length x0)%nat = false)
             by (apply Nat.eqb_neq; lia).
           cbn [fst snd]. rewrite Hsl. cbn [andb].
           split; [rewrite length_list_set; exact Hlen |].
           split; [rewrite Hch; reflexivity |].
           split; [reflexivity |].
           split.
           ++ intros i Hi. rewrite nth_error_list_set_other by lia.
              apply Hrest. lia.
           ++ intros i Hi. destruct (Nat.eq_dec i n) as [-> | Hne].
              ** rewrite Hz, Hm. cbn [andb]. rewrite Hnx.
                 rewrite nth_list_set_same by lia.
                 rewrite nth_list_set_other by lia. reflexivity.
              ** rewrite nth_list_set_other by lia.
                 rewrite (nth_list_set_other out n (i - 1)) by lia.
                 apply Hdone. lia.
        -- assert (Hge : (List.length x0 <= S n)%nat)
             by (apply nth_error_None; exact Hnx).
           assert (Hsl : (S n =? List.length x0)%nat = true)
             by (apply Nat.eqb_eq; lia).
           cbn [fst snd]. rewrite Hsl. cbn [andb].
           split; [exact Hlen |].
           split; [rewrite Hch; reflexivity |].
           split; [reflexivity |].
           split; [intros i Hi; apply Hrest; lia |].
           intros i Hi. destruct (Nat.eq_dec i n) as [-> | Hne].
           ++ rewrite Hz, Hm. cbn [andb]. rewrite Hnx.
              rewrite !nth_as_nth_error, Hrest by lia. reflexivity.
           ++ apply Hdone. lia.
      * cbn [fst snd]. apply Hkeep. reflexivity.
    + cbn [fold_left fst snd]. apply Hkeep. reflexivity.
Qed.

Lemma nth_map_seq {B : Type} (g : nat -> B) (n i : nat) (d : B) :
  (i < n)%nat -> nth i (map g (seq 0 n)) d = g i.
Proof.
  intros Hi. rewrite (nth_indep _ d (g 0%nat)) by (rewrite length_map, length_seq; exact Hi).
  rewrite (map_nth g). rewrite seq_nth by exact Hi. reflexivity.
Qed.

Lemma length_rolling (f : list R -> R) (W : nat) (x : list R) :
  List.length (rolling f W x) = List.length x.
Proof. unfold rolling. rewrite length_map, length_seq. reflexivity. Qed.

Lemma nth_shift1 (l : list (option R)) (i : nat) :
  (i < List.length l)%nat ->
  nth i (shift1 l) None = match i with O => None | S j => nth j l None end.
Proof.
  intros Hi. destruct l as [| a t]; [simpl in Hi; lia |].
  unfold shift1. destruct i as [| j]; [reflexivity |].
  cbn [nth]. rewrite removelast_firstn_len, nth_firstn.
  destruct (Nat.ltb_spec j (Nat.pred (List.length (a :: t)))) as [_ | Hge];
    [reflexivity | simpl in *; lia].
Qed.

(** [m[idx]] and [s[idx]]: the statistic of the window before [idx]. *)
Lemma nth_shift1_rolling (f : list R -> R) (W : nat) (x : list R) (idx : nat) :
  (idx < List.length x)%nat ->
  nth idx (shift1 (rolling f W x)) None
  = if (1 <=? W)%nat && (W <=? idx)%nat then Some (f (trailing W x idx)) else None.
Proof.
  intros Hi. rewrite nth_shift1 by (rewrite length_rolling; exact Hi).
  destruct idx as [| j].
  - destruct W as [| W]; reflexivity.
  - unfold rolling. rewrite nth_map_seq by lia.
    unfold rolling_window, trailing.
    destruct (Nat.ltb_spec j (List.length x)) as [_ | Hge]; [| lia].
    rewrite andb_true_r. destruct ((1 <=? W)%nat && (W <=? S j)%nat); reflexivity.
Qed.

Lemma length_z_score_of (x : list R) (m s : list (option R)) :
  List.length (z_score_of x m s) = List.length x.
Proof. unfold z_score_of. rewrite length_map, length_seq. reflexivity. Qed.

Section OutlierFacts.

Variable x : list R.
Variable W : nat.
Variables z_threshold min_mean : R.

Lemma z_flag_true (idx : nat) :
  (idx < List.length x)%nat ->
  ((z_flag x W z_threshold) idx && mean_flag (shift1 (rolling np_mean W x)) min_mean idx = true
   <-> (1 <= W)%nat /\ outlier_at W z_threshold min_mean x idx).
Proof.
  intros Hi. unfold z_flag, mean_flag, z_score_of, outlier_at.
  rewrite nth_map_seq by exact Hi.
  rewrite !nth_shift1_rolling by exact Hi.
  destruct (Nat.leb_spec 1 W) as [H1 | H1];
    destruct (Nat.leb_spec W idx) as [H2 | H2]; simpl andb; cbv iota.
  - rewrite andb_true_iff, !Rgtb_spec. tauto.
  - split; [discriminate | lia].
  - split; [discriminate | lia].
  - split; [discriminate | lia].
Qed.

Lemma z_flag_positive (i : nat) :
  (z_flag x W z_threshold) i = true -> mean_flag (shift1 (rolling np_mean W x)) min_mean i = true -> (1 <= i)%nat.
Proof.
  intros _ Hm. destruct i as [| i]; [| lia].
  unfold mean_flag in Hm. destruct x as [| a t]; simpl in Hm; discriminate.
Qed.

Lemma replace_outliers_run_eq :
  replace_outliers_run x W z_threshold min_mean
  = fold_left (replace_outliers_step (shift1 (rolling np_mean W x)) min_mean)
              (filter (z_flag x W z_threshold) (seq 0 (List.length x)))
              (x, [], None).
Proof.
  unfold replace_outliers_run, np_where_gt. rewrite length_z_score_of. reflexivity.
Qed.

Lemma length_replace_outliers_final :
  List.length (replace_outliers_final x W z_threshold min_mean) = List.length x.
Proof.
  unfold replace_outliers_final. rewrite replace_outliers_run_eq.
  apply (replace_outliers_loop_invariant (shift1 (rolling np_mean W x)) min_mean (z_flag x W z_threshold) x (List.length x)
           z_flag_positive (Nat.le_refl _)).
Qed.

(** Which positions are recorded as changed. *)
Lemma replace_outliers_changed (idx : nat) :
  (1 <= W)%nat -> (idx < List.length x)%nat ->
  (In idx (replace_outliers_changed_idx x W z_threshold min_mean)
   <-> outlier_at W z_threshold min_mean x idx).
Proof.
  intros HW Hi. unfold replace_outliers_changed_idx. rewrite replace_outliers_run_eq.
  destruct (replace_outliers_loop_invariant (shift1 (rolling np_mean W x)) min_mean (z_flag x W z_threshold) x (List.length x)
              z_flag_positive (Nat.le_refl _)) as (_ & Hch & _).
  rewrite Hch, filter_In, in_seq, z_flag_true by exact Hi. split.
  - intros [_ [_ H]]. exact H.
  - intros H. split; [lia | split; [exact HW | exact H]].
Qed.

(** The call is left by [KeyError] when the last point is flagged, and
    returns otherwise. *)
Lemma replace_outliers_raises :
  (1 <= W)%nat -> (1 <= List.length x)%nat ->
  outlier_at W z_threshold min_mean x (List.length x - 1) ->
  replace_outliers x W z_threshold min_mean = inr KeyError.
Proof.
  intros HW Hx Ho. unfold replace_outliers. rewrite replace_outliers_run_eq.
  destruct (replace_outliers_loop_invariant (shift1 (rolling np_mean W x)) min_mean (z_flag x W z_threshold) x (List.length x)
              z_flag_positive (Nat.le_refl _)) as (_ & _ & Hrs & _).
  rewrite Hrs, Nat.eqb_refl.
  replace (1 <=? List.length x)%nat with true
    by (symmetry; apply Nat.leb_le; exact Hx).
  replace (z_flag x W z_threshold (List.length x - 1)
           && mean_flag (shift1 (rolling np_mean W x)) min_mean (List.length x - 1))
    with true
    by (symmetry; apply z_flag_true; [lia | split; assumption]).
  reflexivity.
Qed.

Lemma replace_outliers_returns :
  ~ ((1 <= W)%nat /\ (1 <= List.length x)%nat
     /\ outlier_at W z_threshold min_mean x (List.length x - 1)) ->
  replace_outliers x W z_threshold min_mean
  = inl (replace_outliers_final x W z_threshold min_mean).
Proof.
  intros Hno. unfold replace_outliers.
  replace (snd (replace_outliers_run x W z_threshold min_mean))
    with (@None exception); [reflexivity |].
  rewrite replace_outliers_run_eq.
  destruct (replace_outliers_loop_invariant (shift1 (rolling np_mean W x)) min_mean (z_flag x W z_threshold) x (List.length x)
              z_flag_positive (Nat.le_refl _)) as (_ & _ & Hrs & _).
  rewrite Hrs, Nat.eqb_refl. cbn [andb].
  destruct (Nat.leb_spec 1 (List.length x)) as [Hx | Hx]; [| reflexivity].
  cbn [andb].
  destruct (z_flag x W z_threshold (List.length x - 1)
            && mean_flag (shift1 (rolling np_mean W x)) min_mean (List.length x - 1))
    eqn:E; [| reflexivity].
  exfalso. apply Hno. apply z_flag_true in E; [| lia].
  destruct E as [HW Ho]. split; [exact HW | split; [exact Hx | exact Ho]].
Qed.

(** What is returned is what the object holds. *)
Lemma replace_outliers_inl (out : list R) :
  replace_outliers x W z_threshold min_mean = inl out ->
  out = replace_outliers_final x W z_threshold min_mean.
Proof.
  unfold replace_outliers.
  destruct (snd (replace_outliers_run x W z_threshold min_mean));
    [discriminate | intros H; injection H as <-; reflexivity].
Qed.

(** A call that returns has not flagged the last point. *)
Lemma replace_outliers_inl_last (out : list R) :
  (1 <= W)%nat -> (1 <= List.length x)%nat ->
  replace_outliers x W z_threshold min_mean = inl out ->
  ~ outlier_at W z_threshold min_mean x (List.length x - 1).
Proof.
  intros HW Hx E Ho. rewrite (replace_outliers_raises HW Hx Ho) in E.
  discriminate E.
Qed.

(** What a replaced position holds. *)
Lemma replace_outliers_nth_replaced (idx : nat) :
  (1 <= W)%nat -> (S idx < List.length x)%nat ->
  outlier_at W z_threshold min_mean x idx ->
  nth idx (replace_outliers_final x W z_threshold min_mean) 0
  = (nth (idx - 1) (replace_outliers_final x W z_threshold min_mean) 0
     + nth (S idx) x 0) / 2.
Proof.
  intros HW Hi Ho. unfold replace_outliers_final. rewrite replace_outliers_run_eq.
  destruct (replace_outliers_loop_invariant (shift1 (rolling np_mean W x)) min_mean (z_flag x W z_threshold) x (List.length x)
              z_flag_positive (Nat.le_refl _)) as (_ & _ & _ & _ & Hdone).
  rewrite (Hdone idx ltac:(lia)).
  replace ((z_flag x W z_threshold) idx && mean_flag (shift1 (rolling np_mean W x)) min_mean idx) with true
    by (symmetry; apply z_flag_true; [lia | split; assumption]).
  rewrite (nth_error_nth' x 0 Hi). unfold np_mean, Rsum. simpl. field.
Qed.

(** A flagged last point is recorded and left as it is: the assignment is
    never reached. *)
Lemma replace_outliers_nth_last :
  nth (List.length x - 1) (replace_outliers_final x W z_threshold min_mean) 0
  = nth (List.length x - 1) x 0.
Proof.
  unfold replace_outliers_final. rewrite replace_outliers_run_eq.
  destruct (replace_outliers_loop_invariant (shift1 (rolling np_mean W x)) min_mean (z_flag x W z_threshold) x (List.length x)
              z_flag_positive (Nat.le_refl _)) as (_ & _ & _ & Hrest & Hdone).
  destruct (Nat.lt_ge_cases (List.length x - 1) (List.length x)) as [Hi | Hge].
  - rewrite (Hdone _ Hi).
    replace (S (List.length x - 1)) with (List.length x) by lia.
    replace (nth_error x (List.length x)) with (@None R)
      by (symmetry; apply nth_error_None; lia).
    destruct (z_flag x W z_threshold (List.length x - 1)
              && mean_flag (shift1 (rolling np_mean W x)) min_mean (List.length x - 1));
      reflexivity.
  - rewrite !nth_as_nth_error, (Hrest _ Hge). reflexivity.
Qed.

(** What every other position holds. *)
Lemma replace_outliers_nth_kept (idx : nat) :
  (1 <= W)%nat ->
  ~ outlier_at W z_threshold min_mean x idx ->
  nth idx (replace_outliers_final x W z_threshold min_mean) 0 = nth idx x 0.
Proof.
  intros HW Ho. unfold replace_outliers_final. rewrite replace_outliers_run_eq.
  destruct (replace_outliers_loop_invariant (shift1 (rolling np_mean W x)) min_mean (z_flag x W z_threshold) x (List.length x)
              z_flag_positive (Nat.le_refl _)) as (_ & _ & _ & Hrest & Hdone).
  destruct (Nat.lt_ge_cases idx (List.length x)) as [Hi | Hge].
  - rewrite (Hdone idx Hi).
    destruct ((z_flag x W z_threshold) idx && mean_flag (shift1 (rolling np_mean W x)) min_mean idx) eqn:E; [| reflexivity].
    exfalso. apply Ho. apply z_flag_true in E; [apply E | exact Hi].
  - rewrite !nth_as_nth_error, (Hrest idx Hge). reflexivity.
Qed.

(** With no position flagged the series is returned as it came. *)
Lemma replace_outliers_unchanged :
  (1 <= W)%nat ->
  (forall idx, (idx < List.length x)%nat ->
               ~ outlier_at W z_threshold min_mean x idx) ->
  replace_outliers x W z_threshold min_mean = inl x.
Proof.
  intros HW Hno. rewrite replace_outliers_returns.
  - f_equal. apply (nth_ext _ _ 0 0).
    + apply length_replace_outliers_final.
    + rewrite length_replace_outliers_final. intros i Hi.
      apply replace_outliers_nth_kept; [exact HW | apply Hno, Hi].
  - intros (_ & Hx & Ho). apply (Hno (List.length x - 1)%nat); [lia | exact Ho].
Qed.

End OutlierFacts.

(** Point by point, for a call that returns: a point is replaced exactly
    when the window of [W] points before it is full, its z-score against the
    mean and population deviation of that window exceeds the threshold and
    that mean exceeds the guard; it then holds the average of its left
    neighbour, as the loop has left it, and its right neighbour; every other
    point, so every point before the window is full, keeps its value; and
    the last point is not among the replaced ones. *)
Lemma replace_outliers_returned_pointwise (x out : list R) (W : nat)
    (z_threshold min_mean : R) (idx : nat) :
  (1 <= W)%nat -> (idx < List.length x)%nat ->
  replace_outliers x W z_threshold min_mean = inl out ->
  List.length out = List.length x
  /\ (In idx (replace_outliers_changed_idx x W z_threshold min_mean)
      <-> outlier_at W z_threshold min_mean x idx)
  /\ (outlier_at W z_threshold min_mean x idx ->
      (S idx < List.length x)%nat
      /\ nth idx out 0 = (nth (idx - 1) out 0 + nth (S idx) x 0) / 2)
  /\ (~ outlier_at W z_threshold min_mean x idx -> nth idx out 0 = nth idx x 0)
  /\ ((idx < W)%nat -> nth idx out 0 = nth idx x 0).
Proof.
  intros HW Hi E.
  pose proof (replace_outliers_inl x W z_threshold min_mean out E) as ->.
  split; [apply length_replace_outliers_final |].
  split; [apply replace_outliers_changed; assumption |].
  split.
  - intros Ho.
    assert (Hlt : (S idx < List.length x)%nat).
    { destruct (Nat.eq_dec idx (List.length x - 1)) as [-> | Hne]; [| lia].
      exfalso.
      apply (replace_outliers_inl_last x W z_threshold min_mean _ HW
               ltac:(lia) E Ho). }
    split; [exact Hlt |]. apply replace_outliers_nth_replaced; assumption.
  - split; [apply replace_outliers_nth_kept; assumption |].
    intros Hlt. apply replace_outliers_nth_kept; [exact HW |].
    intros (Hle & _). lia.
Qed.

(** *** Evaluating the filter on concrete series *)

Lemma EPSILON_pos : 0 < EPSILON.
Proof. unfold EPSILON. apply Rinv_0_lt_compat. lra. Qed.

Lemma Rsum_constant (c : R) (w : list R) :
  Forall (eq c) w -> Rsum w = INR (List.length w) * c.
Proof.
  induction 1 as [| v w Hv _ IH].
  - simpl. ring.
  - subst v. change (Rsum (c :: w)) with (c + Rsum w).
    change (List.length (c :: w)) with (S (List.length w)).
    rewrite IH, S_INR. ring.
Qed.

(** A window that holds one value throughout: that value is its mean and
    its deviation is zero. *)
Lemma constant_window_stats (c : R) (w : list R) :
  Forall (eq c) w -> w <> [] -> np_mean w = c /\ np_std0 w = 0.
Proof.
  intros Hc Hne.
  assert (Hlen : INR (List.length w) <> 0).
  { apply not_0_INR. destruct w; [congruence | discriminate]. }
  assert (Hm : np_mean w = c).
  { unfold np_mean. rewrite (Rsum_constant c w Hc). field. exact Hlen. }
  split; [exact Hm |].
  unfold np_std0, np_var0. rewrite Hm.
  assert (Hz : Forall (eq 0) (map (fun v => (v - c) * (v - c)) w)).
  { rewrite Forall_map. eapply Forall_impl; [| exact Hc].
    intros v <-. ring. }
  rewrite (Rsum_constant 0 _ Hz). rewrite Rmult_0_r.
  unfold Rdiv. rewrite Rmult_0_l. apply sqrt_0.
Qed.

Lemma outlier_after_constant_window (W : nat) (z_threshold min_mean : R)
    (x : list R) (idx : nat) (c : R) :
  (1 <= W <= idx)%nat ->
  Forall (eq c) (trailing W x idx) -> trailing W x idx <> [] ->
  (nth idx x 0 - c) / EPSILON > z_threshold -> c > min_mean ->
  outlier_at W z_threshold min_mean x idx.
Proof.
  intros HW Hc Hne Hz Hm.
  destruct (constant_window_stats c _ Hc Hne) as [Em Es].
  unfold outlier_at. rewrite Em, Es, Rplus_0_l.
  split; [lia | split; assumption].
Qed.

Lemma not_outlier_below_mean (W : nat) (z_threshold min_mean : R)
    (x : list R) (idx : nat) :
  0 <= z_threshold ->
  nth idx x 0 <= np_mean (trailing W x idx) ->
  ~ outlier_at W z_threshold min_mean x idx.
Proof.
  intros Ht Hle (_ & Hz & _).
  assert (Hd : 0 < np_std0 (trailing W x idx) + EPSILON).
  { pose proof EPSILON_pos. pose proof (sqrt_pos (np_var0 (trailing W x idx))).
    unfold np_std0. lra. }
  assert (Hq : (nth idx x 0 - np_mean (trailing W x idx))
               / (np_std0 (trailing W x idx) + EPSILON) <= 0).
  { unfold Rdiv. pose proof (Rinv_0_lt_compat _ Hd) as Hinv.
    assert (Hnum : nth idx x 0 - np_mean (trailing W x idx) <= 0) by lra.
    nra. }
  lra.
Qed.

Lemma not_outlier_before_window (W : nat) (z_threshold min_mean : R)
    (x : list R) (idx : nat) :
  (idx < W)%nat -> ~ outlier_at W z_threshold min_mean x idx.
Proof. intros Hlt (Hle & _). lia. Qed.

Lemma INR_14 : INR 14 = 14.
Proof. rewrite INR_IZR_INZ. reflexivity. Qed.

Ltac below_mean :=
  apply not_outlier_below_mean; [lra |];
  cbv [trailing firstn skipn Nat.sub spike_series spike_once nth List.length];
  unfold np_mean, Rsum; cbn [fold_right List.length]; rewrite INR_14; lra.

Ltac constant_window :=
  apply (outlier_after_constant_window _ _ _ _ _ 6);
  [ lia
  | cbv [trailing firstn skipn Nat.sub spike_series spike_once spike_last];
    repeat constructor
  | cbv [trailing firstn skipn Nat.sub spike_series spike_once spike_last];
    discriminate
  | cbv [nth spike_series spike_once spike_last]; unfold EPSILON, Rdiv;
    rewrite Rinv_inv; lra
  | lra ].

Lemma spike_series_outlier : outlier_at 14 10 5 spike_series 14.
Proof. constant_window. Qed.

Lemma spike_once_outlier : outlier_at 14 10 5 spike_once 16.
Proof. constant_window. Qed.

Lemma spike_last_outlier : outlier_at 14 10 5 spike_last 14.
Proof. constant_window. Qed.

Lemma spike_series_last_kept : ~ outlier_at 14 10 5 spike_series 17.
Proof. below_mean. Qed.

Lemma spike_once_last_kept : ~ outlier_at 14 10 5 spike_once 17.
Proof. below_mean. Qed.

Lemma nth_spike_14 : nth 14 (replace_outliers_final spike_series 14 10 5) 0 = 6.
Proof.
  rewrite replace_outliers_nth_replaced;
    [| lia | simpl; lia | exact spike_series_outlier].
  rewrite replace_outliers_nth_kept;
    [| lia | apply not_outlier_before_window; lia].
  cbv [nth spike_series Nat.sub]. lra.
Qed.

(** One pass on the spike series: the call returns, the spike replaced. *)
Lemma replace_outliers_spike_series :
  replace_outliers spike_series 14 10 5 = inl spike_once.
Proof.
  rewrite replace_outliers_returns
    by (intros (_ & _ & Ho); exact (spike_series_last_kept Ho)).
  f_equal. apply (nth_ext _ _ 0 0).
  - rewrite length_replace_outliers_final. reflexivity.
  - rewrite length_replace_outliers_final. intros i Hi.
    change (List.length spike_series) with 18%nat in Hi.
    destruct (Nat.eq_dec i 14) as [-> | H14]; [exact nth_spike_14 |].
    rewrite replace_outliers_nth_kept; [| lia |].
    + do 18 (destruct i as [| i]; [try reflexivity; lia |]). lia.
    + destruct (Nat.lt_ge_cases i 14) as [Hlt | Hge];
        [apply not_outlier_before_window, Hlt |].
      assert (Hc : i = 15%nat \/ i = 16%nat \/ i = 17%nat) by lia.
      destruct Hc as [-> | [-> | ->]]; below_mean.
Qed.

(** A second pass returns as well, and has replaced the 50 that the first
    pass left in place. *)
Lemma replace_outliers_spike_once :
  exists twice,
    replace_outliers spike_once 14 10 5 = inl twice /\ nth 16 twice 0 = 6.
Proof.
  exists (replace_outliers_final spike_once 14 10 5). split.
  - apply replace_outliers_returns.
    intros (_ & _ & Ho). exact (spike_once_last_kept Ho).
  - rewrite replace_outliers_nth_replaced;
      [| lia | simpl; lia | exact spike_once_outlier].
    rewrite replace_outliers_nth_kept; [| lia | below_mean].
    cbv [nth spike_once Nat.sub]. lra.
Qed.

(** C7: the clause on the last point fails in the code.  When the last point
    of the series is flagged, [x[idx + 1]] looks up a label the index does
    not hold; that raises [KeyError], which the handler for [IndexError]
    does not catch, so the call is left by the exception: nothing is
    returned, and the flagged point still holds its value, not that of its
    left neighbour. *)
Theorem replace_outliers_flagged_last_point_raises (x : list R) (W : nat)
    (z_threshold min_mean : R) :
  (1 <= W)%nat -> (1 <= List.length x)%nat ->
  outlier_at W z_threshold min_mean x (List.length x - 1) ->
  replace_outliers x W z_threshold min_mean = inr KeyError
  /\ In (List.length x - 1)%nat
        (replace_outliers_changed_idx x W z_threshold min_mean)
  /\ nth (List.length x - 1) (replace_outliers_final x W z_threshold min_mean) 0
     = nth (List.length x - 1) x 0.
Proof.
  intros HW Hx Ho.
  split; [apply replace_outliers_raises; assumption |].
  split; [apply replace_outliers_changed; [exact HW | lia | exact Ho] |].
  apply replace_outliers_nth_last.
Qed.

Lemma replace_outliers_flagged_last_point_raises_witness :
  (1 <= 14)%nat /\ (1 <= List.length spike_last)%nat
  /\ outlier_at 14 10 5 spike_last (List.length spike_last - 1)
  /\ replace_outliers spike_last 14 10 5 = inr KeyError
  /\ nth 14 (replace_outliers_final spike_last 14 10 5) 0 = 1000
  /\ nth 13 spike_last 0 = 6.
Proof.
  assert (HW : (1 <= 14)%nat) by lia.
  assert (Hx : (1 <= List.length spike_last)%nat) by (simpl; lia).
  assert (Ho : outlier_at 14 10 5 spike_last (List.length spike_last - 1))
    by exact spike_last_outlier.
  split; [exact HW | split; [exact Hx | split; [exact Ho |]]].
  destruct (replace_outliers_flagged_last_point_raises spike_last 14 10 5 HW Hx Ho)
    as (Hr & _ & Hv).
  split; [exact Hr | split; [exact Hv | reflexivity]].
Defined.

(** C9, as stated, fails on the spike series: the spike inflates the mean of
    the windows after it, so the 50 two days later passes the first time;
    with the spike gone the same 50 is flagged and replaced by 6.  Both
    passes return. *)
Lemma replace_outliers_not_idempotent :
  exists once twice,
    replace_outliers spike_series 14 10 5 = inl once
    /\ replace_outliers once 14 10 5 = inl twice
    /\ twice <> once.
Proof.
  destruct replace_outliers_spike_once as (twice & E2 & H16).
  exists spike_once, twice.
  split; [exact replace_outliers_spike_series |].
  split; [exact E2 |].
  intros H. rewrite H in H16. cbv [nth spike_once] in H16. lra.
Qed.

(** C9 as the code has it: on a series where no point is flagged the filter
    returns the series as it came, and a second pass then equals the
    first. *)
Theorem replace_outliers_idempotent_without_outliers (x : list R) (W : nat)
    (z_threshold min_mean : R) :
  (1 <= W)%nat ->
  (forall idx, (idx < List.length x)%nat ->
               ~ outlier_at W z_threshold min_mean x idx) ->
  replace_outliers x W z_threshold min_mean = inl x
  /\ (forall once, replace_outliers x W z_threshold min_mean = inl once ->
        replace_outliers once W z_threshold min_mean
        = replace_outliers x W z_threshold min_mean).
Proof.
  intros HW Hno.
  pose proof (replace_outliers_unchanged x W z_threshold min_mean HW Hno) as E.
  split; [exact E |]. intros once Ho. rewrite E in Ho.
  injection Ho as <-. reflexivity.
Qed.

Lemma replace_outliers_idempotent_without_outliers_witness :
  (1 <= 14)%nat
  /\ (forall idx, (idx < List.length short_series)%nat ->
                  ~ outlier_at 14 10 5 short_series idx)
  /\ replace_outliers short_series 14 10 5 = inl short_series
  /\ (forall once, replace_outliers short_series 14 10 5 = inl once ->
        replace_outliers once 14 10 5 = replace_outliers short_series 14 10 5).
Proof.
  assert (HW : (1 <= 14)%nat) by lia.
  assert (Hno : forall idx, (idx < List.length short_series)%nat ->
                            ~ outlier_at 14 10 5 short_series idx).
  { intros idx Hi. apply not_outlier_before_window. simpl in Hi. lia. }
  split; [exact HW | split; [exact Hno |]].
  apply (replace_outliers_idempotent_without_outliers short_series 14 10 5 HW Hno).
Defined.

(** ** The series as a mutable object *)

Lemma series_at_list_set_same (h : store) (ref : nat) (v : list R) :
  (ref < List.length h)%nat -> series_at (list_set h ref v) ref = v.
Proof. intros H. unfold series_at. apply nth_list_set_same, H. Qed.

Lemma series_at_list_set_other (h : store) (ref other : nat) (v : list R) :
  ref <> other -> series_at (list_set h ref v) other = series_at h other.
Proof. intros H. unfold series_at. apply nth_list_set_other, H. Qed.




(** * Further properties of the code *)

(** ** [align_time_series] *)

Lemma Rsum_map_plus {A : Type} (g h : A -> R) (l : list A) :
  Rsum (map (fun a => g a + h a) l) = Rsum (map g l) + Rsum (map h l).
Proof. induction l as [| a l IH]; simpl; [| rewrite IH]; ring. Qed.

Lemma Rsum_map_scal {A : Type} (c : R) (g : A -> R) (l : list A) :
  Rsum (map (fun a => c * g a) l) = c * Rsum (map g l).
Proof. induction l as [| a l IH]; simpl; [| rewrite IH]; ring. Qed.

Lemma Rsum_map_zero {A : Type} (l : list A) : Rsum (map (fun _ => 0) l) = 0.
Proof. induction l as [| a l IH]; simpl; [| rewrite IH]; ring. Qed.

Lemma Rsum_swap {A B : Type} (f : A -> B -> R) (K : list A) (L : list B) :
  Rsum (map (fun k => Rsum (map (fun l => f k l) L)) K)
  = Rsum (map (fun l => Rsum (map (fun k => f k l) K)) L).
Proof.
  induction K as [| k K IH]; simpl.
  - rewrite Rsum_map_zero. reflexivity.
  - rewrite IH, <- Rsum_map_plus. reflexivity.
Qed.

Lemma Rsum_app (a b : list R) : Rsum (a ++ b) = Rsum a + Rsum b.
Proof. induction a as [| v a IH]; simpl; [| rewrite IH]; ring. Qed.

Lemma Rsum_nth_seq (x : list R) :
  Rsum (map (fun l => nth l x 0) (seq 0 (List.length x))) = Rsum x.
Proof.
  induction x as [| v x IH]; [reflexivity |].
  cbn [List.length seq map]. rewrite <- seq_shift, map_map.
  change (Rsum (nth 0 (v :: x) 0 :: map (fun l => nth (S l) (v :: x) 0)
                                         (seq 0 (List.length x))))
    with (v + Rsum (map (fun l => nth l x 0) (seq 0 (List.length x)))).
  rewrite IH. reflexivity.
Qed.

(** One cell of a row of zeros. *)
Lemma Rsum_indicator (c K : nat) (v : R) :
  Rsum (map (fun k => if Nat.eqb k c then v else 0) (seq 0 K))
  = if (c <? K)%nat then v else 0.
Proof.
  induction K as [| K IH]; [reflexivity |].
  rewrite seq_S, map_app, Rsum_app, IH. cbn [map Rsum fold_right Nat.add].
  destruct (Nat.eqb_spec K c) as [-> | Hne].
  - rewrite Nat.ltb_irrefl.
    destruct (Nat.ltb_spec c (S c)); [ring | lia].
  - destruct (Nat.ltb_spec c K), (Nat.ltb_spec c (S K)); try lia; ring.
Qed.

Lemma at_or_zero_cons (v : R) (t : list R) (m : Z) :
  at_or_zero (v :: t) m
  = (if (m =? 0)%Z then v else 0) + at_or_zero t (m - 1).
Proof.
  unfold at_or_zero. cbn [List.length].
  destruct (Z.eqb_spec m 0) as [-> | Hne].
  - simpl. destruct t; simpl; ring.
  - destruct (Z.leb_spec 0 m) as [H0 | H0]; cbn [andb].
    + destruct (Z.ltb_spec m (Z.of_nat (S (List.length t)))) as [H1 | H1];
        destruct (Z.leb_spec 0 (m - 1)) as [H2 | H2]; try lia; cbn [andb];
        destruct (Z.ltb_spec (m - 1) (Z.of_nat (List.length t))) as [H3 | H3];
        try lia; try ring.
      replace (Z.to_nat m) with (S (Z.to_nat (m - 1))) by lia.
      cbn [nth]. ring.
    + destruct (Z.leb_spec 0 (m - 1)); [lia |]. cbn [andb]. ring.
Qed.

(** A window of offsets that covers the whole of [y] sums to the sum of [y]. *)
Lemma Rsum_at_or_zero_window (y : list R) (c : Z) (K : nat) :
  (Z.of_nat (List.length y) - 1 <= c)%Z -> (c - Z.of_nat K + 1 <= 0)%Z ->
  Rsum (map (fun k => at_or_zero y (c - Z.of_nat k)) (seq 0 K)) = Rsum y.
Proof.
  revert c. induction y as [| v t IH]; intros c Hlo Hhi.
  - rewrite (map_ext _ (fun _ => 0)); [apply Rsum_map_zero |].
    intros k. unfold at_or_zero.
    destruct ((0 <=? c - Z.of_nat k)%Z
              && (c - Z.of_nat k <? Z.of_nat (List.length (@nil R)))%Z);
      [| reflexivity].
    destruct (Z.to_nat (c - Z.of_nat k)); reflexivity.
  - cbn [List.length] in Hlo.
    rewrite (map_ext _ (fun k => (if Nat.eqb k (Z.to_nat c) then v else 0)
                                 + at_or_zero t (c - 1 - Z.of_nat k))).
    + rewrite Rsum_map_plus, Rsum_indicator, IH by lia.
      destruct (Nat.ltb_spec (Z.to_nat c) K); [reflexivity | lia].
    + intros k. rewrite at_or_zero_cons. f_equal.
      * destruct (Z.eqb_spec (c - Z.of_nat k) 0), (Nat.eqb_spec k (Z.to_nat c));
          try reflexivity; lia.
      * f_equal. lia.
Qed.

Lemma length_signal_correlate (x y : list R) :
  List.length (signal_correlate x y)
  = (List.length x + List.length y - 1)%nat.
Proof. unfold signal_correlate. rewrite length_map, length_seq. reflexivity. Qed.

(** Summed over all lags, the cross-correlation of two arrays of one length
    is the product of their sums. *)
Lemma Rsum_signal_correlate (x y : list R) :
  List.length x = List.length y ->
  Rsum (signal_correlate x y) = Rsum x * Rsum y.
Proof.
  intros Hlen. unfold signal_correlate.
  rewrite (Rsum_swap (fun k l =>
             nth l x 0 * at_or_zero y (Z.of_nat l - Z.of_nat k
                                       + Z.of_nat (List.length x) - 1))).
  rewrite (map_ext_in _ (fun l => Rsum y * nth l x 0)).
  - rewrite Rsum_map_scal, Rsum_nth_seq. ring.
  - intros l Hl. apply in_seq in Hl. rewrite Rsum_map_scal.
    rewrite (map_ext _ (fun k => at_or_zero y
               ((Z.of_nat l + Z.of_nat (List.length x) - 1) - Z.of_nat k)))
      by (intros k; f_equal; lia).
    rewrite Rsum_at_or_zero_window by lia. ring.
Qed.

Lemma length_valid_pairs_fst (a b : column) :
  List.length (map fst (valid_pairs a b)) = List.length (map snd (valid_pairs a b)).
Proof. rewrite !length_map. reflexivity. Qed.

(** X1: the score of a shift is the product of the sum of the valid
    differences of the first series and the sum of the valid differences of
    the shifted second series, over [2 n - 1] for [n] valid positions: it
    does not depend on how the two are paired. *)
Theorem xcor_at_product_of_sums (_series_a series_b : column) (i : Z) (c : R) :
  xcor_at _series_a series_b i = Some c ->
  valid_pairs _series_a (np_diff (series_shift i series_b)) <> []
  /\ c = Rsum (map fst (valid_pairs _series_a (np_diff (series_shift i series_b))))
         * Rsum (map snd (valid_pairs _series_a (np_diff (series_shift i series_b))))
         / INR (2 * List.length
                      (valid_pairs _series_a (np_diff (series_shift i series_b))) - 1).
Proof.
  unfold xcor_at.
  destruct (valid_pairs _series_a (np_diff (series_shift i series_b)))
    as [| p ps] eqn:E; [discriminate |].
  remember (p :: ps) as vp eqn:Evp.
  intros H. split; [subst vp; discriminate |].
  assert (Hc : c = np_mean (signal_correlate (map fst vp) (map snd vp)))
    by (subst vp; injection H as <-; reflexivity).
  rewrite Hc. unfold np_mean.
  rewrite Rsum_signal_correlate by (rewrite !length_map; reflexivity).
  rewrite length_signal_correlate, !length_map.
  replace (List.length vp + List.length vp - 1)%nat
    with (2 * List.length vp - 1)%nat by lia.
  reflexivity.
Qed.

Lemma xcor_at_product_of_sums_witness :
  xcor_at [Some 2] [Some 1; Some 4] 0
    = Some (np_mean (signal_correlate [2] [4 - 1]))
  /\ np_mean (signal_correlate [2] [4 - 1])
     = Rsum [2] * Rsum [4 - 1] / INR (2 * 1 - 1).
Proof.
  assert (H : xcor_at [Some 2] [Some 1; Some 4] 0
              = Some (np_mean (signal_correlate [2] [4 - 1]))) by reflexivity.
  split; [exact H |].
  exact (proj2 (xcor_at_product_of_sums _ _ _ _ H)).
Defined.

Lemma argmax_from_bound (l : list R) (bi : nat) (b : R) (i : nat) :
  (bi < i)%nat -> (argmax_from bi b i l < i + List.length l)%nat.
Proof.
  revert bi b i. induction l as [| v t IH]; intros bi b i Hbi; simpl.
  - lia.
  - destruct (Rgt_dec v b).
    + specialize (IH i v (S i) ltac:(lia)). lia.
    + specialize (IH bi b (S i) ltac:(lia)). lia.
Qed.

Lemma np_argmax_bound (l : list R) (k : nat) :
  np_argmax l = Some k -> (k < List.length l)%nat.
Proof.
  destruct l as [| v t]; [discriminate |]. intros H. injection H as <-.
  pose proof (argmax_from_bound t 0 v 1 ltac:(lia)). simpl. lia.
Qed.

Lemma In_shifts (s : Z) : In s shifts -> (-21 <= s <= 4)%Z.
Proof.
  unfold shifts. rewrite in_map_iff. intros (k & <- & Hk).
  apply in_seq in Hk. lia.
Qed.

Lemma scored_shifts_in_shifts (a b : column) (s : Z) :
  In s (map fst (scored_shifts a b)) -> In s shifts.
Proof.
  unfold scored_shifts. rewrite in_map_iff.
  intros ([s' c] & <- & Hin). apply in_flat_map in Hin.
  destruct Hin as (i & Hi & Hc).
  destruct (xcor_at (np_diff a) b i); [| contradiction].
  destruct Hc as [Hc | []]. injection Hc as <- _. exact Hi.
Qed.

(** X2: on two series of one length the aligner always returns a shift, and
    the shift it returns lies in -21 .. 4. *)
Theorem align_time_series_range (series_a series_b : column) :
  List.length series_a = List.length series_b ->
  exists s, align_time_series series_a series_b = Some s
            /\ (-21 <= s <= 4)%Z.
Proof.
  intros Hlen. unfold align_time_series.
  rewrite (proj2 (Nat.eqb_eq _ _) Hlen).
  destruct (np_argmax (map snd (scored_shifts series_a series_b))) as [k |] eqn:E.
  - eexists. split; [reflexivity |].
    apply In_shifts, (scored_shifts_in_shifts series_a series_b), nth_In.
    apply np_argmax_bound in E. rewrite length_map in *. exact E.
  - exists 0%Z. split; [reflexivity | lia].
Qed.

Lemma align_time_series_range_witness :
  List.length [Some 1; Some 3; Some 2] = List.length [Some 2; Some 2; Some 5]
  /\ exists s, align_time_series [Some 1; Some 3; Some 2] [Some 2; Some 2; Some 5]
               = Some s
               /\ (-21 <= s <= 4)%Z.
Proof.
  split; [reflexivity |].
  exact (align_time_series_range [Some 1; Some 3; Some 2]
           [Some 2; Some 2; Some 5] eq_refl).
Defined.

Lemma np_diff_all_nan (l : column) :
  Forall (fun c => c = None) l -> Forall (fun c => c = None) (np_diff l).
Proof.
  induction 1 as [| a t Ha Ht IH]; [constructor |].
  destruct t as [| b t']; [constructor |].
  change (np_diff (a :: b :: t'))
    with (match a, b with
          | Some u, Some v => Some (v - u)
          | _, _ => None
          end :: np_diff (b :: t')).
  constructor; [| exact IH]. subst a. reflexivity.
Qed.

Lemma Forall_firstn_skipn {A : Type} (P : A -> Prop) (n : nat) (l : list A) :
  Forall P l -> Forall P (firstn n l) /\ Forall P (skipn n l).
Proof.
  intros H. rewrite <- (firstn_skipn n l) in H. apply Forall_app in H. exact H.
Qed.

Lemma Forall_repeat {A : Type} (P : A -> Prop) (a : A) (n : nat) :
  P a -> Forall P (repeat a n).
Proof. intros H. induction n; simpl; constructor; assumption. Qed.

Lemma series_shift_all_nan (i : Z) (l : column) :
  Forall (fun c => c = None) l -> Forall (fun c => c = None) (series_shift i l).
Proof.
  intros H. unfold series_shift. destruct (0 <=? i)%Z.
  - apply Forall_firstn_skipn, Forall_app. split; [| exact H].
    apply Forall_repeat. reflexivity.
  - apply Forall_app. split.
    + apply Forall_firstn_skipn, H.
    + apply Forall_repeat. reflexivity.
Qed.

Lemma valid_pairs_nan_r (a b : column) :
  Forall (fun c => c = None) b -> valid_pairs a b = [].
Proof.
  intros H. revert a. induction H as [| y b Hy _ IH]; intros [| x a];
    try reflexivity.
  subst y. unfold valid_pairs in *. cbn [combine flat_map].
  rewrite IH. destruct x; reflexivity.
Qed.

Lemma valid_pairs_nan_l (a b : column) :
  Forall (fun c => c = None) a -> valid_pairs a b = [].
Proof.
  intros H. revert b. induction H as [| x a Hx _ IH]; intros [| y b];
    try reflexivity.
  subst x. unfold valid_pairs in *. cbn [combine flat_map].
  rewrite IH. reflexivity.
Qed.

Lemma scored_shifts_empty (a b : column) :
  (forall i, xcor_at (np_diff a) b i = None) -> scored_shifts a b = [].
Proof.
  intros H. unfold scored_shifts.
  induction shifts as [| i l IH]; [reflexivity |].
  cbn [flat_map]. rewrite H, IH. reflexivity.
Qed.

(** X3: when no shift leaves a position where both differences are there,
    the aligner falls back to a shift of 0.  That is so when one of the two
    series is NaN throughout and when the series have at most one point. *)
Theorem align_time_series_no_overlap (series_a series_b : column) :
  List.length series_a = List.length series_b ->
  Forall (fun c => c = None) series_a
  \/ Forall (fun c => c = None) series_b
  \/ (List.length series_a <= 1)%nat ->
  align_time_series series_a series_b = Some 0%Z.
Proof.
  intros Hlen Hcase. unfold align_time_series.
  rewrite (proj2 (Nat.eqb_eq _ _) Hlen).
  rewrite scored_shifts_empty; [reflexivity |].
  intros i. unfold xcor_at.
  destruct Hcase as [Ha | [Hb | Hshort]].
  - rewrite valid_pairs_nan_l; [reflexivity | apply np_diff_all_nan, Ha].
  - rewrite valid_pairs_nan_r; [reflexivity |].
    apply np_diff_all_nan, series_shift_all_nan, Hb.
  - destruct series_a as [| x [| y t]]; try reflexivity. simpl in Hshort. lia.
Qed.

Lemma align_time_series_no_overlap_witness :
  List.length [Some 1; Some 3; Some 2] = List.length (@repeat (option R) None 3)
  /\ align_time_series [Some 1; Some 3; Some 2] (repeat None 3) = Some 0%Z.
Proof.
  split; [reflexivity |].
  apply (align_time_series_no_overlap [Some 1; Some 3; Some 2] (repeat None 3)
           eq_refl).
  right. left. repeat constructor.
Defined.

(** ** Shifting a lagging indicator and filling the gaps *)

Lemma length_interpolate_from (last : option (R * nat)) (l : column) :
  List.length (interpolate_from last l) = List.length l.
Proof.
  revert last. induction l as [| [v |] t IH]; intros last; simpl.
  - reflexivity.
  - rewrite IH. reflexivity.
  - destruct last as [[a p] |]; simpl; rewrite IH; reflexivity.
Qed.

Lemma interpolate_from_keeps (last : option (R * nat)) (l : column) (k : nat) (v : R) :
  nth_error l k = Some (Some v) ->
  nth_error (interpolate_from last l) k = Some (Some v).
Proof.
  revert last k. induction l as [| [w |] t IH]; intros last [| k] H;
    simpl in *; try discriminate.
  - exact H.
  - apply IH, H.
  - destruct last as [[a p] |]; simpl; apply IH, H.
Qed.

Lemma interpolate_from_nan (last : option (R * nat)) (l : column) (k : nat) :
  nth_error (interpolate_from last l) k = Some None
  <-> last = None /\ (k < List.length l)%nat
      /\ forall j, (j <= k)%nat -> nth_error l j = Some None.
Proof.
  revert last k. induction l as [| [w |] t IH]; intros last k.
  - simpl. split.
    + destruct k; discriminate.
    + intros (_ & Hk & _). lia.
  - cbn [interpolate_from]. split.
    + destruct k as [| k]; cbn [nth_error]; [discriminate |].
      intros H. apply IH in H. destruct H as [H _]. discriminate H.
    + intros (_ & _ & H). specialize (H 0%nat ltac:(lia)). discriminate H.
  - destruct last as [[a p] |]; cbn [interpolate_from].
    + split; [| intros (H & _); discriminate H].
      destruct k as [| k]; cbn [nth_error].
      * destruct (next_valid t) as [[d b] |]; discriminate.
      * intros H. apply IH in H. destruct H as [H _]. discriminate H.
    + destruct k as [| k]; cbn [nth_error List.length].
      * split; [| reflexivity]. intros _.
        split; [reflexivity | split; [lia |]].
        intros j Hj. replace j with 0%nat by lia. reflexivity.
      * rewrite IH. split.
        -- intros (_ & Hk & H). split; [reflexivity | split; [lia |]].
           intros [| j] Hj; [reflexivity | apply H; lia].
        -- intros (_ & Hk & H). split; [reflexivity | split; [lia |]].
           intros j Hj. apply (H (S j)). lia.
Qed.

(** X4: forward linear interpolation keeps the length and every value that
    is there, and it leaves a cell NaN exactly when that cell and all the
    cells before it are NaN: the gaps after the first value are all filled,
    the cells before it never are. *)
Theorem interpolate_forward_fills (l : column) :
  List.length (interpolate_forward l) = List.length l
  /\ (forall k v, nth_error l k = Some (Some v) ->
                  nth_error (interpolate_forward l) k = Some (Some v))
  /\ (forall k, nth_error (interpolate_forward l) k = Some None
                <-> (k < List.length l)%nat
                    /\ forall j, (j <= k)%nat -> nth_error l j = Some None).
Proof.
  unfold interpolate_forward. split; [apply length_interpolate_from |].
  split; [intros k v; apply interpolate_from_keeps |].
  intros k. rewrite interpolate_from_nan. tauto.
Qed.

Lemma interpolate_from_values (last : option (R * nat)) (w : list R) :
  interpolate_from last (map Some w) = map Some w.
Proof.
  revert last. induction w as [| v w IH]; intros last; simpl;
    [| rewrite IH]; reflexivity.
Qed.

Lemma interpolate_from_leading (l : column) (k : nat) :
  interpolate_from None (repeat None k ++ l)
  = repeat None k ++ interpolate_from None l.
Proof. induction k as [| k IH]; simpl; [| rewrite IH]; reflexivity. Qed.

Lemma next_valid_nans (k : nat) : next_valid (repeat None k) = None.
Proof. induction k as [| k IH]; simpl; [| rewrite IH]; reflexivity. Qed.

Lemma interpolate_from_trailing (a : R) (p k : nat) :
  interpolate_from (Some (a, p)) (repeat None k) = repeat (Some a) k.
Proof.
  revert p. induction k as [| k IH]; intros p; simpl; [reflexivity |].
  rewrite next_valid_nans, IH. reflexivity.
Qed.

Lemma interpolate_from_values_then_nans (last : option (R * nat)) (w : list R)
    (k : nat) :
  w <> [] ->
  interpolate_from last (map Some w ++ repeat None k)
  = map Some w ++ repeat (Some (List.last w 0)) k.
Proof.
  revert last. induction w as [| v w IH]; intros last Hne; [congruence |].
  destruct w as [| v' w'].
  - simpl. rewrite interpolate_from_trailing. reflexivity.
  - change (map Some (v :: v' :: w') ++ repeat None k)
      with (Some v :: (map Some (v' :: w') ++ repeat None k)).
    cbn [interpolate_from]. rewrite IH by discriminate. reflexivity.
Qed.

Lemma last_skipn (l : list R) (k : nat) (d : R) :
  (k < List.length l)%nat -> List.last (skipn k l) d = List.last l d.
Proof.
  revert k. induction l as [| v l IH]; intros k Hk; [simpl in Hk; lia |].
  destruct k as [| k]; [reflexivity |].
  simpl in Hk. rewrite skipn_cons, IH by lia.
  destruct l; [simpl in Hk; lia | reflexivity].
Qed.

(** X5: on a column without NaN, a lag of [k >= 0] days moves the values
    [k] dates down and leaves the first [k] dates without a value, and a
    lag of [-k] days moves them [k] dates up and repeats the final value on
    the last [k] dates. *)
Theorem shift_and_fill_complete_column (vals : list R) (k : nat) :
  (k < List.length vals)%nat ->
  shift_and_fill (Z.of_nat k) (map Some vals)
    = repeat None k ++ map Some (firstn (List.length vals - k) vals)
  /\ shift_and_fill (- Z.of_nat k) (map Some vals)
     = map Some (skipn k vals) ++ repeat (Some (List.last vals 0)) k.
Proof.
  intros Hk.
  assert (Hpos : shift_and_fill (Z.of_nat k) (map Some vals)
                 = repeat None k ++ map Some (firstn (List.length vals - k) vals)).
  { unfold shift_and_fill, series_shift, interpolate_forward.
    destruct (Z.leb_spec 0 (Z.of_nat k)) as [_ | H]; [| lia].
    rewrite Nat2Z.id, length_map, firstn_app, repeat_length.
    rewrite (firstn_all2 (repeat None k)) by (rewrite repeat_length; lia).
    rewrite <- firstn_map, interpolate_from_leading.
    rewrite firstn_map, interpolate_from_values. reflexivity. }
  split; [exact Hpos |].
  destruct k as [| k].
  - change (- Z.of_nat 0)%Z with (Z.of_nat 0). rewrite Hpos.
    rewrite Nat.sub_0_r, firstn_all. simpl. rewrite app_nil_r. reflexivity.
  - unfold shift_and_fill, series_shift, interpolate_forward.
    destruct (Z.leb_spec 0 (- Z.of_nat (S k))) as [H | _]; [lia |].
    rewrite Z.opp_involutive, Nat2Z.id, length_map.
    rewrite Nat.min_l by lia. rewrite <- skipn_map.
    rewrite skipn_map, interpolate_from_values_then_nans.
    + rewrite last_skipn by exact Hk. reflexivity.
    + intros E. apply (f_equal (@List.length R)) in E.
      rewrite length_skipn in E. simpl in E. lia.
Qed.

Lemma shift_and_fill_complete_column_witness :
  (1 < List.length sample_values)%nat
  /\ shift_and_fill 1 (map Some sample_values) = [None; Some 1; Some 2]
  /\ shift_and_fill (-1) (map Some sample_values) = [Some 2; Some 4; Some 4].
Proof.
  split; [simpl; lia |].
  exact (shift_and_fill_complete_column sample_values 1 ltac:(simpl; lia)).
Defined.

(** ** Admissions from current occupancy *)

Lemma length_np_diff_values (l : list R) :
  List.length (np_diff_values l) = (List.length l - 1)%nat.
Proof.
  induction l as [| a t IH]; [reflexivity |].
  destruct t as [| b t']; [reflexivity |].
  change (np_diff_values (a :: b :: t')) with ((b - a) :: np_diff_values (b :: t')).
  simpl List.length in *. rewrite IH. lia.
Qed.

Lemma length_removelast_values (l : list R) :
  List.length (removelast l) = (List.length l - 1)%nat.
Proof.
  rewrite removelast_firstn_len, length_firstn. lia.
Qed.

Lemma length_zip_with {A B C : Type} (f : A -> B -> C) (a : list A) (b : list B) :
  List.length (zip_with f a b) = Nat.min (List.length a) (List.length b).
Proof.
  revert b. induction a as [| x a IH]; intros [| y b]; simpl; try reflexivity.
  rewrite IH. reflexivity.
Qed.

Lemma length_tl {A : Type} (l : list A) :
  List.length (tl l) = (List.length l - 1)%nat.
Proof. destruct l; simpl; lia. Qed.

Lemma nth_reconstructed (c : R) (h : list R) (i : nat) :
  (S i < List.length h)%nat ->
  nth i (zip_with Rplus (np_diff_values h) (map (fun v => v * c) (removelast h))) 0
  = nth (S i) h 0 - nth i h 0 + nth i h 0 * c.
Proof.
  revert i. induction h as [| a t IH]; intros i Hi; [simpl in Hi; lia |].
  destruct t as [| b t']; [simpl in Hi; lia |].
  change (np_diff_values (a :: b :: t')) with ((b - a) :: np_diff_values (b :: t')).
  change (removelast (a :: b :: t')) with (a :: removelast (b :: t')).
  cbn [map zip_with]. destruct i as [| i].
  - reflexivity.
  - cbn [nth]. apply IH. simpl in *. lia.
Qed.

(** X6: the reconstruction of admissions from current occupancy drops one
    day, keeps the series, its dates and its times of one length, and gives
    on each remaining day the change in occupancy plus the outflow of the
    day before; nothing is raised on an empty series. *)
Theorem reconstruct_new_hospitalizations_aligned
    (los_general los_icu hosp_rate_general hosp_rate_icu : R)
    (hospitalizations : list R) (hospital_dates hospital_times : list Z) :
  List.length hospital_dates = List.length hospitalizations ->
  List.length hospital_times = List.length hospitalizations ->
  let '(series, dates, times) :=
    reconstruct_new_hospitalizations los_general los_icu hosp_rate_general
      hosp_rate_icu hospitalizations hospital_dates hospital_times in
  List.length series = (List.length hospitalizations - 1)%nat
  /\ List.length dates = List.length series
  /\ List.length times = List.length series
  /\ dates = skipn 1 hospital_dates
  /\ forall i, (S i < List.length hospitalizations)%nat ->
       nth i series 0
       = nth (S i) hospitalizations 0 - nth i hospitalizations 0
         + nth i hospitalizations 0
           * ((1 - hosp_rate_icu / hosp_rate_general) / los_general
              + hosp_rate_icu / hosp_rate_general / los_icu).
Proof.
  intros Hd Ht. unfold reconstruct_new_hospitalizations.
  assert (Hlen : List.length
            (zip_with Rplus (np_diff_values hospitalizations)
               (map (fun h => h * ((1 - hosp_rate_icu / hosp_rate_general)
                                   / los_general
                                   + hosp_rate_icu / hosp_rate_general / los_icu))
                    (removelast hospitalizations)))
          = (List.length hospitalizations - 1)%nat).
  { rewrite length_zip_with, length_np_diff_values, length_map,
      length_removelast_values. lia. }
  split; [exact Hlen |]. rewrite Hlen, !length_tl, Hd, Ht.
  split; [reflexivity |]. split; [reflexivity |].
  split; [destruct hospital_dates; reflexivity |].
  intros i Hi. apply nth_reconstructed, Hi.
Qed.

Lemma reconstruct_new_hospitalizations_aligned_witness :
  List.length [10; 11; 12]%Z = List.length [100; 120; 90]
  /\ List.length [10; 11; 12]%Z = List.length [100; 120; 90]
  /\ List.length (fst (fst (reconstruct_new_hospitalizations 6 8 4 1
                              [100; 120; 90] [10; 11; 12]%Z [10; 11; 12]%Z)))
     = 2%nat.
Proof.
  split; [reflexivity | split; [reflexivity |]].
  pose proof (reconstruct_new_hospitalizations_aligned 6 8 4 1
                [100; 120; 90] [10; 11; 12]%Z [10; 11; 12]%Z eq_refl eq_refl) as H.
  destruct (reconstruct_new_hospitalizations 6 8 4 1
              [100; 120; 90] [10; 11; 12]%Z [10; 11; 12]%Z) as [[series dates] tms].
  destruct H as (H & _). exact H.
Defined.

(** ** Cutting the smoothed series *)

Lemma filter_seq_head (f : nat -> bool) (n a i : nat) (rest : list nat) :
  filter f (seq a n) = i :: rest ->
  (a <= i < a + n)%nat /\ f i = true
  /\ forall j, (a <= j < i)%nat -> f j = false.
Proof.
  revert a. induction n as [| n IH]; intros a H; [discriminate |].
  cbn [seq filter] in H. destruct (f a) eqn:Ea.
  - injection H as <- _.
    split; [lia |]. split; [exact Ea |]. intros j Hj. lia.
  - apply IH in H. destruct H as (Hr & Hf & Hlt).
    split; [lia |]. split; [exact Hf |].
    intros j Hj. destruct (Nat.eq_dec j a) as [-> | Hne]; [exact Ea |].
    apply Hlt. lia.
Qed.

Lemma filter_seq_nil (f : nat -> bool) (n a : nat) :
  filter f (seq a n) = [] -> forall j, (a <= j < a + n)%nat -> f j = false.
Proof.
  revert a. induction n as [| n IH]; intros a H j Hj; [lia |].
  cbn [seq filter] in H. destruct (f a) eqn:Ea; [discriminate |].
  destruct (Nat.eq_dec j a) as [-> | Hne]; [exact Ea |].
  apply (IH (S a) H). lia.
Qed.

Lemma firstn_zeros (l : list nat) (i : nat) :
  (i <= List.length l)%nat ->
  (forall j, (j < i)%nat -> nth j l O = O) -> firstn i l = repeat O i.
Proof.
  revert i. induction l as [| v l IH]; intros [| i] Hi H;
    try reflexivity; [simpl in Hi; lia |].
  pose proof (H 0%nat ltac:(lia)) as H0. cbn [nth] in H0. subst v.
  cbn [firstn repeat]. f_equal. apply IH; [simpl in Hi; lia |].
  intros j Hj. apply (H (S j)). lia.
Qed.

Lemma py_max_zero (l : list nat) :
  (forall j, (j < List.length l)%nat -> nth j l O = O) -> py_max l = O.
Proof.
  induction l as [| v l IH]; intros H; [reflexivity |].
  pose proof (H 0%nat ltac:(simpl; lia)) as H0. cbn [nth] in H0. subst v.
  change (py_max (O :: l)) with (Nat.max O (py_max l)).
  rewrite IH; [reflexivity |].
  intros j Hj. apply (H (S j)). simpl. lia.
Qed.

(** X7: with a threshold of at least 1 the cut never raises.  An empty
    series and a series whose maximum is below the threshold give an empty
    result; any other series loses exactly its leading zeros, so the result
    starts on a non-zero value. *)
Theorem truncate_smoothed_leading_zeros (smoothed_max_threshold : nat)
    (smoothed : list nat) :
  (1 <= smoothed_max_threshold)%nat ->
  exists r, truncate_smoothed smoothed_max_threshold smoothed = Some r
    /\ (smoothed = [] \/ (py_max smoothed < smoothed_max_threshold)%nat -> r = [])
    /\ (smoothed <> [] -> (smoothed_max_threshold <= py_max smoothed)%nat ->
        exists k, smoothed = repeat O k ++ r /\ hd O r <> O).
Proof.
  intros Hthr. unfold truncate_smoothed.
  destruct smoothed as [| v t] eqn:Es.
  - exists []. split; [reflexivity |]. split; [reflexivity | congruence].
  - rewrite <- Es. 
    destruct (Nat.ltb_spec (py_max smoothed) smoothed_max_threshold) as [Hlt | Hge].
    + exists []. rewrite skipn_all. split; [reflexivity |].
      split; [reflexivity | lia].
    + destruct (filter (fun idx => negb (Nat.eqb (nth idx smoothed O) O))
                       (seq 0 (List.length smoothed))) as [| i rest] eqn:Ef.
      * exfalso.
        pose proof (filter_seq_nil _ _ _ Ef) as Hz.
        assert (Hmax : py_max smoothed = O).
        { apply py_max_zero. intros j Hj. specialize (Hz j ltac:(lia)).
          apply negb_false_iff, Nat.eqb_eq in Hz. exact Hz. }
        lia.
      * apply filter_seq_head in Ef. destruct Ef as (Hi & Hnz & Hz).
        exists (skipn i smoothed). split; [reflexivity |].
        split; [intros [H | H]; [rewrite Es in H; discriminate | lia] |].
        intros _ _. exists i. split.
        -- rewrite <- (firstn_zeros smoothed i); [symmetry; apply firstn_skipn | lia |].
           intros j Hj. specialize (Hz j ltac:(lia)).
           apply negb_false_iff, Nat.eqb_eq in Hz. exact Hz.
        -- apply negb_true_iff, Nat.eqb_neq in Hnz.
           assert (Hhd : hd O (skipn i smoothed) = nth i smoothed O).
           { rewrite <- (Nat.add_0_r i) at 2. rewrite <- nth_skipn.
             destruct (skipn i smoothed); reflexivity. }
           rewrite Hhd. exact Hnz.
Qed.

Lemma truncate_smoothed_leading_zeros_witness :
  (1 <= 5)%nat
  /\ exists r, truncate_smoothed 5 [0; 0; 3; 7; 0]%nat = Some r
       /\ exists k, [0; 0; 3; 7; 0]%nat = repeat O k ++ r /\ hd O r <> O.
Proof.
  split; [lia |].
  destruct (truncate_smoothed_leading_zeros 5 [0; 0; 3; 7; 0]%nat ltac:(lia))
    as (r & Hr & _ & Hk).
  exists r. split; [exact Hr |].
  apply Hk; [discriminate | simpl; lia].
Defined.

(** X8: with a threshold of 0 a series that is zero throughout passes the
    test on the maximum and has no non-zero position: [nonzeros[0]] raises. *)
Theorem truncate_smoothed_all_zero_raises (smoothed : list nat) :
  smoothed <> [] -> Forall (fun v => v = O) smoothed ->
  truncate_smoothed 0 smoothed = None.
Proof.
  intros Hne Hz. unfold truncate_smoothed.
  destruct smoothed as [| v t] eqn:Es; [congruence |]. rewrite <- Es.
  destruct (Nat.ltb_spec (py_max smoothed) 0) as [Hlt | _]; [lia |].
  assert (Hall : forall j, nth j smoothed O = O).
  { rewrite <- Es in Hz. clear - Hz. intros j. revert j.
    induction Hz as [| x l Hx _ IH]; intros [| j]; simpl; try reflexivity;
      [exact Hx | apply IH]. }
  replace (filter (fun idx => negb (Nat.eqb (nth idx smoothed O) O))
                  (seq 0 (List.length smoothed))) with (@nil nat); [reflexivity |].
  symmetry. induction (seq 0 (List.length smoothed)) as [| a l IH];
    [reflexivity |].
  cbn [filter]. rewrite Hall, IH. reflexivity.
Qed.

Lemma truncate_smoothed_all_zero_raises_witness :
  [0; 0; 0]%nat <> [] /\ Forall (fun v => v = O) [0; 0; 0]%nat
  /\ truncate_smoothed 0 [0; 0; 0]%nat = None.
Proof.
  assert (Hne : [0; 0; 0]%nat <> []) by discriminate.
  assert (Hz : Forall (fun v => v = O) [0; 0; 0]%nat) by (repeat constructor).
  split; [exact Hne | split; [exact Hz |]].
  exact (truncate_smoothed_all_zero_raises [0; 0; 0]%nat Hne Hz).
Defined.

(** ** What the smoother is given for a hospitalization type *)

(** X9: for the two hospitalization types the smoother is handed the deaths
    series and the case dates, both without their first two entries, but of
    the times only the first two entries ([times[:2]]): with five days or
    more the times no longer have the length of the dates. *)
Theorem smoothing_inputs_hospitalizations (self : RtInferenceEngine)
    (t : TimeseriesType) :
  t = NEW_HOSPITALIZATIONS \/ t = CURRENT_HOSPITALIZATIONS ->
  smoothing_inputs self t
    = Some (skipn 2 (case_dates self), firstn 2 (times self),
            skipn 2 (observed_new_deaths self))
  /\ (List.length (firstn 2 (times self)) <= 2)%nat
  /\ (List.length (times self) = List.length (case_dates self) ->
      (5 <= List.length (case_dates self))%nat ->
      (List.length (firstn 2 (times self))
       < List.length (skipn 2 (case_dates self)))%nat).
Proof.
  intros Ht. split; [destruct Ht as [-> | ->]; reflexivity |].
  rewrite length_firstn, length_skipn. split; lia.
Qed.

Lemma smoothing_inputs_hospitalizations_witness :
  (NEW_HOSPITALIZATIONS = NEW_HOSPITALIZATIONS
   \/ NEW_HOSPITALIZATIONS = CURRENT_HOSPITALIZATIONS)
  /\ smoothing_inputs sample_engine NEW_HOSPITALIZATIONS
     = Some ([2]%Z, [0; 1]%Z, [4]).
Proof.
  split; [left; reflexivity |].
  exact (proj1 (smoothing_inputs_hospitalizations sample_engine
                  NEW_HOSPITALIZATIONS (or_introl eq_refl))).
Defined.

(** ** What [get_posteriors] returns *)

Lemma iloc_from_negative {A : Type} (n : nat) (l : list A) :
  (1 <= n)%nat ->
  iloc_from (- Z.of_nat n) l = skipn (List.length l - n) l.
Proof.
  intros Hn. unfold iloc_from.
  destruct (Z.ltb_spec (- Z.of_nat n) 0) as [_ | H]; [| lia].
  f_equal. lia.
Qed.

Lemma length_get_posteriors (self : RtInferenceEngine) (timeseries : list nat)
    (posteriors : list (list R)) (ll : logval) :
  get_posteriors self timeseries = Some (posteriors, ll) ->
  List.length posteriors = List.length timeseries.
Proof.
  destruct timeseries as [| k0 rest]; [discriminate |].
  unfold get_posteriors.
  pose proof (length_bayes_loop self (likelihoods self (k0 :: rest))
                (prior0 self) (LogFinite 0)) as Hl.
  rewrite length_likelihoods in Hl.
  destruct (bayes_loop self (likelihoods self (k0 :: rest)) (prior0 self)
              (LogFinite 0)) as [posts total].
  intros H. injection H as <- _. simpl in *. lia.
Qed.

(** X10: an empty smoothed series gives no result instead of an error;
    otherwise there is one posterior column per point of the series, and the
    dates and times returned are the last that many of the dates and times
    passed in, or all of them where fewer were passed. *)
Theorem get_posteriors_result_dates (self : RtInferenceEngine)
    (dates times : list Z) (timeseries : list nat) :
  get_posteriors_result self dates times [] = None
  /\ (timeseries <> [] ->
      exists posteriors,
        get_posteriors_result self dates times timeseries
        = Some (skipn (List.length dates - List.length timeseries) dates,
                skipn (List.length times - List.length timeseries) times,
                posteriors, (- Z.of_nat (List.length timeseries))%Z)
        /\ List.length posteriors = List.length timeseries).
Proof.
  split; [reflexivity |]. intros Hne. unfold get_posteriors_result.
  destruct (get_posteriors self timeseries) as [[posteriors ll] |] eqn:E.
  - pose proof (length_get_posteriors _ _ _ _ E) as Hl.
    exists posteriors. split; [| exact Hl].
    rewrite Hl, !iloc_from_negative; [reflexivity | |];
      destruct timeseries; try congruence; simpl; lia.
  - destruct timeseries as [| k0 rest]; [congruence |].
    unfold get_posteriors in E.
    destruct (bayes_loop self (likelihoods self (k0 :: rest)) (prior0 self)
                (LogFinite 0)); discriminate E.
Qed.

Lemma get_posteriors_result_dates_witness :
  [5; 0; 3]%nat <> []
  /\ exists posteriors,
      get_posteriors_result sample_engine [10; 11; 12; 13]%Z [0; 1]%Z [5; 0; 3]%nat
      = Some ([11; 12; 13]%Z, [0; 1]%Z, posteriors, (-3)%Z)
      /\ List.length posteriors = 3%nat.
Proof.
  split; [discriminate |].
  exact (proj2 (get_posteriors_result_dates sample_engine [10; 11; 12; 13]%Z
                  [0; 1]%Z [5; 0; 3]%nat) ltac:(discriminate)).
Defined.

(** ** [create_df_list] *)

Lemma flat_map_seq_below {B : Type} (g : nat -> B) (c a k : nat) :
  (a + k <= c)%nat ->
  flat_map (fun i => if (i <? c)%nat then [] else [g i]) (seq a k) = [].
Proof.
  revert a. induction k as [| k IH]; intros a H; [reflexivity |].
  cbn [seq flat_map]. destruct (Nat.ltb_spec a c); [| lia].
  rewrite IH by lia. reflexivity.
Qed.

Lemma flat_map_seq_above {B : Type} (g : nat -> B) (c a k : nat) :
  (c <= a)%nat ->
  flat_map (fun i => if (i <? c)%nat then [] else [g i]) (seq a k)
  = map g (seq a k).
Proof.
  revert a. induction k as [| k IH]; intros a H; [reflexivity |].
  cbn [seq flat_map map]. destruct (Nat.ltb_spec a c); [lia |].
  rewrite IH by lia. reflexivity.
Qed.

(** X11: the sample tables are the prefixes of [predict_days + min_days]
    rows, one row more, and so on up to all rows but the last: there are
    [n - (predict_days + min_days)] of them, none for a table of at most
    [predict_days + min_days] rows, and the whole table is never one. *)
Theorem create_df_list_prefixes {A : Type} (df : list A)
    (min_days predict_days : nat) (j : nat) :
  List.length (create_df_list df min_days predict_days)
    = (List.length df - (predict_days + min_days))%nat
  /\ nth_error (create_df_list df min_days predict_days) j
     = if (j <? List.length df - (predict_days + min_days))%nat
       then Some (firstn (predict_days + min_days + j) df)
       else None.
Proof.
  unfold create_df_list.
  set (c := (predict_days + min_days)%nat). set (n := List.length df).
  assert (E : flat_map (fun i => if (i <? c)%nat then [] else [firstn i df])
                       (seq 0 n)
              = map (fun i => firstn i df) (seq c (n - c))).
  { destruct (Nat.le_gt_cases n c) as [Hle | Hgt].
    - rewrite flat_map_seq_below by lia.
      replace (n - c)%nat with 0%nat by lia. reflexivity.
    - replace n with (c + (n - c))%nat at 1 by lia.
      rewrite seq_app, flat_map_app, flat_map_seq_below by lia.
      rewrite flat_map_seq_above by lia. reflexivity. }
  rewrite E. split; [rewrite length_map, length_seq; reflexivity |].
  destruct (Nat.ltb_spec j (n - c)) as [Hlt | Hge].
  - rewrite nth_error_map, nth_error_seq.
    destruct (Nat.ltb_spec j (n - c)); [reflexivity | lia].
  - apply nth_error_None. rewrite length_map, length_seq. exact Hge.
Qed.

(** ** The slices of the backtest *)

(** X12: blinding the last [d] of [n] observations, [1 <= d <= n], splits
    the series in the part the fitter sees and the part held out; the
    errors are computed on the first [min(p, d)] held-out days; and
    [times[-d]], recorded as the observation end date, is the first
    held-out day.  With [d > n] nothing is left for the fitter and
    [times[-d]] raises. *)
Theorem backtest_slices {A : Type} (l : list A) (d p : nat) :
  (1 <= d)%nat ->
  ((d <= List.length l)%nat ->
   blinded_observations d l ++ iloc_from (- Z.of_nat d) l = l
   /\ List.length (blinded_observations d l) = (List.length l - d)%nat
   /\ evaluation_window d p l = firstn p (skipn (List.length l - d) l)
   /\ List.length (evaluation_window d p l) = Nat.min p d
   /\ py_index (- Z.of_nat d) l = nth_error l (List.length l - d))
  /\ ((List.length l < d)%nat ->
      blinded_observations d l = [] /\ py_index (- Z.of_nat d) l = None).
Proof.
  intros Hd.
  assert (Hb : blinded_observations d l = firstn (List.length l - d) l).
  { unfold blinded_observations, slice_to.
    destruct (Z.ltb_spec (- Z.of_nat d) 0) as [_ | H]; [| lia].
    f_equal. lia. }
  assert (He : evaluation_window d p l = firstn p (skipn (List.length l - d) l)).
  { unfold evaluation_window, slice_to. rewrite iloc_from_negative by exact Hd.
    destruct (Z.ltb_spec (Z.of_nat p) 0) as [H | _]; [lia |].
    destruct (Nat.le_gt_cases p (List.length (skipn (List.length l - d) l)))
      as [Hle | Hgt].
    - f_equal. lia.
    - rewrite !firstn_all2; [reflexivity | lia | lia]. }
  split.
  - intros Hle. rewrite Hb, He, iloc_from_negative by exact Hd.
    split; [apply firstn_skipn |].
    split; [rewrite length_firstn; lia |].
    split; [reflexivity |].
    split; [rewrite length_firstn, length_skipn; lia |].
    unfold py_index.
    destruct (Z.ltb_spec (- Z.of_nat d) 0) as [_ | H]; [| lia].
    destruct (Z.ltb_spec (Z.of_nat (List.length l) + - Z.of_nat d) 0); [lia |].
    f_equal. lia.
  - intros Hgt. rewrite Hb. split.
    + replace (List.length l - d)%nat with 0%nat by lia. reflexivity.
    + unfold py_index.
      destruct (Z.ltb_spec (- Z.of_nat d) 0) as [_ | H]; [| lia].
      destruct (Z.ltb_spec (Z.of_nat (List.length l) + - Z.of_nat d) 0);
        [reflexivity | lia].
Qed.

Lemma backtest_slices_witness :
  (1 <= 2)%nat
  /\ blinded_observations 2 [10; 11; 12; 13; 14]%Z = [10; 11; 12]%Z
  /\ evaluation_window 2 7 [10; 11; 12; 13; 14]%Z = [13; 14]%Z
  /\ py_index (-2) [10; 11; 12; 13; 14]%Z = Some 13%Z.
Proof.
  split; [lia |].
  destruct (backtest_slices [10; 11; 12; 13; 14]%Z 2 7 ltac:(lia)) as [H _].
  destruct (H ltac:(simpl; lia)) as (_ & _ & H3 & _ & H5).
  split; [reflexivity | split; [exact H3 | exact H5]].
Defined.

(** ** The posterior table *)

Section PosteriorShape.

Variable self : RtInferenceEngine.

Lemma length_prior0 : List.length (prior0 self) = List.length (r_list self).
Proof. unfold prior0, normalize. rewrite !length_map. reflexivity. Qed.

Lemma length_reinit_prior :
  List.length (reinit_prior self) = List.length (r_list self).
Proof. unfold reinit_prior, normalize. rewrite !length_map. reflexivity. Qed.

Lemma length_process_matrix :
  List.length (process_matrix self) = List.length (r_list self).
Proof. unfold process_matrix, normalize_columns. rewrite !length_map. reflexivity. Qed.

Lemma likelihoods_lengths (timeseries : list nat) :
  Forall (fun c => List.length c = List.length (r_list self))
         (likelihoods self timeseries).
Proof.
  induction timeseries as [| k_prev rest IH]; [constructor |].
  destruct rest as [| k_cur rest']; [constructor |].
  rewrite likelihoods_cons. constructor; [| exact IH].
  rewrite length_map. reflexivity.
Qed.

Lemma length_bayes_update (prev lik : list R) :
  List.length lik = List.length (r_list self) ->
  List.length (bayes_update self prev lik) = List.length (r_list self).
Proof.
  intros Hl. unfold bayes_update.
  destruct (Req_dec_T (Rsum (bayes_numerator self prev lik)) 0).
  - apply length_reinit_prior.
  - unfold bayes_numerator, matvec.
    rewrite length_map, length_zip_with, length_map, length_process_matrix, Hl.
    apply Nat.min_id.
Qed.

Lemma bayes_loop_lengths (liks : list (list R)) (prev : list R) (ll : logval) :
  Forall (fun c => List.length c = List.length (r_list self)) liks ->
  Forall (fun c => List.length c = List.length (r_list self))
         (fst (bayes_loop self liks prev ll)).
Proof.
  intros H. revert prev ll. induction H as [| lik rest Hlik _ IH];
    intros prev ll; simpl; [constructor |].
  specialize (IH (bayes_update self prev lik)
                 (logval_add ll (np_log (Rsum (bayes_numerator self prev lik))))).
  destruct (bayes_loop self rest (bayes_update self prev lik)
              (logval_add ll (np_log (Rsum (bayes_numerator self prev lik)))))
    as [posts total].
  simpl in *. constructor; [apply length_bayes_update, Hlik | exact IH].
Qed.

(** The day after a count of zero, a positive count restarts the filter. *)
Lemma bayes_loop_reinit (timeseries : list nat) (prev : list R) (ll : logval)
    (t k : nat) :
  nth_error timeseries t = Some O ->
  nth_error timeseries (S t) = Some k -> (0 < k)%nat ->
  nth_error (fst (bayes_loop self (likelihoods self timeseries) prev ll)) t
  = Some (reinit_prior self).
Proof.
  revert prev ll t. induction timeseries as [| a rest IH]; intros prev ll t H0 H1 Hk;
    [destruct t; discriminate |].
  destruct rest as [| b rest']; [destruct t; discriminate |].
  rewrite likelihoods_cons. cbn [bayes_loop].
  destruct (bayes_loop self (likelihoods self (b :: rest'))
              (bayes_update self prev
                 (map (fun r => poisson_pmf b
                                  (INR a * exp ((r - 1) / serial_period self)))
                      (r_list self)))
              (logval_add ll
                 (np_log (Rsum (bayes_numerator self prev
                    (map (fun r => poisson_pmf b
                                     (INR a * exp ((r - 1) / serial_period self)))
                         (r_list self)))))))
    as [posts total] eqn:E.
  cbn [fst]. destruct t as [| t].
  - cbn [nth_error] in *. injection H0 as ->. injection H1 as ->.
    f_equal. unfold bayes_update.
    rewrite degenerate_day_denominator by exact Hk.
    destruct (Req_dec_T 0 0); [reflexivity | congruence].
  - cbn [nth_error] in *.
    specialize (IH (bayes_update self prev
                      (map (fun r => poisson_pmf b
                                       (INR a * exp ((r - 1) / serial_period self)))
                           (r_list self)))
                   (logval_add ll
                      (np_log (Rsum (bayes_numerator self prev
                         (map (fun r => poisson_pmf b
                                          (INR a * exp ((r - 1) / serial_period self)))
                              (r_list self))))))
                   t H0 H1 Hk).
    rewrite E in IH. exact IH.
Qed.

End PosteriorShape.

(** X13: when the smoothed series passes through zero, the posterior of the
    first day with a positive count after a day at zero is the
    reinitialization prior, whatever the days before were. *)
Theorem get_posteriors_reinitializes (self : RtInferenceEngine)
    (timeseries : list nat) (posteriors : list (list R)) (ll : logval)
    (t k : nat) :
  get_posteriors self timeseries = Some (posteriors, ll) ->
  nth_error timeseries t = Some O ->
  nth_error timeseries (S t) = Some k -> (0 < k)%nat ->
  nth_error posteriors (S t) = Some (reinit_prior self).
Proof.
  intros Hget H0 H1 Hk.
  destruct timeseries as [| k0 rest]; [discriminate |].
  unfold get_posteriors in Hget.
  pose proof (bayes_loop_reinit self (k0 :: rest) (prior0 self) (LogFinite 0)
                t k H0 H1 Hk) as Hr.
  destruct (bayes_loop self (likelihoods self (k0 :: rest)) (prior0 self)
              (LogFinite 0)) as [posts total].
  injection Hget as <- _. exact Hr.
Qed.

Lemma get_posteriors_reinitializes_witness :
  nth_error [5; 0; 3]%nat 1 = Some O
  /\ nth_error [5; 0; 3]%nat 2 = Some 3%nat
  /\ (0 < 3)%nat
  /\ nth_error
       (prior0 sample_engine
        :: fst (bayes_loop sample_engine (likelihoods sample_engine [5; 0; 3]%nat)
                  (prior0 sample_engine) (LogFinite 0))) 2
     = Some (reinit_prior sample_engine).
Proof.
  split; [reflexivity | split; [reflexivity | split; [lia |]]].
  apply (get_posteriors_reinitializes sample_engine [5; 0; 3]%nat _
           (snd (bayes_loop sample_engine (likelihoods sample_engine [5; 0; 3]%nat)
                   (prior0 sample_engine) (LogFinite 0))) 1 3).
  - unfold get_posteriors.
    destruct (bayes_loop sample_engine (likelihoods sample_engine [5; 0; 3]%nat)
                (prior0 sample_engine) (LogFinite 0)); reflexivity.
  - reflexivity.
  - reflexivity.
  - lia.
Defined.

Lemma get_posteriors_well_formed (self : RtInferenceEngine)
    (timeseries : list nat) (posteriors : list (list R)) (ll : logval) :
  0 < process_sigma self ->
  Exists (fun r => 0 < r) (r_list self) ->
  get_posteriors self timeseries = Some (posteriors, ll) ->
  Forall (well_formed_column self) posteriors.
Proof.
  intros Hs Hg Hget.
  destruct timeseries as [| k0 rest]; [discriminate |].
  unfold get_posteriors in Hget.
  pose proof (bayes_loop_distributions self Hs Hg
                (likelihoods self (k0 :: rest)) (prior0 self) (LogFinite 0)
                (likelihoods_nonneg self (k0 :: rest))
                (proj1 (prior0_distribution self Hg))) as Hd.
  pose proof (bayes_loop_lengths self (likelihoods self (k0 :: rest))
                (prior0 self) (LogFinite 0)
                (likelihoods_lengths self (k0 :: rest))) as Hl.
  destruct (bayes_loop self (likelihoods self (k0 :: rest)) (prior0 self)
              (LogFinite 0)) as [posts total].
  injection Hget as <- _. simpl fst in *.
  assert (Hne : forall c : list R,
             List.length c = List.length (r_list self) -> c <> []).
  { intros c Hc ->. simpl in Hc. destruct (r_list self); [| discriminate].
    inversion Hg. }
  constructor.
  - split; [apply Hne, length_prior0 |].
    split; [apply length_prior0 | apply (prior0_distribution self Hg)].
  - rewrite Forall_forall in *. intros c Hc.
    split; [apply Hne, Hl, Hc |]. split; [apply Hl, Hc | apply Hd, Hc].
Qed.

Lemma Forall2_length_eq {A B : Type} (P : A -> B -> Prop) (a : list A) (b : list B) :
  Forall2 P a b -> List.length a = List.length b.
Proof. induction 1; simpl; congruence. Qed.

Lemma Forall2_grid_values (self : RtInferenceEngine) (t : R)
    (posteriors : list (list R)) (gs : list R) :
  Forall2 (fun col g => closest_grid_value self col t = Some g) posteriors gs ->
  Forall (fun g => In g (r_list self)) gs.
Proof.
  induction 1 as [| col g l gs' Hg _ IH]; constructor; [| exact IH].
  unfold closest_grid_value in Hg.
  destruct (np_argmin (map (fun c => Rabs (c - t)) (cumsum col))) as [i |];
    [| discriminate].
  eapply nth_error_In, Hg.
Qed.

(** X14: on the posterior table of [get_posteriors] the interval
    computation never fails: for every level it returns one low and one
    high bound per day of the series, each of them a value of the grid. *)
Theorem highest_density_interval_of_posteriors (self : RtInferenceEngine)
    (timeseries : list nat) (posteriors : list (list R)) (ll : logval) (ci : R) :
  0 < process_sigma self ->
  Exists (fun r => 0 < r) (r_list self) ->
  get_posteriors self timeseries = Some (posteriors, ll) ->
  exists ci_low ci_high,
    highest_density_interval self posteriors ci = Some (ci_low, ci_high)
    /\ List.length ci_low = List.length timeseries
    /\ List.length ci_high = List.length timeseries
    /\ Forall (fun g => In g (r_list self)) ci_low
    /\ Forall (fun g => In g (r_list self)) ci_high.
Proof.
  intros Hs Hg Hget.
  pose proof (get_posteriors_well_formed self _ _ _ Hs Hg Hget) as Hwf.
  pose proof (length_get_posteriors self _ _ _ Hget) as Hlen.
  destruct (highest_density_interval_some self posteriors ci Hwf)
    as (lo & hi & E & Hlo & Hhi).
  exists lo, hi. split; [exact E |].
  split; [rewrite <- (Forall2_length_eq _ _ _ Hlo); exact Hlen |].
  split; [rewrite <- (Forall2_length_eq _ _ _ Hhi); exact Hlen |].
  split; eapply Forall2_grid_values; eassumption.
Qed.

Lemma highest_density_interval_of_posteriors_witness :
  0 < process_sigma sample_engine
  /\ Exists (fun r => 0 < r) (r_list sample_engine)
  /\ exists ci_low ci_high,
      highest_density_interval sample_engine
        (prior0 sample_engine
         :: fst (bayes_loop sample_engine (likelihoods sample_engine [5; 0; 3]%nat)
                   (prior0 sample_engine) (LogFinite 0))) (95 / 100)
      = Some (ci_low, ci_high)
      /\ List.length ci_low = 3%nat.
Proof.
  assert (Hs : 0 < process_sigma sample_engine) by (simpl; lra).
  assert (Hg : Exists (fun r => 0 < r) (r_list sample_engine))
    by (simpl; apply Exists_cons_tl, Exists_cons_hd; lra).
  split; [exact Hs | split; [exact Hg |]].
  destruct (highest_density_interval_of_posteriors sample_engine [5; 0; 3]%nat
              (prior0 sample_engine
               :: fst (bayes_loop sample_engine
                         (likelihoods sample_engine [5; 0; 3]%nat)
                         (prior0 sample_engine) (LogFinite 0)))
              (snd (bayes_loop sample_engine
                      (likelihoods sample_engine [5; 0; 3]%nat)
                      (prior0 sample_engine) (LogFinite 0)))
              (95 / 100) Hs Hg)
    as (lo & hi & E & Hl & _).
  - unfold get_posteriors.
    destruct (bayes_loop sample_engine (likelihoods sample_engine [5; 0; 3]%nat)
                (prior0 sample_engine) (LogFinite 0)); reflexivity.
  - exists lo, hi. split; [exact E | exact Hl].
Defined.

(** ** More on [replace_outliers] *)

Lemma replace_outliers_changed_in_range (x : list R) (W : nat)
    (z_threshold min_mean : R) (idx : nat) :
  In idx (replace_outliers_changed_idx x W z_threshold min_mean) ->
  (idx < List.length x)%nat.
Proof.
  unfold replace_outliers_changed_idx. rewrite replace_outliers_run_eq.
  destruct (replace_outliers_loop_invariant (shift1 (rolling np_mean W x))
              min_mean (z_flag x W z_threshold) x (List.length x)
              (z_flag_positive x W z_threshold min_mean) (Nat.le_refl _))
    as (_ & Hch & _).
  rewrite Hch, filter_In, in_seq. lia.
Qed.

(** X16: the filter only removes upward spikes over a sufficient baseline:
    a point at or below the mean of its window is kept whatever its
    distance from it, and so is a point whose window mean is at most the
    guard, a mean equal to the guard included.  The point holds its value
    in the series object when the call ends and in what the call returns,
    and is not recorded as changed. *)
Theorem replace_outliers_keeps (x : list R) (W : nat)
    (z_threshold min_mean : R) (idx : nat) :
  (1 <= W)%nat -> 0 <= z_threshold ->
  nth idx x 0 <= np_mean (trailing W x idx)
  \/ np_mean (trailing W x idx) <= min_mean ->
  nth idx (replace_outliers_final x W z_threshold min_mean) 0 = nth idx x 0
  /\ (forall out, replace_outliers x W z_threshold min_mean = inl out ->
        nth idx out 0 = nth idx x 0)
  /\ ~ In idx (replace_outliers_changed_idx x W z_threshold min_mean).
Proof.
  intros HW Ht Hcase.
  assert (Hno : ~ outlier_at W z_threshold min_mean x idx).
  { destruct Hcase as [Hle | Hle].
    - apply not_outlier_below_mean; assumption.
    - intros (_ & _ & Hm). lra. }
  split; [apply replace_outliers_nth_kept; assumption |].
  split.
  { intros out E. rewrite (replace_outliers_inl x W z_threshold min_mean out E).
    apply replace_outliers_nth_kept; assumption. }
  intros Hin. apply Hno.
  apply (replace_outliers_changed x W z_threshold min_mean idx HW); [| exact Hin].
  eapply replace_outliers_changed_in_range, Hin.
Qed.

Lemma replace_outliers_keeps_witness :
  (1 <= 14)%nat /\ 0 <= 10
  /\ nth 15 spike_series 0 <= np_mean (trailing 14 spike_series 15)
  /\ replace_outliers spike_series 14 10 5 = inl spike_once
  /\ nth 15 spike_once 0 = nth 15 spike_series 0.
Proof.
  assert (HW : (1 <= 14)%nat) by lia.
  assert (Ht : 0 <= 10) by lra.
  assert (Hle : nth 15 spike_series 0 <= np_mean (trailing 14 spike_series 15)).
  { cbv [trailing firstn skipn Nat.sub spike_series nth].
    unfold np_mean, Rsum. cbn [fold_right List.length]. rewrite INR_14. lra. }
  split; [exact HW | split; [exact Ht | split; [exact Hle |]]].
  split; [exact replace_outliers_spike_series |].
  exact (proj1 (proj2 (replace_outliers_keeps spike_series 14 10 5 15 HW Ht
                         (or_introl Hle)))
           spike_once replace_outliers_spike_series).
Defined.

(** X17: a series with no more points than the look-back window is returned
    as it came and no index is recorded as changed. *)
Theorem replace_outliers_short_series (x : list R) (W : nat)
    (z_threshold min_mean : R) :
  (1 <= W)%nat -> (List.length x <= W)%nat ->
  replace_outliers x W z_threshold min_mean = inl x
  /\ replace_outliers_changed_idx x W z_threshold min_mean = [].
Proof.
  intros HW Hshort.
  assert (Hno : forall idx, (idx < List.length x)%nat ->
                            ~ outlier_at W z_threshold min_mean x idx).
  { intros idx Hi. apply not_outlier_before_window. lia. }
  split; [apply replace_outliers_unchanged; assumption |].
  destruct (replace_outliers_changed_idx x W z_threshold min_mean) as [| i l] eqn:E;
    [reflexivity | exfalso].
  assert (Hin : In i (replace_outliers_changed_idx x W z_threshold min_mean))
    by (rewrite E; left; reflexivity).
  pose proof (replace_outliers_changed_in_range _ _ _ _ _ Hin) as Hi.
  apply (Hno i Hi).
  apply (replace_outliers_changed x W z_threshold min_mean i HW Hi), Hin.
Qed.

Lemma replace_outliers_short_series_witness :
  (1 <= 14)%nat /\ (List.length short_series <= 14)%nat
  /\ replace_outliers short_series 14 10 5 = inl short_series
  /\ replace_outliers_changed_idx short_series 14 10 5 = [].
Proof.
  assert (HW : (1 <= 14)%nat) by lia.
  assert (Hs : (List.length short_series <= 14)%nat) by (simpl; lia).
  split; [exact HW | split; [exact Hs |]].
  exact (replace_outliers_short_series short_series 14 10 5 HW Hs).
Defined.

(** ** The process model keeps the mass *)

Lemma zip_with_maps {A : Type} (f : R -> R -> R) (p q : A -> R) (B : list A) :
  zip_with f (map p B) (map q B) = map (fun b => f (p b) (q b)) B.
Proof. induction B as [| b B IH]; simpl; [| rewrite IH]; reflexivity. Qed.

Lemma nth_map_lt {A : Type} (f : A -> R) (l : list A) (j : nat) (d : A) (d' : R) :
  (j < List.length l)%nat -> nth j (map f l) d' = f (nth j l d).
Proof.
  revert j. induction l as [| a l IH]; intros [| j] Hj; simpl in *; try lia.
  - reflexivity.
  - apply IH. lia.
Qed.

Lemma map_as_seq {A : Type} (f : A -> R) (l : list A) (d : A) :
  map f l = map (fun j => f (nth j l d)) (seq 0 (List.length l)).
Proof.
  apply (nth_ext _ _ 0 0).
  - rewrite !length_map, length_seq. reflexivity.
  - rewrite length_map. intros j Hj.
    rewrite (nth_map_lt f l j d 0 Hj), nth_map_seq by exact Hj. reflexivity.
Qed.

Lemma col_sums_of_table (g : R -> R -> R) (A B : list R) :
  col_sums (List.length B) (map (fun a => map (fun b => g a b) B) A)
  = map (fun b => Rsum (map (fun a => g a b) A)) B.
Proof.
  unfold col_sums.
  rewrite (map_as_seq (fun b => Rsum (map (fun a => g a b) A)) B 0).
  apply map_ext_in. intros j Hj. apply in_seq in Hj.
  f_equal. rewrite map_map. apply map_ext. intros a.
  apply nth_map_lt. lia.
Qed.

Lemma mass_preserved (g : R -> R -> R) (A B v : list R) :
  List.length v = List.length B ->
  (forall b, In b B -> Rsum (map (fun a => g a b) A) <> 0) ->
  Rsum (map (fun a =>
               Rsum (zip_with Rmult
                       (map (fun b => g a b / Rsum (map (fun a' => g a' b) A)) B)
                       v))
            A)
  = Rsum v.
Proof.
  revert v. induction B as [| b B IH]; intros [| y v] Hlen Hnz;
    simpl in Hlen; try lia.
  - simpl. apply Rsum_map_zero.
  - cbn [map zip_with].
    rewrite (map_ext _ (fun a =>
               y / Rsum (map (fun a' => g a' b) A) * g a b
               + Rsum (zip_with Rmult
                         (map (fun b0 => g a b0 / Rsum (map (fun a' => g a' b0) A)) B)
                         v))).
    + rewrite Rsum_map_plus, Rsum_map_scal, IH.
      * change (Rsum (y :: v)) with (y + Rsum v). f_equal. field.
        apply Hnz. left. reflexivity.
      * lia.
      * intros b0 Hb0. apply Hnz. right. exact Hb0.
    + intros a. change (Rsum (?h :: ?t)) with (h + Rsum t).
      f_equal. unfold Rdiv. ring.
Qed.

Lemma norm_pdf_pos (loc scale x : R) : 0 < scale -> 0 < norm_pdf loc scale x.
Proof.
  intros Hs. unfold norm_pdf. apply Rdiv_lt_0_compat; [apply exp_pos |].
  apply Rmult_lt_0_compat; [| exact Hs].
  apply sqrt_lt_R0. pose proof PI_RGT_0. lra.
Qed.

(** X18: the process matrix has columns of sum 1, so propagating a
    distribution over the grid through it gives a distribution again: the
    day's prior, like the posterior it comes from, sums to 1. *)
Theorem current_prior_distribution (self : RtInferenceEngine)
    (previous_posterior : list R) :
  0 < process_sigma self ->
  List.length previous_posterior = List.length (r_list self) ->
  is_distribution previous_posterior ->
  Rsum (matvec (process_matrix self) previous_posterior) = Rsum previous_posterior
  /\ is_distribution (matvec (process_matrix self) previous_posterior).
Proof.
  intros Hs Hlen [Hnn Hsum].
  assert (Hmass : Rsum (matvec (process_matrix self) previous_posterior)
                  = Rsum previous_posterior).
  { unfold process_matrix, normalize_columns, matvec.
    rewrite (col_sums_of_table (fun ri rj => norm_pdf rj (process_sigma self) ri)).
    rewrite !map_map.
    rewrite (map_ext _ (fun ri =>
      Rsum (zip_with Rmult
              (map (fun rj => norm_pdf rj (process_sigma self) ri
                              / Rsum (map (fun a' => norm_pdf rj (process_sigma self) a')
                                          (r_list self)))
                   (r_list self))
              previous_posterior)))
      by (intros ri; rewrite zip_with_maps; reflexivity).
    apply (mass_preserved (fun ri rj => norm_pdf rj (process_sigma self) ri));
      [exact Hlen |].
    intros b Hb.
    assert (0 < Rsum (map (fun a => norm_pdf b (process_sigma self) a) (r_list self))).
    { apply Rsum_pos.
      - apply Forall_map_nonneg. intros a. apply norm_pdf_nonneg, Hs.
      - rewrite Exists_map. apply Exists_exists. exists b.
        split; [exact Hb | apply norm_pdf_pos, Hs]. }
    lra. }
  split; [exact Hmass |]. split.
  - apply matvec_nonneg; [apply process_matrix_nonneg, Hs | exact Hnn].
  - rewrite Hmass. exact Hsum.
Qed.

Lemma current_prior_distribution_witness :
  0 < process_sigma sample_engine
  /\ List.length [1 / 4; 1 / 2; 1 / 4] = List.length (r_list sample_engine)
  /\ is_distribution [1 / 4; 1 / 2; 1 / 4]
  /\ is_distribution (matvec (process_matrix sample_engine) [1 / 4; 1 / 2; 1 / 4]).
Proof.
  assert (Hs : 0 < process_sigma sample_engine) by (simpl; lra).
  assert (Hd : is_distribution [1 / 4; 1 / 2; 1 / 4]).
  { split; [repeat constructor; lra | unfold Rsum; simpl; lra]. }
  split; [exact Hs | split; [reflexivity | split; [exact Hd |]]].
  exact (proj2 (current_prior_distribution sample_engine [1 / 4; 1 / 2; 1 / 4]
                  Hs eq_refl Hd)).
Defined.

(** ** The MAP estimate *)

Lemma argmax_from_opp (l : list R) (bi : nat) (b : R) (i : nat) :
  argmax_from bi b i l = argmin_from bi (- b) i (map Ropp l).
Proof.
  revert bi b i. induction l as [| v t IH]; intros bi b i; simpl; [reflexivity |].
  destruct (Rgt_dec v b), (Rlt_dec (- v) (- b)); try lra; apply IH.
Qed.

Lemma np_argmax_opp (l : list R) : np_argmax l = np_argmin (map Ropp l).
Proof.
  destruct l as [| v t]; [reflexivity |]. simpl. rewrite argmax_from_opp.
  reflexivity.
Qed.

Lemma np_argmax_mode (self : RtInferenceEngine) (col : list R) :
  col <> [] -> List.length col = List.length (r_list self) ->
  exists g,
    match np_argmax col with
    | Some i => nth_error (r_list self) i
    | None => None
    end = Some g
    /\ mode_at self col g.
Proof.
  intros Hne Hlen. rewrite np_argmax_opp.
  destruct (np_argmin_spec (map Ropp col)) as (i & Ei & Li & Mi & Fi).
  { destruct col; [congruence | discriminate]. }
  rewrite length_map in Li, Mi. rewrite Ei.
  exists (nth i (r_list self) 0).
  assert (Hg : nth_error (r_list self) i = Some (nth i (r_list self) 0))
    by (apply nth_error_nth'; lia).
  split; [exact Hg |]. exists i.
  split; [exact Li |]. split; [exact Hg |]. split.
  - intros j Hj. specialize (Mi j Hj).
    rewrite !(nth_map_lt Ropp col _ 0 0) in Mi by assumption. lra.
  - intros j Hj. specialize (Fi j Hj).
    rewrite !(nth_map_lt Ropp col _ 0 0) in Fi by lia. lra.
Qed.

(** X19: on a table with one entry per grid value in every column,
    [idxmax] returns for each day a value of the grid at which that day's
    posterior is largest, the smallest such value of an increasing grid
    when several positions share the maximum. *)
Theorem idxmax_modes (self : RtInferenceEngine) (posteriors : list (list R)) :
  Forall (fun col => col <> [] /\ List.length col = List.length (r_list self))
         posteriors ->
  exists estimates,
    idxmax self posteriors = Some estimates
    /\ Forall2 (mode_at self) posteriors estimates.
Proof.
  intros Hwf. unfold idxmax.
  destruct (traverse_some
              (fun col => match np_argmax col with
                          | Some i => nth_error (r_list self) i
                          | None => None
                          end) posteriors) as [estimates He].
  { eapply Forall_impl; [| exact Hwf]. intros col [Hne Hlen].
    destruct (np_argmax_mode self col Hne Hlen) as (g & Hg & _).
    exists g. exact Hg. }
  exists estimates. split; [exact He |].
  apply traverse_Forall2 in He. clear - He Hwf.
  induction He as [| col g l gs Hg _ IH]; constructor.
  - inversion Hwf as [| ? ? [Hne Hlen] _]; subst.
    destruct (np_argmax_mode self col Hne Hlen) as (g' & Hg' & Hm).
    rewrite Hg in Hg'. injection Hg' as <-. exact Hm.
  - apply IH. inversion Hwf; assumption.
Qed.

Lemma idxmax_modes_witness :
  Forall (fun col => col <> []
                     /\ List.length col = List.length (r_list sample_engine))
         [[1 / 4; 1 / 2; 1 / 4]]
  /\ exists estimates,
      idxmax sample_engine [[1 / 4; 1 / 2; 1 / 4]] = Some estimates
      /\ Forall2 (mode_at sample_engine) [[1 / 4; 1 / 2; 1 / 4]] estimates.
Proof.
  assert (Hwf : Forall (fun col => col <> []
                     /\ List.length col = List.length (r_list sample_engine))
                  [[1 / 4; 1 / 2; 1 / 4]]).
  { constructor; [| constructor]. split; [discriminate | reflexivity]. }
  split; [exact Hwf |].
  exact (idxmax_modes sample_engine [[1 / 4; 1 / 2; 1 / 4]] Hwf).
Defined.

(** ** [build_combined_dataset_from_sources] *)

Section CombinedDatasetsFacts.

Context {Cls Field Source Dataset Filter Frame : Type}.
Variable cls_eqb : Cls -> Cls -> bool.
Variable local : Cls -> Source.
Variable build_from_data_source : Source -> Dataset.
Variable apply_filter : Filter -> Dataset -> Dataset.
Variable empty_frame : Field -> Frame.
Variable fill_fields_with_data_source : Frame -> Dataset -> Field -> Frame.

Hypothesis cls_eqb_eq : forall a b, cls_eqb a b = true <-> a = b.

Lemma class_set_In (l : list Cls) (c : Cls) :
  In c l -> In c (class_set cls_eqb l).
Proof.
  induction l as [| a t IH]; intros Hin; [contradiction |].
  cbn [class_set]. destruct (existsb (cls_eqb a) t) eqn:E.
  - destruct Hin as [-> | Hin]; [| apply IH, Hin].
    apply existsb_exists in E. destruct E as (b & Hb & Heq).
    apply cls_eqb_eq in Heq. subst b. apply IH, Hb.
  - destruct Hin as [-> | Hin]; [left; reflexivity | right; apply IH, Hin].
Qed.

Lemma dict_get_map (h : Cls -> Dataset) (l : list Cls) (c : Cls) :
  In c l -> dict_get cls_eqb (map (fun k => (k, h k)) l) c = Some (h c).
Proof.
  induction l as [| a t IH]; intros Hin; [contradiction |].
  cbn [map dict_get]. destruct (cls_eqb a c) eqn:E.
  - apply cls_eqb_eq in E. subst a. reflexivity.
  - destruct Hin as [-> | Hin]; [| apply IH, Hin].
    assert (cls_eqb c c = true) by (apply cls_eqb_eq; reflexivity). congruence.
Qed.

Lemma intermediate_datasets_get (filters : list Filter)
    (config : list (Field * list Cls)) (c : Cls) :
  In c (List.concat (map snd config)) ->
  dict_get cls_eqb
    (intermediate_datasets cls_eqb local build_from_data_source apply_filter
       filters config) c
  = Some (filtered apply_filter filters (build_from_data_source (local c))).
Proof.
  intros Hin. unfold intermediate_datasets, load_data_sources,
    all_data_source_classes.
  rewrite map_map. cbn [fst snd].
  apply (dict_get_map
           (fun k => filtered apply_filter filters (build_from_data_source (local k)))).
  apply class_set_In, Hin.
Qed.

Lemma build_field_folds (datasets : list (Cls * Dataset))
    (h : Cls -> Dataset) (field : Field) (classes : list Cls) :
  (forall c, In c classes -> dict_get cls_eqb datasets c = Some (h c)) ->
  build_field cls_eqb empty_frame fill_fields_with_data_source datasets field classes
  = Some (fold_left (fun df c => fill_fields_with_data_source df (h c) field)
                    classes (empty_frame field)).
Proof.
  unfold build_field. generalize (empty_frame field) as df0.
  induction classes as [| c t IH]; intros df0 Hget; [reflexivity |].
  cbn [fold_left]. rewrite (Hget c (or_introl eq_refl)).
  apply IH. intros c' Hc'. apply Hget. right. exact Hc'.
Qed.

Lemma build_field_series_folds (datasets : list (Cls * Dataset))
    (h : Cls -> Dataset) (config : list (Field * list Cls)) :
  (forall c, In c (List.concat (map snd config)) ->
             dict_get cls_eqb datasets c = Some (h c)) ->
  build_field_series cls_eqb empty_frame fill_fields_with_data_source datasets config
  = Some (map (fun fc =>
                 (fst fc,
                  fold_left (fun df c => fill_fields_with_data_source df (h c) (fst fc))
                            (snd fc) (empty_frame (fst fc))))
              (filter (fun fc => negb (Nat.eqb (List.length (snd fc)) 0)) config)).
Proof.
  induction config as [| [field classes] rest IH]; intros Hget; [reflexivity |].
  cbn [map List.concat snd] in Hget.
  assert (Hrest : forall c, In c (List.concat (map snd rest)) ->
                            dict_get cls_eqb datasets c = Some (h c))
    by (intros c Hc; apply Hget, in_or_app; right; exact Hc).
  cbn [build_field_series filter snd]. destruct classes as [| c0 cs].
  - cbn [List.length Nat.eqb negb]. apply IH, Hrest.
  - cbn [List.length Nat.eqb negb map fst snd].
    rewrite (build_field_folds datasets h field (c0 :: cs))
      by (intros c Hc; apply Hget, in_or_app; left; exact Hc).
    rewrite (IH Hrest). reflexivity.
Qed.

End CombinedDatasetsFacts.

(** X20: building the per-field tables never meets a missing data source:
    every class a field names has been loaded.  The tables built are those
    of the fields that name at least one class, in the order of the
    definition, a field without classes being left out; each table is the
    empty table of the field filled from its classes in turn, every
    dataset having gone through the filters in order. *)
Theorem field_series_from_sources_complete
    (Cls Field Source Dataset Filter Frame : Type)
    (cls_eqb : Cls -> Cls -> bool) (local : Cls -> Source)
    (build_from_data_source : Source -> Dataset)
    (apply_filter : Filter -> Dataset -> Dataset)
    (empty_frame : Field -> Frame)
    (fill_fields_with_data_source : Frame -> Dataset -> Field -> Frame)
    (filters : list Filter) (config : list (Field * list Cls)) :
  (forall a b, cls_eqb a b = true <-> a = b) ->
  field_series_from_sources cls_eqb local build_from_data_source apply_filter
    empty_frame fill_fields_with_data_source filters config
  = Some (map (fun fc =>
                 (fst fc,
                  fold_left
                    (fun df c =>
                       fill_fields_with_data_source df
                         (filtered apply_filter filters
                            (build_from_data_source (local c)))
                         (fst fc))
                    (snd fc) (empty_frame (fst fc))))
              (filter (fun fc => negb (Nat.eqb (List.length (snd fc)) 0)) config)).
Proof.
  intros Heq. unfold field_series_from_sources.
  apply build_field_series_folds.
  intros c Hc. apply intermediate_datasets_get; assumption.
Qed.

Lemma field_series_from_sources_complete_witness :
  (forall a b : nat, Nat.eqb a b = true <-> a = b)
  /\ field_series_from_sources Nat.eqb (fun c : nat => c) (fun s : nat => [s])
       (fun (f : nat) (d : list nat) => f :: d) (fun _ : nat => @nil nat)
       (fun (df : list nat) (d : list nat) (_ : nat) => df ++ d)
       [7%nat] [(0%nat, [1%nat; 2%nat]); (1%nat, []); (2%nat, [2%nat])]
     = Some [(0%nat, [7; 1; 7; 2]%nat); (2%nat, [7; 2]%nat)].
Proof.
  split; [exact Nat.eqb_eq |].
  exact (field_series_from_sources_complete nat nat nat (list nat) nat (list nat)
           Nat.eqb (fun c => c) (fun s => [s]) (fun f d => f :: d)
           (fun _ => []) (fun df d _ => df ++ d)
           [7%nat] [(0%nat, [1%nat; 2%nat]); (1%nat, []); (2%nat, [2%nat])]
           Nat.eqb_eq).
Defined.

(** ** Shifting the columns of a lagging indicator *)

Lemma In_names_df_set (df : DataFrame) (name : string) (c : column) (x : string) :
  In x (map fst (df_set df name c)) -> x = name \/ In x (map fst df).
Proof.
  induction df as [| [n c'] rest IH]; simpl.
  - intros [<- | []]. left. reflexivity.
  - destruct (String.eqb_spec n name) as [-> | Hne]; simpl.
    + intros [<- | H]; [left; reflexivity | right; right; exact H].
    + intros [<- | H]; [right; left; reflexivity |].
      destruct (IH H) as [-> | H']; [left; reflexivity | right; right; exact H'].
Qed.

Lemma NoDup_names_df_set (df : DataFrame) (name : string) (c : column) :
  NoDup (map fst df) -> NoDup (map fst (df_set df name c)).
Proof.
  induction df as [| [n c'] rest IH]; simpl; intros Hnd.
  - constructor; [intros [] | constructor].
  - inversion Hnd as [| ? ? Hnotin Hrest]; subst.
    destruct (String.eqb_spec n name) as [-> | Hne]; simpl.
    + constructor; assumption.
    + constructor; [| apply IH, Hrest].
      intros Hin. apply In_names_df_set in Hin.
      destruct Hin as [-> | Hin]; [congruence | contradiction].
Qed.

Lemma df_get_absent (df : DataFrame) (name : string) :
  existsb (String.eqb name) (map fst df) = false -> df_get df name = None.
Proof.
  induction df as [| [n c] rest IH]; simpl; [reflexivity |].
  rewrite String.eqb_sym. destruct (String.eqb n name); simpl;
    [discriminate | exact IH].
Qed.

Lemma fold_shift_column_step (value : string) (k : Z) (names : list string)
    (df : DataFrame) (name : string) :
  NoDup names ->
  df_get (fold_left (shift_column_step value k) names df) name
  = if existsb (String.eqb name) names && str_in value name
    then option_map (shift_and_fill k) (df_get df name)
    else df_get df name.
Proof.
  intros Hnd. revert df. induction Hnd as [| a t Hnotin Hnd IH]; intros df;
    [reflexivity |].
  cbn [fold_left existsb]. rewrite IH.
  destruct (String.eqb_spec name a) as [-> | Hne]; cbn [orb].
  - assert (Eex : existsb (String.eqb a) t = false).
    { destruct (existsb (String.eqb a) t) eqn:E; [| reflexivity].
      apply existsb_exists in E. destruct E as (b & Hb & Heq).
      apply String.eqb_eq in Heq. subst b. contradiction. }
    rewrite Eex. cbn [andb]. unfold shift_column_step.
    destruct (str_in value a); [| reflexivity].
    destruct (df_get df a) as [c |] eqn:Eg; [| rewrite Eg; reflexivity].
    rewrite df_get_set_same. reflexivity.
  - assert (Hsame : df_get (shift_column_step value k df a) name = df_get df name).
    { unfold shift_column_step. destruct (str_in value a); [| reflexivity].
      destruct (df_get df a); [| reflexivity].
      apply df_get_set_other. congruence. }
    rewrite Hsame. reflexivity.
Qed.

Lemma firstn_repeat_le {A : Type} (a : A) (m n : nat) :
  (m <= n)%nat -> firstn m (repeat a n) = repeat a m.
Proof.
  revert n. induction m as [| m IH]; intros [| n] H; simpl; try reflexivity;
    try lia.
  rewrite IH by lia. reflexivity.
Qed.

(** X21: the lag is written into the column [lag_days__<type>] before the
    columns whose name contains the value of the type are shifted, and that
    name contains it: with a positive lag of [k] days the lag column itself
    is moved down and holds NaN on the first [k] dates.  Every other column
    whose name contains the value is shifted and filled, and the columns
    whose name does not contain it are left as they were. *)
Theorem shift_indicator_columns_lag (t : TimeseriesType) (k : nat)
    (df : DataFrame) :
  NoDup (map fst df) ->
  t = NEW_DEATHS \/ t = NEW_HOSPITALIZATIONS ->
  (k < df_rows df)%nat ->
  df_get (shift_indicator_columns t (Z.of_nat k) df)
         (String.append "lag_days__" (TimeseriesType_value t))
  = Some (repeat None k ++ repeat (Some (IZR (Z.of_nat k))) (df_rows df - k))
  /\ (forall name,
        name <> String.append "lag_days__" (TimeseriesType_value t) ->
        df_get (shift_indicator_columns t (Z.of_nat k) df) name
        = if str_in (TimeseriesType_value t) name
          then option_map (shift_and_fill (Z.of_nat k)) (df_get df name)
          else df_get df name).
Proof.
  intros Hnd Ht Hk. unfold shift_indicator_columns.
  set (lag := String.append "lag_days__" (TimeseriesType_value t)).
  set (df1 := df_set df lag (repeat (Some (IZR (Z.of_nat k))) (df_rows df))).
  assert (Hnd1 : NoDup (map fst df1)) by apply NoDup_names_df_set, Hnd.
  assert (Hall : forall name,
    df_get (fold_left (shift_column_step (TimeseriesType_value t) (Z.of_nat k))
                      (map fst df1) df1) name
    = if str_in (TimeseriesType_value t) name
      then option_map (shift_and_fill (Z.of_nat k)) (df_get df1 name)
      else df_get df1 name).
  { intros name. rewrite fold_shift_column_step by exact Hnd1.
    destruct (existsb (String.eqb name) (map fst df1)) eqn:E; [reflexivity |].
    cbn [andb]. rewrite (df_get_absent df1 name E).
    destruct (str_in (TimeseriesType_value t) name); reflexivity. }
  split.
  - rewrite Hall. unfold df1. rewrite df_get_set_same.
    assert (Hin : str_in (TimeseriesType_value t) lag = true)
      by (destruct Ht as [-> | ->]; reflexivity).
    rewrite Hin. cbn [option_map]. f_equal.
    rewrite <- (map_repeat (IZR (Z.of_nat k)) (df_rows df) Some).
    destruct (shift_and_fill_complete_column
                (repeat (IZR (Z.of_nat k)) (df_rows df)) k) as [Hpos _];
      [rewrite repeat_length; exact Hk |].
    rewrite Hpos, repeat_length, firstn_repeat_le by lia.
    rewrite map_repeat. reflexivity.
  - intros name Hne. rewrite Hall. unfold df1.
    rewrite df_get_set_other by congruence. reflexivity.
Qed.

Lemma shift_indicator_columns_lag_witness :
  NoDup (map fst sample_table)
  /\ (NEW_DEATHS = NEW_DEATHS \/ NEW_DEATHS = NEW_HOSPITALIZATIONS)
  /\ (1 < df_rows sample_table)%nat
  /\ df_get (shift_indicator_columns NEW_DEATHS 1 sample_table)
            "lag_days__new_deaths"
     = Some [None; Some 1].
Proof.
  assert (Hnd : NoDup (map fst sample_table)).
  { simpl. repeat constructor; simpl; intros H;
      repeat (destruct H as [H | H]; [discriminate H |]); exact H. }
  assert (Hk : (1 < df_rows sample_table)%nat) by (simpl; lia).
  split; [exact Hnd | split; [left; reflexivity | split; [exact Hk |]]].
  exact (proj1 (shift_indicator_columns_lag NEW_DEATHS 1 sample_table Hnd
                  (or_introl eq_refl) Hk)).
Defined.
